(** * Test_PLAYE backend: the in-memory job manager of [backend/app.py]

    A shallow embedding of the job store, the retention pass, the background
    execution path and the HTTP handlers of [backend/app.py], followed by the
    properties of the job lifecycle.

    Modelling conventions.
    - [_jobs] and [_jobs_by_idempotency] are Python dicts: association lists
      in insertion order, with the dict operations [dict_get], [dict_set]
      (assignment keeps the position of an existing key, a new key goes last)
      and [dict_pop].
    - Every handler body runs under [_jobs_lock]; a handler is a function from
      the store to the new store and the response.  [_process_job] takes the
      lock twice, so it is two such functions with the executor call between.
      [list_jobs] sorts, filters and builds its items after it has released
      the lock; it is taken as one step all the same, so a cancellation or a
      background call between its snapshot and its answer is not modelled.
    - Clock readings and generated identifiers are inputs: [now] is
      [time.time()], [stamp] is [time.strftime(fmt, time.gmtime())], [job_id]
      and [rid] are the strings returned by [_new_request_id()].
    - Python floats are rationals ([Q]).  Clock readings and durations are
      taken as exact; the detection score is computed in binary floating
      point, every operation rounded by [to_float].
    - A Python [str] is a string of its code points, all below 256.
    - [time.mktime(time.strptime(value, fmt))] depends on the time zone of the
      process; it is a parameter [mktime_strptime] of the model, and
      [mktime_strptime_local] is its instance for a fixed offset from UTC. *)

From Stdlib Require Import ZArith QArith String Ascii List Bool Arith Lia.
From Stdlib Require Import Permutation Sorted Qabs Lqa.
From Stdlib Require DecimalString DecimalZ DecimalPos.
Import ListNotations.

Local Open Scope string_scope.
Local Open Scope list_scope.

(** ** Data model *)

Inductive JobStatusLiteral : Type :=
| pending | running | done | failed | canceled | timeout.

Definition JobStatusLiteral_eqb (a b : JobStatusLiteral) : bool :=
  match a, b with
  | pending, pending | running, running | done, done
  | failed, failed | canceled, canceled | timeout, timeout => true
  | _, _ => false
  end.

Record DetectedObject : Type := {
  x : Q; y : Q; width : Q; height : Q; label : string; score : Q
}.

Record DetectResponse : Type := {
  objects : list DetectedObject;
  modelVersion : string;
  latencyMs : Q;
  requestId : string
}.

Record DetectRequest : Type := {
  det_imageBase64 : string;
  det_minScore : Q;
  det_debugSleepMs : Z
}.

Record JobRecord : Type := {
  jobId : string;
  status : JobStatusLiteral;
  task : string;
  createdAt : string;
  startedAt : option string;
  finishedAt : option string;
  error : option string;
  result : option DetectResponse;
  idempotencyKey : option string
}.

(** JSON scalars, for the [details] of an error and the body of [/health]. *)
Inductive JValue : Type :=
| JStr (s : string) | JInt (z : Z) | JNum (q : Q).

Record ApiError : Type := {
  code : string;
  message : string;
  err_requestId : string;
  details : list (string * JValue)
}.

(** What a handler gives back: the response model, or a raised
    [HTTPException(status_code, detail)]. *)
Inductive Response (A : Type) : Type :=
| Ok (body : A)
| HTTPException (status_code : Z) (detail : ApiError).
Arguments Ok {A} body.
Arguments HTTPException {A} status_code detail.

Record JobCreateRequest : Type := {
  req_task : string;
  req_imageBase64 : string;
  req_minScore : Q;
  req_debugSleepMs : Z;
  req_idempotencyKey : option string
}.

Record JobCreateResponse : Type := {
  cr_jobId : string;
  cr_status : JobStatusLiteral;
  cr_acceptedAt : string;
  cr_requestId : string
}.

Record JobStatusResponse : Type := {
  sr_jobId : string;
  sr_status : JobStatusLiteral;
  sr_task : string;
  sr_createdAt : string;
  sr_startedAt : option string;
  sr_finishedAt : option string;
  sr_error : option string;
  sr_requestId : string
}.

Record JobListItem : Type := {
  li_jobId : string;
  li_status : JobStatusLiteral;
  li_task : string;
  li_createdAt : string;
  li_startedAt : option string;
  li_finishedAt : option string;
  li_error : option string
}.

Record JobListResponse : Type := {
  items : list JobListItem;
  nextCursor : option string;
  lr_requestId : string
}.

Record JobResultResponse : Type := {
  rr_jobId : string;
  rr_objects : list DetectedObject;
  rr_modelVersion : string;
  rr_latencyMs : Q;
  rr_requestId : string
}.

(** ** Python dicts with string keys, in insertion order *)

Section Dict.
Context {V : Type}.

Fixpoint dict_get (k : string) (d : list (string * V)) : option V :=
  match d with
  | [] => None
  | (k', v) :: d' => if String.eqb k' k then Some v else dict_get k d'
  end.

(** [d[k] = v] *)
Fixpoint dict_set (k : string) (v : V) (d : list (string * V))
  : list (string * V) :=
  match d with
  | [] => [(k, v)]
  | (k', v') :: d' =>
      if String.eqb k' k then (k, v) :: d' else (k', v') :: dict_set k v d'
  end.

(** [d.pop(k, None)] *)
Definition dict_pop (k : string) (d : list (string * V))
  : list (string * V) :=
  filter (fun e => negb (String.eqb (fst e) k)) d.

Definition dict_keys (d : list (string * V)) : list string := map fst d.
Definition dict_values (d : list (string * V)) : list V := map snd d.
End Dict.

(** ** Module state and constants *)

Record Store : Type := {
  _jobs : list (string * JobRecord);
  _jobs_by_idempotency : list (string * string)
}.

Definition empty_store : Store :=
  {| _jobs := []; _jobs_by_idempotency := [] |}.

Definition JOBS_MAX_ITEMS : nat := 200.
Definition JOBS_TTL_SECONDS : Q := 1800.
Definition JOB_RUN_TIMEOUT_SECONDS : Q := 8.

(** Python truthiness of an [Optional[str]]: [None] and [""] are false. *)
Definition truthy (o : option string) : bool :=
  match o with
  | None => false
  | Some s => negb (String.eqb s "")
  end.

(** [a or b] on an [Optional[str]] and a string. *)
Definition or_default (o : option string) (dflt : string) : string :=
  match o with
  | None => dflt
  | Some s => if String.eqb s "" then dflt else s
  end.

(** [a > b] on floats. *)
Definition Qgtb (a b : Q) : bool := negb (Qle_bool a b).

(** ** Calendar time: an instance of [time.mktime(time.strptime(v, fmt))]

    for [fmt = "%Y-%m-%dT%H:%M:%SZ"], on the zero-padded strings that
    [time.strftime] produces with that format ([strptime] also accepts some
    unpadded fields; those are not needed and are rejected here), in a time
    zone [utcoffset] seconds east of UTC without daylight saving. *)

Definition digit_val (c : ascii) : option Z :=
  let n := nat_of_ascii c in
  if (48 <=? n)%nat && (n <=? 57)%nat then Some (Z.of_nat (n - 48)) else None.

Fixpoint digits_val (acc : Z) (l : list ascii) : option Z :=
  match l with
  | [] => Some acc
  | c :: l' =>
      match digit_val c with
      | Some d => digits_val (10 * acc + d)%Z l'
      | None => None
      end
  end.

Definition is_leap (yr : Z) : bool :=
  ((yr mod 4 =? 0) && (negb (yr mod 100 =? 0) || (yr mod 400 =? 0)))%Z.

Definition days_in_month (yr mo : Z) : Z :=
  (if mo =? 2 then (if is_leap yr then 29 else 28)
   else if (mo =? 4) || (mo =? 6) || (mo =? 9) || (mo =? 11) then 30
   else 31)%Z.

(** Days from 1970-01-01 to the civil date, proleptic Gregorian. *)
Definition days_from_civil (yr mo dy : Z) : Z :=
  (let y' := if mo <=? 2 then yr - 1 else yr in
   let era := y' / 400 in
   let yoe := y' - era * 400 in
   let mp := if mo <=? 2 then mo + 9 else mo - 3 in
   let doy := (153 * mp + 2) / 5 + dy - 1 in
   let doe := yoe * 365 + yoe / 4 - yoe / 100 + doy in
   era * 146097 + doe - 719468)%Z.

Definition mktime_strptime_local (utcoffset : Z) (value : string)
  : option Z :=
  match list_ascii_of_string value with
  | [y1; y2; y3; y4; d1; m1; m2; d2; a1; a2; t; h1; h2; c1; n1; n2; c2;
     s1; s2; z] =>
      if (Ascii.eqb d1 "-" && Ascii.eqb d2 "-" && Ascii.eqb t "T"
          && Ascii.eqb c1 ":" && Ascii.eqb c2 ":" && Ascii.eqb z "Z")%bool
      then
        match digits_val 0 [y1; y2; y3; y4], digits_val 0 [m1; m2],
              digits_val 0 [a1; a2], digits_val 0 [h1; h2],
              digits_val 0 [n1; n2], digits_val 0 [s1; s2] with
        | Some yr, Some mo, Some dy, Some hh, Some mi, Some ss =>
            if ((1 <=? yr) && (1 <=? mo) && (mo <=? 12) && (1 <=? dy)
                && (dy <=? days_in_month yr mo) && (hh <=? 23)
                && (mi <=? 59) && (ss <=? 61))%Z
            then Some (days_from_civil yr mo dy * 86400
                       + hh * 3600 + mi * 60 + ss - utcoffset)%Z
            else None
        | _, _, _, _, _, _ => None
        end
      else None
  | _ => None
  end.

(** ** [int(cursor)] and [str(n)]

    A Python [str] is modelled by a string of the sequence of its code
    points, all of them below 256.  On such a string [int] skips white space
    at both ends (for [int] that is the space, the characters 9 to 13 and,
    outside ASCII, the characters 133 and 160; the separators 28 to 31 are
    white space for [str.strip] but not for [int]), reads an optional sign
    and then decimal digits in which single underscores may separate digits,
    and refuses more than [sys.get_int_max_str_digits()] digits, 4300 by
    default.  Strings with a code point from 256 on, among them the decimal
    digits of other scripts that [int] also reads, are outside the model. *)

Definition is_space (c : ascii) : bool :=
  let n := nat_of_ascii c in
  ((n =? 32) || ((9 <=? n) && (n <=? 13)) || (n =? 133) || (n =? 160))%nat.

Definition MAX_STR_DIGITS : nat := 4300.

Definition is_digit (c : ascii) : bool :=
  let n := nat_of_ascii c in ((48 <=? n) && (n <=? 57))%nat.

Fixpoint lstrip (l : list ascii) : list ascii :=
  match l with
  | c :: l' => if is_space c then lstrip l' else l
  | [] => []
  end.

Definition strip (l : list ascii) : list ascii :=
  rev (lstrip (rev (lstrip l))).

(** Drops the underscores of a digit group; [None] when an underscore is not
    between two digits.  [prev] tells whether the previous character was a
    digit. *)
Fixpoint drop_underscores (prev : bool) (l : list ascii)
  : option (list ascii) :=
  match l with
  | [] => if prev then Some [] else None
  | c :: l' =>
      if Ascii.eqb c "_"
      then if prev then drop_underscores false l' else None
      else if is_digit c
           then option_map (cons c) (drop_underscores true l')
           else None
  end.

Definition int_of_digits (l : list ascii) : option Z :=
  match l with
  | [] => None
  | c :: _ =>
      if is_digit c
      then match drop_underscores false l with
           | Some ds =>
               if (MAX_STR_DIGITS <? length ds)%nat then None
               else
                 option_map Z.of_uint
                   (DecimalString.NilEmpty.uint_of_string
                      (string_of_list_ascii ds))
           | None => None
           end
      else None
  end.

Definition python_int (s : string) : option Z :=
  match strip (list_ascii_of_string s) with
  | [] => None
  | c :: l' =>
      if Ascii.eqb c "-" then option_map Z.opp (int_of_digits l')
      else if Ascii.eqb c "+" then int_of_digits l'
      else int_of_digits (c :: l')
  end.

Definition python_str (z : Z) : string :=
  DecimalString.NilZero.string_of_int (Z.to_int z).

(** ** [sorted(..., key=...)] and [list.sort(key=..., reverse=True)]

    Both are stable; a stable sort has one possible output, here computed by
    insertion from the right.  With [reverse = true] larger keys come first
    and equal keys keep their original order, as in Python. *)

Section Sorting.
Context {A : Type}.
Variable key : A -> Z.
Variable reverse : bool.

Definition goes_before (a b : A) : bool :=
  if reverse then (key b <=? key a)%Z else (key a <=? key b)%Z.

Fixpoint insert_sorted (a : A) (l : list A) : list A :=
  match l with
  | [] => [a]
  | b :: l' => if goes_before a b then a :: l else b :: insert_sorted a l'
  end.

Definition python_sorted (l : list A) : list A :=
  fold_right insert_sorted [] l.
End Sorting.

(** ** The job store, retention and the execution path *)

Definition status_value (s : JobStatusLiteral) : string :=
  match s with
  | pending => "pending" | running => "running" | done => "done"
  | failed => "failed" | canceled => "canceled" | timeout => "timeout"
  end.

(** [s in {...}] *)
Definition status_in (s : JobStatusLiteral) (l : list JobStatusLiteral)
  : bool :=
  existsb (JobStatusLiteral_eqb s) l.

Definition is_terminal (s : JobStatusLiteral) : bool :=
  status_in s [done; failed; canceled; timeout].

Definition set_running (stamp : string) (record : JobRecord) : JobRecord :=
  {| jobId := jobId record; status := running; task := task record;
     createdAt := createdAt record; startedAt := Some stamp;
     finishedAt := finishedAt record; error := error record;
     result := result record; idempotencyKey := idempotencyKey record |}.

Definition set_done (stamp : string) (res : DetectResponse)
  (record : JobRecord) : JobRecord :=
  {| jobId := jobId record; status := done; task := task record;
     createdAt := createdAt record; startedAt := startedAt record;
     finishedAt := Some stamp; error := error record;
     result := Some res; idempotencyKey := idempotencyKey record |}.

Definition _mark_job_finished (stamp : string) (record : JobRecord)
  (st : JobStatusLiteral) (err : option string) : JobRecord :=
  {| jobId := jobId record; status := st; task := task record;
     createdAt := createdAt record; startedAt := startedAt record;
     finishedAt := Some stamp; error := err;
     result := result record; idempotencyKey := idempotencyKey record |}.

(** What one call of the work executor [_run_detect] did: how long it took
    and whether it returned a response or raised ([str(exc)]). *)
Record Execution : Type := {
  duration : Q;
  outcome : DetectResponse + string
}.

Definition replace_jobs (st : Store) (jobs : list (string * JobRecord))
  : Store :=
  {| _jobs := jobs; _jobs_by_idempotency := _jobs_by_idempotency st |}.

Section Model.
(** [time.mktime(time.strptime(value, "%Y-%m-%dT%H:%M:%SZ"))], [None] when
    it raises. *)
Variable mktime_strptime : string -> option Z.

Definition _job_time_to_epoch (value : option string) : Z :=
  match value with
  | None => 0%Z
  | Some v =>
      if String.eqb v "" then 0%Z
      else match mktime_strptime v with
           | Some t => t
           | None => 0%Z
           end
  end.

(** The test of the first loop of [_cleanup_jobs]. *)
Definition ttl_expired (now : Q) (record : JobRecord) : bool :=
  status_in (status record) [done; failed; canceled; timeout]
  && truthy (finishedAt record)
  && (let finished_epoch := _job_time_to_epoch (finishedAt record) in
      negb (finished_epoch =? 0)%Z
      && Qgtb (now - inject_Z finished_epoch) JOBS_TTL_SECONDS).

Definition created_epoch (item : string * JobRecord) : Z :=
  _job_time_to_epoch (Some (createdAt (snd item))).

Definition pop_all (ids : list string) (jobs : list (string * JobRecord))
  : list (string * JobRecord) :=
  fold_left (fun d job_id => dict_pop job_id d) ids jobs.

(** One turn of the loop that refills [_jobs_by_idempotency]. *)
Definition index_item (ix : list (string * string))
  (item : string * JobRecord) : list (string * string) :=
  match idempotencyKey (snd item) with
  | Some k => if truthy (Some k) then dict_set k (fst item) ix else ix
  | None => ix
  end.

Definition rebuild_index (jobs : list (string * JobRecord))
  : list (string * string) :=
  fold_left index_item jobs [].

Definition _cleanup_jobs (now : Q) (st : Store) : Store :=
  let removable :=
    map fst (filter (fun item => ttl_expired now (snd item)) (_jobs st)) in
  let jobs1 := pop_all removable (_jobs st) in
  let jobs2 :=
    if (JOBS_MAX_ITEMS <? length jobs1)%nat then
      let ordered := python_sorted created_epoch false jobs1 in
      let overflow := (length jobs1 - JOBS_MAX_ITEMS)%nat in
      pop_all (map fst (firstn overflow ordered)) jobs1
    else jobs1 in
  {| _jobs := jobs2; _jobs_by_idempotency := rebuild_index jobs2 |}.

(** [_process_job], first critical section.  The boolean tells whether the
    function goes on to call the executor. *)
Definition _process_job_start (now : Q) (stamp : string) (job_id : string)
  (st : Store) : Store * bool :=
  let st1 := _cleanup_jobs now st in
  match dict_get job_id (_jobs st1) with
  | None => (st1, false)
  | Some record =>
      if JobStatusLiteral_eqb (status record) canceled then (st1, false)
      else (replace_jobs st1
              (dict_set job_id (set_running stamp record) (_jobs st1)),
            true)
  end.

(** [_process_job], after the executor: the critical section of the [try]
    body when [_run_detect] returned, the one of the [except] handler when
    it raised.  [elapsed_s] is only computed on the first path. *)
Definition _process_job_finish (stamp : string) (job_id : string)
  (run : Execution) (st : Store) : Store :=
  match outcome run with
  | inl res =>
      let elapsed_s := duration run in
      match dict_get job_id (_jobs st) with
      | None => st
      | Some record =>
          if JobStatusLiteral_eqb (status record) canceled then st
          else if Qgtb elapsed_s JOB_RUN_TIMEOUT_SECONDS then
            replace_jobs st
              (dict_set job_id
                 (_mark_job_finished stamp record timeout
                    (Some "job exceeded processing timeout"))
                 (_jobs st))
          else
            replace_jobs st
              (dict_set job_id (set_done stamp res record) (_jobs st))
      end
  | inr exc =>
      match dict_get job_id (_jobs st) with
      | None => st
      | Some record =>
          if JobStatusLiteral_eqb (status record) canceled then st
          else
            replace_jobs st
              (dict_set job_id
                 (_mark_job_finished stamp record failed (Some exc))
                 (_jobs st))
      end
  end.

Definition _to_job_status_response (rid : string) (record : JobRecord)
  : JobStatusResponse :=
  {| sr_jobId := jobId record; sr_status := status record;
     sr_task := task record; sr_createdAt := createdAt record;
     sr_startedAt := startedAt record; sr_finishedAt := finishedAt record;
     sr_error := error record; sr_requestId := rid |}.

(** ** Handlers *)

Definition health (now : Q) (rid : string) (st : Store)
  : Store * list (string * JValue) :=
  let st1 := _cleanup_jobs now st in
  let total_jobs := length (_jobs st1) in
  let total_keys := length (_jobs_by_idempotency st1) in
  (st1,
   [("status", JStr "ok");
    ("service", JStr "backend-ai-mvp");
    ("version", JStr "0.5.0");
    ("jobsInMemory", JInt (Z.of_nat total_jobs));
    ("idempotencyKeysInMemory", JInt (Z.of_nat total_keys));
    ("jobRunTimeoutSec", JNum JOB_RUN_TIMEOUT_SECONDS);
    ("requestId", JStr rid)]).

Definition job_not_found (rid job_id : string) : ApiError :=
  {| code := "job_not_found"; message := "job not found";
     err_requestId := rid; details := [("jobId", JStr job_id)] |}.

(** [create_job] gives the new store, the response and, when it reaches
    [background_tasks.add_task], the scheduled call of [_process_job]. *)
Definition create_job (now : Q) (stamp : string) (job_id rid : string)
  (payload : JobCreateRequest) (st : Store)
  : Store * Response JobCreateResponse * option (string * DetectRequest) :=
  if negb (String.eqb (req_task payload) "detect-objects") then
    (st,
     HTTPException 400
       {| code := "unsupported_task"; message := "unsupported task";
          err_requestId := rid;
          details := [("task", JStr (req_task payload))] |},
     None)
  else
    let st1 := _cleanup_jobs now st in
    let existing :=
      match req_idempotencyKey payload with
      | Some k =>
          if truthy (Some k) then
            match dict_get k (_jobs_by_idempotency st1) with
            | Some existing_job_id =>
                if truthy (Some existing_job_id)
                then dict_get existing_job_id (_jobs st1)
                else None
            | None => None
            end
          else None
      | None => None
      end in
    match existing with
    | Some found =>
        (st1,
         Ok {| cr_jobId := jobId found; cr_status := status found;
               cr_acceptedAt := createdAt found; cr_requestId := rid |},
         None)
    | None =>
        let record :=
          {| jobId := job_id; status := pending;
             task := req_task payload; createdAt := stamp;
             startedAt := None; finishedAt := None; error := None;
             result := None;
             idempotencyKey := req_idempotencyKey payload |} in
        let jobs' := dict_set job_id record (_jobs st1) in
        let index' :=
          match req_idempotencyKey payload with
          | Some k =>
              if truthy (Some k)
              then dict_set k job_id (_jobs_by_idempotency st1)
              else _jobs_by_idempotency st1
          | None => _jobs_by_idempotency st1
          end in
        ({| _jobs := jobs'; _jobs_by_idempotency := index' |},
         Ok {| cr_jobId := job_id; cr_status := pending;
               cr_acceptedAt := stamp; cr_requestId := rid |},
         Some (job_id,
               {| det_imageBase64 := req_imageBase64 payload;
                  det_minScore := req_minScore payload;
                  det_debugSleepMs := req_debugSleepMs payload |}))
    end.

Definition to_list_item (record : JobRecord) : JobListItem :=
  {| li_jobId := jobId record; li_status := status record;
     li_task := task record; li_createdAt := createdAt record;
     li_startedAt := startedAt record; li_finishedAt := finishedAt record;
     li_error := error record |}.

(** The records a listing pages through: [list(_jobs.values())], sorted by
    creation time, newest first, then filtered by status. *)
Definition listed_records (status_filter : option JobStatusLiteral)
  (jobs : list (string * JobRecord)) : list JobRecord :=
  let records :=
    python_sorted (fun item => _job_time_to_epoch (Some (createdAt item)))
      true (dict_values jobs) in
  match status_filter with
  | Some wanted =>
      filter (fun item => JobStatusLiteral_eqb (status item) wanted) records
  | None => records
  end.

(** The offset that [list_jobs] reads from the cursor; [None] when [int]
    raises or the number is negative. *)
Definition cursor_offset (cursor : option string) : option Z :=
  match cursor with
  | Some c =>
      if truthy (Some c) then
        match python_int c with
        | Some offset => if (offset <? 0)%Z then None else Some offset
        | None => None
        end
      else Some 0%Z
  | None => Some 0%Z
  end.

Definition list_jobs (status_filter : option JobStatusLiteral) (limit : Z)
  (cursor : option string) (now : Q) (rid : string) (st : Store)
  : Store * Response JobListResponse :=
  if ((limit <? 1) || (100 <? limit))%Z then
    (st,
     HTTPException 400
       {| code := "invalid_pagination";
          message := "limit must be between 1 and 100";
          err_requestId := rid; details := [("limit", JInt limit)] |})
  else
    match cursor_offset cursor with
    | None =>
        (st,
         HTTPException 400
           {| code := "invalid_cursor";
              message := "cursor must be a non-negative integer";
              err_requestId := rid;
              details :=
                match cursor with
                | Some c => [("cursor", JStr c)]
                | None => []
                end |})
    | Some offset =>
        let st1 := _cleanup_jobs now st in
        let records := listed_records status_filter (_jobs st1) in
        let page :=
          firstn (Z.to_nat limit) (skipn (Z.to_nat offset) records) in
        let next_cursor :=
          if (offset + limit <? Z.of_nat (length records))%Z
          then Some (python_str (offset + limit))
          else None in
        (st1,
         Ok {| items := map to_list_item page; nextCursor := next_cursor;
               lr_requestId := rid |})
    end.

Definition get_job_status (job_id : string) (now : Q) (rid : string)
  (st : Store) : Store * Response JobStatusResponse :=
  let st1 := _cleanup_jobs now st in
  match dict_get job_id (_jobs st1) with
  | None => (st1, HTTPException 404 (job_not_found rid job_id))
  | Some record => (st1, Ok (_to_job_status_response rid record))
  end.

Definition cancel_job (job_id : string) (now : Q) (stamp : string)
  (rid : string) (st : Store) : Store * Response JobStatusResponse :=
  let st1 := _cleanup_jobs now st in
  match dict_get job_id (_jobs st1) with
  | None => (st1, HTTPException 404 (job_not_found rid job_id))
  | Some record =>
      if status_in (status record) [done; failed; timeout] then
        (st1,
         HTTPException 409
           {| code := "job_not_cancelable";
              message := "job already completed";
              err_requestId := rid;
              details := [("jobId", JStr job_id);
                          ("status", JStr (status_value (status record)))]
           |})
      else if negb (JobStatusLiteral_eqb (status record) canceled) then
        let record' :=
          _mark_job_finished stamp record canceled
            (Some "job canceled by user") in
        (replace_jobs st1 (dict_set job_id record' (_jobs st1)),
         Ok (_to_job_status_response rid record'))
      else (st1, Ok (_to_job_status_response rid record))
  end.

Definition result_conflict (rid job_id code_ msg : string) : ApiError :=
  {| code := code_; message := msg; err_requestId := rid;
     details := [("jobId", JStr job_id)] |}.

Definition get_job_result (job_id : string) (now : Q) (rid : string)
  (st : Store) : Store * Response JobResultResponse :=
  let st1 := _cleanup_jobs now st in
  match dict_get job_id (_jobs st1) with
  | None => (st1, HTTPException 404 (job_not_found rid job_id))
  | Some record =>
      if JobStatusLiteral_eqb (status record) failed then
        (st1,
         HTTPException 409
           (result_conflict rid job_id "job_failed"
              (or_default (error record) "job failed")))
      else if JobStatusLiteral_eqb (status record) timeout then
        (st1,
         HTTPException 409
           (result_conflict rid job_id "job_timeout"
              (or_default (error record) "job timeout")))
      else if JobStatusLiteral_eqb (status record) canceled then
        (st1,
         HTTPException 409
           (result_conflict rid job_id "job_canceled"
              (or_default (error record) "job canceled")))
      else
        match JobStatusLiteral_eqb (status record) done, result record with
        | true, Some res =>
            (st1,
             Ok {| rr_jobId := jobId record; rr_objects := objects res;
                   rr_modelVersion := modelVersion res;
                   rr_latencyMs := latencyMs res;
                   rr_requestId := requestId res |})
        | _, _ =>
            (st1,
             HTTPException 409
               {| code := "job_not_completed";
                  message := "job not completed";
                  err_requestId := rid;
                  details :=
                    [("jobId", JStr job_id);
                     ("status", JStr (status_value (status record)))] |})
        end
  end.
End Model.

(** ** The running service

    Besides the store, the service has the background calls of [_process_job]
    that [create_job] scheduled: [Scheduled] until the call has gone through
    its first critical section, [Executing] while it is in [_run_detect].
    [issued] lists the identifiers [uuid4] has produced for jobs; [uuid4]
    never repeats and never gives the empty string, which [step] checks. *)

Inductive TaskPhase : Type := Scheduled | Executing.

Record System : Type := {
  store : Store;
  background : list (string * TaskPhase);
  issued : list string
}.

Definition initial : System :=
  {| store := empty_store; background := []; issued := [] |}.

Inductive Event : Type :=
| Submit (now : Q) (stamp : string) (job_id rid : string)
    (payload : JobCreateRequest)
| Start (job_id : string) (now : Q) (stamp : string)
| Finish (job_id : string) (stamp : string) (run : Execution)
| Cancel (job_id : string) (now : Q) (stamp : string) (rid : string)
| GetStatus (job_id : string) (now : Q) (rid : string)
| GetResult (job_id : string) (now : Q) (rid : string)
| ListJobs (status_filter : option JobStatusLiteral) (limit : Z)
    (cursor : option string) (now : Q) (rid : string)
| Health (now : Q) (rid : string).

Definition mem_string (s : string) (l : list string) : bool :=
  existsb (String.eqb s) l.

Definition TaskPhase_eqb (a b : TaskPhase) : bool :=
  match a, b with
  | Scheduled, Scheduled | Executing, Executing => true
  | _, _ => false
  end.

Definition with_store (sys : System) (st : Store) : System :=
  {| store := st; background := background sys; issued := issued sys |}.

Section Service.
Variable mktime_strptime : string -> option Z.

(** One atomic step of the service; [None] when the event cannot happen in
    this state. *)
Definition step (sys : System) (ev : Event) : option System :=
  match ev with
  | Submit now stamp job_id rid payload =>
      if mem_string job_id (issued sys) || String.eqb job_id "" then None
      else
        let '(st', _, scheduled) :=
          create_job mktime_strptime now stamp job_id rid payload
            (store sys) in
        Some {| store := st';
                background :=
                  match scheduled with
                  | Some (j, _) => dict_set j Scheduled (background sys)
                  | None => background sys
                  end;
                issued := job_id :: issued sys |}
  | Start job_id now stamp =>
      match dict_get job_id (background sys) with
      | Some Scheduled =>
          let '(st', goes_on) :=
            _process_job_start mktime_strptime now stamp job_id
              (store sys) in
          Some {| store := st';
                  background :=
                    if goes_on
                    then dict_set job_id Executing (background sys)
                    else dict_pop job_id (background sys);
                  issued := issued sys |}
      | _ => None
      end
  | Finish job_id stamp run =>
      match dict_get job_id (background sys) with
      | Some Executing =>
          Some {| store := _process_job_finish stamp job_id run (store sys);
                  background := dict_pop job_id (background sys);
                  issued := issued sys |}
      | _ => None
      end
  | Cancel job_id now stamp rid =>
      Some (with_store sys
              (fst (cancel_job mktime_strptime job_id now stamp rid
                      (store sys))))
  | GetStatus job_id now rid =>
      Some (with_store sys
              (fst (get_job_status mktime_strptime job_id now rid
                      (store sys))))
  | GetResult job_id now rid =>
      Some (with_store sys
              (fst (get_job_result mktime_strptime job_id now rid
                      (store sys))))
  | ListJobs status_filter limit cursor now rid =>
      Some (with_store sys
              (fst (list_jobs mktime_strptime status_filter limit cursor
                      now rid (store sys))))
  | Health now rid =>
      Some (with_store sys (fst (health mktime_strptime now rid (store sys))))
  end.

Fixpoint run (sys : System) (evs : list Event) : option System :=
  match evs with
  | [] => Some sys
  | ev :: evs' =>
      match step sys ev with
      | Some sys' => run sys' evs'
      | None => None
      end
  end.
End Service.

(** ** Request validation in front of [create_job]

    FastAPI builds the [JobCreateRequest] from the JSON body before it calls
    the handler; [task] is [Literal["detect-objects"]], [imageBase64] is
    required, the other fields have defaults.  A body that does not validate
    is answered by [validation_exception_handler]. *)

Record JobCreateBody : Type := {
  body_task : option string;
  body_imageBase64 : option string;
  body_minScore : option Q;
  body_debugSleepMs : option Z;
  body_idempotencyKey : option string
}.

Definition validate_JobCreateRequest (body : JobCreateBody)
  : option JobCreateRequest :=
  match body_task body, body_imageBase64 body with
  | Some t, Some image =>
      if String.eqb t "detect-objects" then
        Some {| req_task := t; req_imageBase64 := image;
                req_minScore :=
                  match body_minScore body with
                  | Some q => q
                  | None => 35 # 100
                  end;
                req_debugSleepMs :=
                  match body_debugSleepMs body with
                  | Some z => z
                  | None => 0%Z
                  end;
                req_idempotencyKey := body_idempotencyKey body |}
      else None
  | _, _ => None
  end.

Definition post_jobs (mktime_strptime : string -> option Z)
  (body : JobCreateBody) (now : Q) (stamp : string) (job_id rid : string)
  (st : Store)
  : Store * Response JobCreateResponse * option (string * DetectRequest) :=
  match validate_JobCreateRequest body with
  | Some payload => create_job mktime_strptime now stamp job_id rid payload st
  | None =>
      (st,
       HTTPException 422
         {| code := "validation_error";
            message := "Request validation failed";
            err_requestId := rid; details := [("path", JStr "/jobs")] |},
       None)
  end.

(** ** A client that pages through [GET /jobs] one item at a time

    It starts without a cursor and passes each [nextCursor] back until a page
    comes without one.  [fuel] bounds the number of requests. *)


(** ** Specification vocabulary *)

(** The edges of the status state machine. *)
Definition edge (a b : JobStatusLiteral) : bool :=
  match a, b with
  | pending, running
  | running, done | running, failed | running, timeout
  | pending, canceled | running, canceled => true
  | _, _ => false
  end.

(** Which optional fields a record has in each status. *)
Definition fields_ok (r : JobRecord) : Prop :=
  match status r with
  | pending =>
      startedAt r = None /\ finishedAt r = None /\ error r = None
      /\ result r = None
  | running =>
      startedAt r <> None /\ finishedAt r = None /\ error r = None
      /\ result r = None
  | done => finishedAt r <> None /\ error r = None /\ result r <> None
  | failed => finishedAt r <> None /\ error r <> None /\ result r = None
  | canceled =>
      finishedAt r <> None /\ error r = Some "job canceled by user"
      /\ result r = None
  | timeout =>
      finishedAt r <> None
      /\ error r = Some "job exceeded processing timeout"
      /\ result r = None
  end.

(** How a record may differ from an earlier version of itself. *)
Definition evolves (r r' : JobRecord) : Prop :=
  jobId r' = jobId r /\ task r' = task r /\ createdAt r' = createdAt r
  /\ idempotencyKey r' = idempotencyKey r
  /\ (status r' = status r \/ edge (status r) (status r') = true)
  /\ (is_terminal (status r) = true -> r' = r).

(** What C7 says about the optional fields of a record. *)
Definition record_invariants (r : JobRecord) : Prop :=
  (status r = pending -> startedAt r = None)
  /\ (status r = pending \/ status r = running -> finishedAt r = None)
  /\ (result r <> None <-> status r = done)
  /\ (error r <> None <->
      status r = failed \/ status r = canceled \/ status r = timeout)
  /\ ~ (error r <> None /\ result r <> None).


(** The identifiers a retention pass removes: first the expired ones, then
    the overflow. *)
Definition evicted (mktime_strptime : string -> option Z) (now : Q)
  (jobs : list (string * JobRecord)) : list string :=
  let removable :=
    map fst
      (filter (fun item => ttl_expired mktime_strptime now (snd item)) jobs) in
  let jobs1 := pop_all removable jobs in
  if (JOBS_MAX_ITEMS <? length jobs1)%nat then
    removable ++
    map fst
      (firstn (length jobs1 - JOBS_MAX_ITEMS)
         (python_sorted (created_epoch mktime_strptime) false jobs1))
  else removable.

(** The last live job that carries the idempotency key [k]. *)
Definition later_with_key (k : string) (found : option string)
  (item : string * JobRecord) : option string :=
  match idempotencyKey (snd item) with
  | Some k' => if String.eqb k' k then Some (fst item) else found
  | None => found
  end.

Definition last_with_key (k : string) (jobs : list (string * JobRecord))
  : option string :=
  fold_left (later_with_key k) jobs None.

(** The statuses a job can have while its background call is in a phase. *)
Definition phase_ok (ph : TaskPhase) (s : JobStatusLiteral) : Prop :=
  match ph with
  | Scheduled => s = pending \/ s = canceled
  | Executing => s = running \/ s = canceled
  end.

(** The invariant of the running service. *)
Record Inv (sys : System) : Prop := {
  inv_keys : NoDup (dict_keys (_jobs (store sys)));
  inv_record :
    forall j r, dict_get j (_jobs (store sys)) = Some r ->
      jobId r = j /\ fields_ok r /\ In j (issued sys) /\ j <> "";
  inv_task :
    forall j ph, dict_get j (background sys) = Some ph -> In j (issued sys);
  inv_phase :
    forall j ph r, dict_get j (background sys) = Some ph ->
      dict_get j (_jobs (store sys)) = Some r -> phase_ok ph (status r);
  inv_idempotency :
    forall j1 j2 r1 r2,
      dict_get j1 (_jobs (store sys)) = Some r1 ->
      dict_get j2 (_jobs (store sys)) = Some r2 ->
      truthy (idempotencyKey r1) = true ->
      idempotencyKey r1 = idempotencyKey r2 -> j1 = j2
}.

(** The record that [create_job] stores for a new job. *)
Definition new_record (stamp job_id : string) (payload : JobCreateRequest)
  : JobRecord :=
  {| jobId := job_id; status := pending; task := req_task payload;
     createdAt := stamp; startedAt := None; finishedAt := None;
     error := None; result := None;
     idempotencyKey := req_idempotencyKey payload |}.

(** The live record that a submission with this payload replays, if any. *)
Definition replayed (payload : JobCreateRequest) (st1 : Store)
  : option JobRecord :=
  match req_idempotencyKey payload with
  | Some k =>
      if String.eqb k "" then None
      else match dict_get k (_jobs_by_idempotency st1) with
           | Some j0 =>
               if String.eqb j0 "" then None else dict_get j0 (_jobs st1)
           | None => None
           end
  | None => None
  end.

(** The service after the retention pass that opens a handler. *)
Definition cleaned (mktime_strptime : string -> option Z) (now : Q)
  (sys : System) : System :=
  with_store sys (_cleanup_jobs mktime_strptime now (store sys)).

(** What one step does to the service once the retention pass, if any, is
    over: nothing, issue an identifier, drop a background call, move one
    live record along an edge, or store a new record. *)
Inductive Change (base : System) : System -> Prop :=
| ChangeNone : Change base base
| ChangeIssue j :
    Change base
      {| store := store base; background := background base;
         issued := j :: issued base |}
| ChangeTask bg' :
    (forall k ph, dict_get k bg' = Some ph ->
                  dict_get k (background base) = Some ph) ->
    Change base
      {| store := store base; background := bg'; issued := issued base |}
| ChangeUpdate j r r' index' bg' :
    dict_get j (_jobs (store base)) = Some r ->
    jobId r' = jobId r -> task r' = task r -> createdAt r' = createdAt r ->
    idempotencyKey r' = idempotencyKey r ->
    edge (status r) (status r') = true -> fields_ok r' ->
    (forall k ph, dict_get k bg' = Some ph ->
       (k = j /\ phase_ok ph (status r'))
       \/ (k <> j /\ dict_get k (background base) = Some ph)) ->
    Change base
      {| store := {| _jobs := dict_set j r' (_jobs (store base));
                     _jobs_by_idempotency := index' |};
         background := bg'; issued := issued base |}
| ChangeInsert j r index' :
    ~ In j (issued base) -> j <> "" ->
    jobId r = j -> status r = pending -> fields_ok r ->
    (truthy (idempotencyKey r) = true ->
     forall j2 r2, dict_get j2 (_jobs (store base)) = Some r2 ->
                   idempotencyKey r2 <> idempotencyKey r) ->
    Change base
      {| store := {| _jobs := dict_set j r (_jobs (store base));
                     _jobs_by_idempotency := index' |};
         background := dict_set j Scheduled (background base);
         issued := j :: issued base |}.

(** [b] is [a] or comes after [a] in the state machine. *)
Definition later_status (a b : JobStatusLiteral) : bool :=
  match a with
  | pending => true
  | running => negb (JobStatusLiteral_eqb b pending)
  | _ => JobStatusLiteral_eqb a b
  end.

Definition descends (r r' : JobRecord) : Prop :=
  jobId r' = jobId r /\ task r' = task r /\ createdAt r' = createdAt r
  /\ idempotencyKey r' = idempotencyKey r
  /\ later_status (status r) (status r') = true
  /\ (is_terminal (status r) = true -> r' = r).

(** The numbers in a JSON object. *)
Definition numbers_of (body : list (string * JValue)) : list Q :=
  flat_map
    (fun field =>
       match snd field with
       | JInt z => [inject_Z z]
       | JNum q => [q]
       | JStr _ => []
       end) body.

(** ** Concrete scenarios

    A service in a UTC process; the stamps are those that [time.strftime]
    gives at Unix times 1700000000, 1700000001, ... *)

Definition utc : string -> option Z := mktime_strptime_local 0.

Definition demo_payload (key : option string) : JobCreateRequest :=
  {| req_task := "detect-objects";
     req_imageBase64 := "data:image/png;base64,iVBORw0KGgo=";
     req_minScore := 35 # 100; req_debugSleepMs := 0%Z;
     req_idempotencyKey := key |}.

Definition demo_body : JobCreateBody :=
  {| body_task := Some "detect-objects";
     body_imageBase64 := Some "data:image/png;base64,iVBORw0KGgo=";
     body_minScore := None; body_debugSleepMs := None;
     body_idempotencyKey := None |}.

Definition demo_response : DetectResponse :=
  {| objects := []; modelVersion := "backend-mvp-edge-heuristic-0.5.0";
     latencyMs := 12; requestId := "req-run" |}.

Definition stamp0 : string := "2023-11-14T22:13:20Z".
Definition stamp1 : string := "2023-11-14T22:13:21Z".
Definition stamp2 : string := "2023-11-14T22:13:22Z".

(** The state after a run from the empty service. *)
Definition after (mktime_strptime : string -> option Z) (evs : list Event)
  : System :=
  match run mktime_strptime initial evs with
  | Some sys => sys
  | None => initial
  end.

(** One job submitted and canceled before its background call started. *)
Definition canceled_run : list Event :=
  [Submit 1700000000 stamp0 "job-1" "req-1" (demo_payload None);
   Cancel "job-1" 1700000001 stamp1 "req-2"].

Definition canceled_record : JobRecord :=
  {| jobId := "job-1"; status := canceled; task := "detect-objects";
     createdAt := stamp0; startedAt := None; finishedAt := Some stamp1;
     error := Some "job canceled by user"; result := None;
     idempotencyKey := None |}.

(** One job submitted and picked up by its background call. *)
Definition running_run : list Event :=
  [Submit 1700000000 stamp0 "job-1" "req-1" (demo_payload None);
   Start "job-1" 1700000000 stamp0].

Definition running_record : JobRecord :=
  {| jobId := "job-1"; status := running; task := "detect-objects";
     createdAt := stamp0; startedAt := Some stamp0; finishedAt := None;
     error := None; result := None; idempotencyKey := None |}.

(** The executor raises after ten seconds. *)
Definition slow_failure : Execution :=
  {| duration := 10; outcome := inr "cannot identify image file" |}.

(** The executor raises an exception whose [str] is empty. *)
Definition silent_failure : Execution :=
  {| duration := 1; outcome := inr "" |}.

Definition quick_success : Execution :=
  {| duration := 1 # 10; outcome := inl demo_response |}.

Definition failed_run : list Event :=
  running_run ++ [Finish "job-1" stamp1 silent_failure].

Definition done_run : list Event :=
  running_run ++ [Finish "job-1" stamp0 quick_success].

(** Three jobs in three consecutive seconds, the second with a key. *)
Definition three_jobs_run : list Event :=
  [Submit 1700000000 stamp0 "job-1" "req-1" (demo_payload None);
   Submit 1700000001 stamp1 "job-2" "req-2" (demo_payload (Some "key-123"));
   Submit 1700000002 stamp2 "job-3" "req-3" (demo_payload None)].

(** The same service in processes whose local time is three hours ahead of
    UTC and five hours behind it. *)
Definition utc_plus_3 : string -> option Z := mktime_strptime_local 10800.
Definition utc_minus_5 : string -> option Z := mktime_strptime_local (-18000).

Definition keyed_record : JobRecord :=
  {| jobId := "job-2"; status := pending; task := "detect-objects";
     createdAt := stamp1; startedAt := None; finishedAt := None;
     error := None; result := None; idempotencyKey := Some "key-123" |}.

(** ** A client that pages through [GET /jobs] with any page size *)

Fixpoint follow_cursors (mktime_strptime : string -> option Z) (fuel : nat)
  (status_filter : option JobStatusLiteral) (limit : Z)
  (cursor : option string) (now : Q) (rid : string) (st : Store)
  : list JobListResponse :=
  match fuel with
  | O => []
  | S fuel' =>
      match list_jobs mktime_strptime status_filter limit cursor now rid st
      with
      | (st', Ok page) =>
          page ::
          match nextCursor page with
          | Some c =>
              follow_cursors mktime_strptime fuel' status_filter limit
                (Some c) now rid st'
          | None => []
          end
      | (_, HTTPException _ _) => []
      end
  end.

(** The index and the background calls fit the records: the index is what a
    rebuild would give, every pending job has a scheduled call and every
    running job a call in the executor. *)
Record Tracked (sys : System) : Prop := {
  tracked_index :
    _jobs_by_idempotency (store sys) = rebuild_index (_jobs (store sys));
  tracked_pending :
    forall j r, dict_get j (_jobs (store sys)) = Some r ->
      status r = pending -> dict_get j (background sys) = Some Scheduled;
  tracked_running :
    forall j r, dict_get j (_jobs (store sys)) = Some r ->
      status r = running -> dict_get j (background sys) = Some Executing
}.

(** ** Object detection: [_decode_data_url], [_heuristic_detect],
    [_run_detect] and [POST /detect/objects] *)

(** [data_url.split(",", 1)]: the text before the first comma and the text
    after it; [None] when ["," not in data_url]. *)
Fixpoint split_comma (data_url : string) : option (string * string) :=
  match data_url with
  | EmptyString => None
  | String c rest =>
      if Ascii.eqb c "," then Some (EmptyString, rest)
      else
        match split_comma rest with
        | Some (before, encoded) => Some (String c before, encoded)
        | None => None
        end
  end.

(** The image [edges] of [_heuristic_detect]: [edges.size] and the pixel
    access object [edges.load()], indexed by column and row. *)
Record EdgeImage : Type := {
  size : nat * nat;
  pixels : nat -> nat -> Z
}.

Definition threshold : Z := 40.

(** The loops over the rows and the columns: the [(x, y)] of the pixels at or
    over the threshold, in the order in which [xs] and [ys] are appended. *)
Definition edge_points (edges : EdgeImage) : list (Z * Z) :=
  flat_map
    (fun row =>
       flat_map
         (fun col =>
            if (threshold <=? pixels edges col row)%Z
            then [(Z.of_nat col, Z.of_nat row)] else [])
         (seq 0 (fst (size edges))))
    (seq 0 (snd (size edges))).

(** [min] and [max] of a non-empty list of ints, and of two floats (the
    first argument is kept unless the second is strictly beyond it). *)
Definition python_min (a : Z) (l : list Z) : Z := fold_left Z.min l a.
Definition python_max (a : Z) (l : list Z) : Z := fold_left Z.max l a.

(** [a < b] on floats. *)
Definition Qltb (a b : Q) : bool := negb (Qle_bool b a).

Definition max_float (a b : Q) : Q := if Qgtb b a then b else a.
Definition min_float (a b : Q) : Q := if Qltb b a then b else a.

(** [round(v)] to the nearest integer, a tie going to the even one. *)
Definition round_half_even (v : Q) : Z :=
  let n := Qnum v in
  let d := Z.pos (Qden v) in
  let f := (n / d)%Z in
  match (2 * (n mod d) ?= d)%Z with
  | Lt => f
  | Gt => (f + 1)%Z
  | Eq => if Z.even f then f else (f + 1)%Z
  end.

(** Binary floating point.  A Python float is an IEEE 754 binary64 number,
    here the rational it stands for.  [floor_log2 v] is the exponent [k]
    with [2^k <= v < 2^(k+1)], for [v > 0]; [to_float v] is the float nearest
    to [v], a tie going to the even significand (53 bits, or fewer below
    [2^-1022]): what a correctly rounded operation returns when its exact
    result is [v].  Overflow is not modelled; the results below stay under
    [2^1024]. *)
Definition floor_log2 (v : Q) : Z :=
  let k := (Z.log2 (Qnum v) - Z.log2 (Z.pos (Qden v)))%Z in
  if Qle_bool (2 ^ k) v then k else (k - 1)%Z.

Definition to_float (v : Q) : Q :=
  if Qeq_bool v 0 then 0
  else
    let a := Qabs v in
    let e := Z.max (floor_log2 a - 52) (-1074) in
    let m := round_half_even (a / 2 ^ e) in
    let r := inject_Z m * 2 ^ e in
    if Qle_bool 0 v then Qred r else Qred (- r).

(** [round(v, ndigits)] of a float [v], for [ndigits >= 0]: the float
    nearest to the decimal rounding of [v]. *)
Definition python_round (v : Q) (ndigits : nat) : Q :=
  let scale := (10 ^ Z.of_nat ndigits)%Z in
  to_float (Qmake (round_half_even (v * inject_Z scale)) (Z.to_pos scale)).

Section Detection.
(** Pillow images; [find_edges image] is
    [image.convert("L").filter(ImageFilter.FIND_EDGES)]. *)
Variable Image : Type.
Variable find_edges : Image -> EdgeImage.
(** [base64.b64decode(encoded)]: the bytes, or [str] of the exception. *)
Variable b64decode : string -> string + string.
(** [Image.open(io.BytesIO(raw)).convert("RGB")]: the image, or [str] of the
    exception. *)
Variable Image_open : string -> Image + string.
(** [time.sleep(seconds)]: [None] when it returns, [str] of the exception
    when it raises (a delay too large for the clock). *)
Variable sleep : Q -> option string.

Definition _decode_data_url (data_url : string) : string + string :=
  match split_comma data_url with
  | None => inr "invalid data URL"
  | Some (_, encoded) => b64decode encoded
  end.

Definition _heuristic_detect (image : Image) (min_score : Q)
  : list DetectedObject :=
  let edges := find_edges image in
  let image_width := Z.of_nat (fst (size edges)) in
  let image_height := Z.of_nat (snd (size edges)) in
  let xs := map fst (edge_points edges) in
  let ys := map snd (edge_points edges) in
  match xs, ys with
  | x0 :: xs', y0 :: ys' =>
      let xmin := python_min x0 xs' in
      let xmax := python_max x0 xs' in
      let ymin := python_min y0 ys' in
      let ymax := python_max y0 ys' in
      let box_w := Z.max 1 (xmax - xmin) in
      let box_h := Z.max 1 (ymax - ymin) in
      let area_ratio :=
        to_float
          (inject_Z (box_w * box_h)
           / inject_Z (Z.max 1 (image_width * image_height))) in
      let score0 :=
        max_float (to_float (35 # 100))
          (min_float (to_float (95 # 100))
             (to_float (area_ratio + to_float (25 # 100))))
      in
      if Qltb score0 min_score then []
      else
        [ {| x := inject_Z xmin; y := inject_Z ymin;
             width := inject_Z box_w; height := inject_Z box_h;
             label := "foreground"; score := python_round score0 3 |} ]
  | _, _ => []
  end.

(** [elapsed] is the difference of the two [time.perf_counter()] readings and
    [rid] the identifier drawn for the response. *)
Definition _run_detect (payload : DetectRequest) (elapsed : Q) (rid : string)
  : DetectResponse + string :=
  match
    (if (0 <? det_debugSleepMs payload)%Z
     then sleep (inject_Z (det_debugSleepMs payload) / 1000) else None)
  with
  | Some exc => inr exc
  | None =>
      match _decode_data_url (det_imageBase64 payload) with
      | inr exc => inr exc
      | inl raw =>
          match Image_open raw with
          | inr exc => inr exc
          | inl image =>
              inl {| objects := _heuristic_detect image (det_minScore payload);
                     modelVersion := "backend-mvp-edge-heuristic-0.5.0";
                     latencyMs := python_round (to_float (elapsed * 1000)) 2;
                     requestId := rid |}
          end
      end
  end.

(** [POST /detect/objects]; exactly one identifier is drawn on either path. *)
Definition detect_objects (payload : DetectRequest) (elapsed : Q)
  (rid : string) : Response DetectResponse :=
  match _run_detect payload elapsed rid with
  | inl response => Ok response
  | inr exc =>
      HTTPException 400
        {| code := "invalid_image_payload";
           message := "invalid image payload: " ++ exc;
           err_requestId := rid;
           details := [("stage", JStr "decode_or_open")] |}
  end.

(** The executor call of [_process_job] between its two critical sections:
    [elapsed_s] is measured around the call of [_run_detect]. *)
Definition executed (payload : DetectRequest) (elapsed_s elapsed : Q)
  (rid : string) : Execution :=
  {| duration := elapsed_s; outcome := _run_detect payload elapsed rid |}.
End Detection.

(** ** The rate limiter of [backend/app/api/routes.py] *)

Definition RATE_LIMIT : Q := 1.

(** [request.client.host if request.client else "anonymous"] *)
Definition client_ip (client : option string) : string :=
  match client with
  | Some host => host
  | None => "anonymous"
  end.

(** [rate_limit]: the new [_request_times], and [inl tt] when the dependency
    returns or the [HTTPException(status_code, detail)] it raises. *)
Definition rate_limit (client : option string) (now : Q)
  (_request_times : list (string * Q))
  : list (string * Q) * (unit + Z * string) :=
  let ip := client_ip client in
  match dict_get ip _request_times with
  | Some last_time =>
      if Qltb (now - last_time) RATE_LIMIT
      then (_request_times, inr (429%Z, "Too Many Requests"))
      else (dict_set ip now _request_times, inl tt)
  | None => (dict_set ip now _request_times, inl tt)
  end.

(** The requests of a sequence that pass the limiter, each with the address
    it is counted under and its clock reading. *)
Fixpoint admitted (requests : list (option string * Q))
  (_request_times : list (string * Q)) : list (string * Q) :=
  match requests with
  | [] => []
  | (client, now) :: rest =>
      match rate_limit client now _request_times with
      | (times, inl _) => (client_ip client, now) :: admitted rest times
      | (times, inr _) => admitted rest times
      end
  end.

(** The clock readings of a sequence of requests as they are stored. *)
Definition served (requests : list (option string * Q))
  (_request_times : list (string * Q)) : list (string * Q) :=
  fold_left (fun times request =>
               fst (rate_limit (fst request) (snd request) times))
    requests _request_times.

(** ** Detection scenarios *)

(** A 4 x 3 edge image with two bright pixels in its middle row. *)
Definition demo_edges : EdgeImage :=
  {| size := (4%nat, 3%nat);
     pixels := fun col row =>
       if (Nat.eqb row 1 && (Nat.eqb col 1 || Nat.eqb col 2))%bool
       then 255%Z else 0%Z |}.

(** Decoders that accept every payload and give [demo_edges]. *)
Definition demo_b64decode (encoded : string) : string + string := inl encoded.
Definition demo_open (raw : string) : EdgeImage + string := inl demo_edges.
Definition demo_sleep (seconds : Q) : option string := None.

Definition plain_text_request : DetectRequest :=
  {| det_imageBase64 := "not a data url";
     det_minScore := to_float (35 # 100); det_debugSleepMs := 0 |}.






(** What [_heuristic_detect] reports on [demo_edges]. *)
Definition demo_object : DetectedObject :=
  {| x := 1; y := 1; width := 1; height := 1; label := "foreground";
     score := to_float (350 # 1000) |}.

(** The record of [done_run] once its executor call has returned. *)
Definition done_record : JobRecord :=
  {| jobId := "job-1"; status := done; task := "detect-objects";
     createdAt := stamp0; startedAt := Some stamp0; finishedAt := Some stamp0;
     error := None; result := Some demo_response; idempotencyKey := None |}.

(** A health check long after the retention time of the job of [done_run]. *)
Definition late_health : list Event := [Health 1700005000 "req-5"].

(** * Properties *)

(** ** Dicts *)

Section DictFacts.
Context {V : Type}.
Implicit Types (d : list (string * V)) (k j : string) (v : V).

Lemma dict_get_set k j v d :
  dict_get k (dict_set j v d) =
  if String.eqb j k then Some v else dict_get k d.
Proof.
  induction d as [|[k' v'] d IH]; simpl.
  - destruct (String.eqb_spec j k); reflexivity.
  - destruct (String.eqb_spec k' j) as [->|Hne]; simpl.
    + destruct (String.eqb_spec j k); reflexivity.
    + rewrite IH. destruct (String.eqb_spec j k) as [->|Hjk].
      * destruct (String.eqb_spec k' k); [contradiction|reflexivity].
      * reflexivity.
Qed.

Lemma dict_get_filter_key (f : string -> bool) k d :
  dict_get k (filter (fun e => f (fst e)) d) =
  if f k then dict_get k d else None.
Proof.
  induction d as [|[k' v'] d IH]; simpl.
  - destruct (f k); reflexivity.
  - destruct (f k') eqn:Hf; simpl.
    + destruct (String.eqb_spec k' k) as [->|Hne].
      * rewrite Hf. reflexivity.
      * exact IH.
    + destruct (String.eqb_spec k' k) as [->|Hne].
      * rewrite IH, Hf. reflexivity.
      * exact IH.
Qed.

Lemma dict_get_pop k j d :
  dict_get k (dict_pop j d) =
  if String.eqb j k then None else dict_get k d.
Proof.
  unfold dict_pop.
  rewrite (dict_get_filter_key (fun x => negb (String.eqb x j))).
  rewrite (String.eqb_sym k j). destruct (String.eqb j k); reflexivity.
Qed.

Lemma dict_get_In k v d : dict_get k d = Some v -> In (k, v) d.
Proof.
  induction d as [|[k' v'] d IH]; simpl; [discriminate|].
  destruct (String.eqb_spec k' k) as [->|Hne].
  - intros [= ->]. now left.
  - intros H. right. auto.
Qed.

Lemma dict_get_None k d : dict_get k d = None <-> ~ In k (dict_keys d).
Proof.
  induction d as [|[k' v'] d IH]; simpl.
  - split; auto.
  - destruct (String.eqb_spec k' k) as [->|Hne].
    + split; [discriminate|]. intros H. exfalso. apply H. now left.
    + rewrite IH. split; intros H; [intros [E|E]; auto|auto].
Qed.

Lemma In_dict_get k v d :
  NoDup (dict_keys d) -> In (k, v) d -> dict_get k d = Some v.
Proof.
  induction d as [|[k' v'] d IH]; simpl; [contradiction|].
  intros Hnd [E|Hin]; inversion Hnd as [|? ? Hnotin Hnd']; subst.
  - injection E as -> ->. now rewrite String.eqb_refl.
  - destruct (String.eqb_spec k' k) as [->|Hne].
    + exfalso. apply Hnotin. change (In (fst (k, v)) (map fst d)).
      now apply in_map.
    + auto.
Qed.

Lemma dict_keys_set j v d :
  dict_keys (dict_set j v d) =
  if mem_string j (dict_keys d) then dict_keys d else dict_keys d ++ [j].
Proof.
  induction d as [|[k' v'] d IH]; simpl; [reflexivity|].
  rewrite (String.eqb_sym j k').
  destruct (String.eqb_spec k' j) as [->|Hne]; simpl; [reflexivity|].
  unfold dict_keys in *. rewrite IH.
  unfold mem_string. destruct (existsb _ _); reflexivity.
Qed.

Lemma mem_string_In (s : string) (l : list string) :
  mem_string s l = true <-> In s l.
Proof.
  unfold mem_string. rewrite existsb_exists. split.
  - intros [y [Hy E]]. apply String.eqb_eq in E. now subst.
  - intros H. exists s. split; [assumption|apply String.eqb_refl].
Qed.

Lemma NoDup_dict_set j v d :
  NoDup (dict_keys d) -> NoDup (dict_keys (dict_set j v d)).
Proof.
  intros Hnd. rewrite dict_keys_set.
  destruct (mem_string j (dict_keys d)) eqn:Hm; [assumption|].
  apply NoDup_app; [assumption|repeat constructor; simpl; tauto|].
  intros a Ha [<-|[]].
  apply mem_string_In in Ha. congruence.
Qed.

Lemma NoDup_keys_filter (p : string * V -> bool) d :
  NoDup (dict_keys d) -> NoDup (dict_keys (filter p d)).
Proof.
  induction d as [|e d IH]; simpl; [auto|].
  intros Hnd. inversion Hnd as [|? ? Hnotin Hnd']; subst.
  destruct (p e); simpl; [|auto].
  constructor; [|auto].
  intros Hin. apply Hnotin. unfold dict_keys in *.
  apply in_map_iff in Hin. destruct Hin as [e' [E Hin]].
  apply filter_In in Hin. apply in_map_iff. exists e'. tauto.
Qed.
End DictFacts.

(** ** Sorting *)

Section SortingFacts.
Context {A : Type}.
Variable key : A -> Z.
Variable reverse : bool.

Let before (a b : A) : Prop := goes_before key reverse a b = true.

Lemma goes_before_total a b : before a b \/ before b a.
Proof.
  unfold before, goes_before. destruct reverse.
  - destruct (Z.leb_spec (key b) (key a)); [now left|right].
    apply Z.leb_le. lia.
  - destruct (Z.leb_spec (key a) (key b)); [now left|right].
    apply Z.leb_le. lia.
Qed.

Lemma goes_before_trans a b c : before a b -> before b c -> before a c.
Proof.
  unfold before, goes_before. destruct reverse;
    rewrite !Z.leb_le; lia.
Qed.

Lemma insert_sorted_perm a l :
  Permutation (insert_sorted key reverse a l) (a :: l).
Proof.
  induction l as [|b l IH]; simpl; [reflexivity|].
  destruct (goes_before key reverse a b); [reflexivity|].
  rewrite IH. apply perm_swap.
Qed.

Lemma python_sorted_perm l : Permutation (python_sorted key reverse l) l.
Proof.
  induction l as [|a l IH]; simpl; [reflexivity|].
  rewrite insert_sorted_perm. now constructor.
Qed.

Lemma insert_sorted_sorted a l :
  StronglySorted before l ->
  StronglySorted before (insert_sorted key reverse a l).
Proof.
  induction 1 as [|b l Hs IH Hall]; simpl.
  - repeat constructor.
  - destruct (goes_before key reverse a b) eqn:Hab.
    + constructor; [now constructor|].
      constructor; [exact Hab|].
      eapply Forall_impl; [|exact Hall].
      intros c Hbc. eapply goes_before_trans; eauto.
    + constructor; [exact IH|].
      assert (Hba : before b a).
      { destruct (goes_before_total a b) as [H|H]; [|exact H].
        unfold before in H. congruence. }
      eapply Permutation_Forall.
      * symmetry. apply insert_sorted_perm.
      * now constructor.
Qed.

Lemma python_sorted_sorted l :
  StronglySorted before (python_sorted key reverse l).
Proof.
  induction l as [|a l IH]; simpl; [constructor|].
  now apply insert_sorted_sorted.
Qed.

Lemma python_sorted_length l : length (python_sorted key reverse l) = length l.
Proof. apply Permutation_length, python_sorted_perm. Qed.

(** In a sorted list everything in a prefix goes before everything after
    it. *)
Lemma sorted_prefix_before n l a b :
  StronglySorted before l ->
  In a (firstn n l) -> In b (skipn n l) -> before a b.
Proof.
  intros Hs. revert n. induction Hs as [|c l Hs IH Hall]; intros n Ha Hb.
  - destruct n; contradiction.
  - destruct n as [|n]; simpl in *; [contradiction|].
    destruct Ha as [<-|Ha].
    + rewrite Forall_forall in Hall. apply Hall.
      rewrite <- (firstn_skipn n l). apply in_or_app. now right.
    + eauto.
Qed.
End SortingFacts.

(** ** Retention *)

Lemma filter_filter_and {A : Type} (p q : A -> bool) (l : list A) :
  filter p (filter q l) = filter (fun a => q a && p a) l.
Proof.
  induction l as [|a l IH]; simpl; [reflexivity|].
  destruct (q a); simpl; [destruct (p a); simpl; now rewrite IH|exact IH].
Qed.

Section RetentionFacts.
Variable mktime_strptime : string -> option Z.

Lemma pop_all_filter ids (jobs : list (string * JobRecord)) :
  pop_all ids jobs =
  filter (fun e => negb (mem_string (fst e) ids)) jobs.
Proof.
  unfold pop_all. revert jobs.
  induction ids as [|i ids IH]; intros jobs; simpl.
  - symmetry. apply forallb_filter_id. now apply forallb_forall.
  - rewrite IH. unfold dict_pop. rewrite filter_filter_and.
    apply filter_ext. intros [k r]; simpl.
    rewrite (String.eqb_sym k i).
    destruct (String.eqb i k); simpl; [reflexivity|].
    reflexivity.
Qed.

Lemma pop_all_app ids1 ids2 (jobs : list (string * JobRecord)) :
  pop_all (ids1 ++ ids2) jobs = pop_all ids2 (pop_all ids1 jobs).
Proof. unfold pop_all. apply fold_left_app. Qed.

Lemma cleanup_jobs_evicted now st :
  _jobs (_cleanup_jobs mktime_strptime now st) =
  pop_all (evicted mktime_strptime now (_jobs st)) (_jobs st).
Proof.
  unfold _cleanup_jobs, evicted; simpl.
  destruct (JOBS_MAX_ITEMS <? _)%nat; [|reflexivity].
  now rewrite pop_all_app.
Qed.

Lemma cleanup_index now st :
  _jobs_by_idempotency (_cleanup_jobs mktime_strptime now st) =
  rebuild_index (_jobs (_cleanup_jobs mktime_strptime now st)).
Proof. reflexivity. Qed.

Lemma cleanup_get now st j :
  dict_get j (_jobs (_cleanup_jobs mktime_strptime now st)) =
  if mem_string j (evicted mktime_strptime now (_jobs st)) then None
  else dict_get j (_jobs st).
Proof.
  rewrite cleanup_jobs_evicted, pop_all_filter.
  rewrite (dict_get_filter_key
             (fun k => negb (mem_string k (evicted mktime_strptime now (_jobs st))))).
  destruct (mem_string j _); reflexivity.
Qed.

Lemma cleanup_get_Some now st j r :
  dict_get j (_jobs (_cleanup_jobs mktime_strptime now st)) = Some r ->
  dict_get j (_jobs st) = Some r.
Proof.
  rewrite cleanup_get. destruct (mem_string j _); [discriminate|auto].
Qed.

Lemma cleanup_get_None now st j :
  dict_get j (_jobs st) = None ->
  dict_get j (_jobs (_cleanup_jobs mktime_strptime now st)) = None.
Proof.
  rewrite cleanup_get. destruct (mem_string j _); auto.
Qed.

Lemma cleanup_NoDup now st :
  NoDup (dict_keys (_jobs st)) ->
  NoDup (dict_keys (_jobs (_cleanup_jobs mktime_strptime now st))).
Proof.
  intros H. rewrite cleanup_jobs_evicted, pop_all_filter.
  now apply NoDup_keys_filter.
Qed.

(** *** The rebuilt idempotency index *)

Lemma rebuild_index_fold k jobs ix found :
  k <> "" -> dict_get k ix = found ->
  dict_get k
    (fold_left index_item jobs ix) =
  fold_left (later_with_key k) jobs found.
Proof.
  intros Hk. revert ix found.
  induction jobs as [|[j r] jobs IH]; intros ix found Hix; simpl; [exact Hix|].
  apply IH. unfold index_item, later_with_key; simpl.
  destruct (idempotencyKey r) as [k'|]; [|exact Hix].
  destruct (String.eqb_spec k' "") as [->|Hne]; simpl.
  - destruct k; [congruence|exact Hix].
  - rewrite dict_get_set. destruct (String.eqb k' k); [reflexivity|exact Hix].
Qed.

Lemma rebuild_index_empty_key jobs : dict_get "" (rebuild_index jobs) = None.
Proof.
  unfold rebuild_index.
  assert (H : forall ix : list (string * string), dict_get "" ix = None ->
            dict_get ""
              (fold_left index_item jobs ix) = None).
  { induction jobs as [|[j r] jobs IH]; intros ix Hix; simpl; [exact Hix|].
    apply IH. unfold index_item; simpl.
    destruct (idempotencyKey r) as [k'|]; [|exact Hix].
    destruct (String.eqb_spec k' "") as [->|Hne]; simpl; [exact Hix|].
    rewrite dict_get_set.
    destruct (String.eqb_spec k' ""); [contradiction|exact Hix]. }
  now apply H.
Qed.

Lemma rebuild_index_get k jobs :
  dict_get k (rebuild_index jobs) =
  if String.eqb k "" then None else last_with_key k jobs.
Proof.
  destruct (String.eqb_spec k "") as [->|Hne].
  - apply rebuild_index_empty_key.
  - unfold rebuild_index, last_with_key. now apply rebuild_index_fold.
Qed.

Lemma last_with_key_fold_Some k jobs found j :
  fold_left (later_with_key k) jobs found = Some j ->
  found = Some j \/
  exists r, In (j, r) jobs /\ idempotencyKey r = Some k.
Proof.
  revert found. induction jobs as [|[j' r'] jobs IH]; intros found; simpl.
  - auto.
  - intros H. apply IH in H. destruct H as [H|[r [Hin Hr]]].
    + unfold later_with_key in H; simpl in H.
      destruct (idempotencyKey r') as [k'|] eqn:Hk'; [|now left].
      destruct (String.eqb_spec k' k) as [->|Hne]; [|now left].
      injection H as ->. right. exists r'. auto.
    + right. exists r. auto.
Qed.

Lemma last_with_key_Some k jobs j :
  last_with_key k jobs = Some j ->
  exists r, In (j, r) jobs /\ idempotencyKey r = Some k.
Proof.
  intros H. apply last_with_key_fold_Some in H.
  destruct H as [H|H]; [discriminate|exact H].
Qed.

Lemma last_with_key_fold_found k jobs found j r :
  In (j, r) jobs -> idempotencyKey r = Some k ->
  exists j',
    fold_left (later_with_key k) jobs found = Some j'.
Proof.
  assert (Hkeep : forall jobs' j0,
    exists j',
      fold_left (later_with_key k) jobs' (Some j0) = Some j').
  { induction jobs' as [|[j1 r1] jobs' IH]; intros j0; simpl; [eauto|].
    unfold later_with_key at 2; simpl.
    destruct (idempotencyKey r1) as [k'|]; [|apply IH].
    destruct (String.eqb k' k); apply IH. }
  revert found. induction jobs as [|[j1 r1] jobs IH]; intros found Hin Hr;
    simpl in *; [contradiction|].
  destruct Hin as [E|Hin].
  - injection E as -> ->. unfold later_with_key at 2; simpl.
    rewrite Hr, String.eqb_refl. apply Hkeep.
  - now apply IH.
Qed.

Lemma last_with_key_None k jobs j r :
  last_with_key k jobs = None -> In (j, r) jobs -> idempotencyKey r <> Some k.
Proof.
  intros Hnone Hin Hr.
  destruct (last_with_key_fold_found k jobs None j r Hin Hr) as [j' Hj'].
  unfold last_with_key in Hnone. congruence.
Qed.
End RetentionFacts.

(** ** The invariant *)

Section InvariantFacts.
Variable mktime_strptime : string -> option Z.

Lemma Inv_initial : Inv initial.
Proof.
  constructor; simpl; try discriminate; try constructor.
Qed.

Lemma Inv_cleanup sys now :
  Inv sys ->
  Inv (with_store sys (_cleanup_jobs mktime_strptime now (store sys))).
Proof.
  intros [Hk Hr Ht Hp Hi]. constructor; simpl.
  - now apply cleanup_NoDup.
  - intros j r H. apply cleanup_get_Some in H. auto.
  - exact Ht.
  - intros j ph r Hb H. apply cleanup_get_Some in H. eauto.
  - intros j1 j2 r1 r2 H1 H2. apply cleanup_get_Some in H1, H2. eauto.
Qed.

Lemma Inv_issue sys j :
  Inv sys ->
  Inv {| store := store sys; background := background sys;
         issued := j :: issued sys |}.
Proof.
  intros [Hk Hr Ht Hp Hi]. constructor; simpl; auto.
  - intros k r H. destruct (Hr k r H) as (? & ? & ? & ?). auto.
  - intros k ph H. right. eauto.
Qed.

(** A live record is replaced by a later version of itself. *)
Lemma Inv_update sys j r r' index' bg' :
  Inv sys ->
  dict_get j (_jobs (store sys)) = Some r ->
  jobId r' = jobId r -> idempotencyKey r' = idempotencyKey r ->
  fields_ok r' ->
  (forall k ph, dict_get k bg' = Some ph ->
     (k = j /\ phase_ok ph (status r'))
     \/ (k <> j /\ dict_get k (background sys) = Some ph)) ->
  Inv {| store := {| _jobs := dict_set j r' (_jobs (store sys));
                     _jobs_by_idempotency := index' |};
         background := bg'; issued := issued sys |}.
Proof.
  intros [Hk Hr Ht Hp Hi] Hj Hid Hkey Hf Hbg.
  destruct (Hr j r Hj) as (Hjid & _ & Hjiss & Hjne).
  assert (Hold : forall k rk,
            dict_get k (dict_set j r' (_jobs (store sys))) = Some rk ->
            exists ro, dict_get k (_jobs (store sys)) = Some ro
                       /\ idempotencyKey rk = idempotencyKey ro
                       /\ (k <> j -> rk = ro) /\ (k = j -> rk = r')).
  { intros k rk. rewrite dict_get_set.
    destruct (String.eqb_spec j k) as [<-|Hne].
    - intros [= <-]. exists r. repeat split; auto. congruence.
    - intros H. exists rk. repeat split; auto; congruence. }
  constructor; simpl.
  - now apply NoDup_dict_set.
  - intros k rk H. destruct (Hold k rk H) as (ro & Hro & _ & Hne & He).
    destruct (String.eqb_spec k j) as [->|Hkj].
    + rewrite (He eq_refl). repeat split; auto. congruence.
    + rewrite (Hne Hkj). auto.
  - intros k ph H. destruct (Hbg k ph H) as [[-> _]|[_ H']]; eauto.
  - intros k ph rk Hb H. destruct (Hold k rk H) as (ro & Hro & _ & Hne & He).
    destruct (Hbg k ph Hb) as [[-> Hph]|[Hkj H']].
    + now rewrite (He eq_refl).
    + rewrite (Hne Hkj). eauto.
  - intros j1 j2 r1 r2 H1 H2 Htr Heq.
    destruct (Hold j1 r1 H1) as (o1 & Ho1 & Hk1 & _).
    destruct (Hold j2 r2 H2) as (o2 & Ho2 & Hk2 & _).
    apply (Hi j1 j2 o1 o2); congruence.
Qed.

(** A record is stored under an identifier that was never issued. *)
Lemma Inv_insert sys j r index' :
  Inv sys ->
  ~ In j (issued sys) -> j <> "" ->
  jobId r = j -> status r = pending -> fields_ok r ->
  (truthy (idempotencyKey r) = true ->
   forall j2 r2, dict_get j2 (_jobs (store sys)) = Some r2 ->
                 idempotencyKey r2 <> idempotencyKey r) ->
  Inv {| store := {| _jobs := dict_set j r (_jobs (store sys));
                     _jobs_by_idempotency := index' |};
         background := dict_set j Scheduled (background sys);
         issued := j :: issued sys |}.
Proof.
  intros [Hk Hr Ht Hp Hi] Hnew Hne Hid Hst Hf Hfresh.
  constructor; simpl.
  - now apply NoDup_dict_set.
  - intros k rk. rewrite dict_get_set.
    destruct (String.eqb_spec j k) as [<-|Hjk].
    + intros [= <-]. auto.
    + intros H. destruct (Hr k rk H) as (? & ? & ? & ?). auto.
  - intros k ph. rewrite dict_get_set.
    destruct (String.eqb_spec j k) as [<-|Hjk]; [auto|].
    intros H. right. eauto.
  - intros k ph rk. rewrite !dict_get_set.
    destruct (String.eqb_spec j k) as [<-|Hjk].
    + intros [= <-] [= <-]. simpl. auto.
    + eauto.
  - intros j1 j2 r1 r2. rewrite !dict_get_set.
    destruct (String.eqb_spec j j1) as [<-|H1];
      destruct (String.eqb_spec j j2) as [<-|H2]; auto.
    + intros [= <-] H Htr Heq. exfalso.
      apply (Hfresh Htr j2 r2 H). congruence.
    + intros H [= <-] Htr Heq. exfalso.
      apply (Hfresh (eq_ind _ (fun o => truthy o = true) Htr _ Heq) j1 r1 H).
      congruence.
    + eauto.
Qed.
End InvariantFacts.

(** ** What one step can change *)

Lemma fields_ok_set_running stamp r :
  status r = pending -> fields_ok r -> fields_ok (set_running stamp r).
Proof.
  unfold fields_ok. intros ->. simpl. intuition discriminate.
Qed.

Lemma fields_ok_set_done stamp res r :
  status r = running -> fields_ok r -> fields_ok (set_done stamp res r).
Proof.
  unfold fields_ok. intros ->. simpl. intuition discriminate.
Qed.

Lemma fields_ok_mark stamp r s msg :
  (status r = pending \/ status r = running) -> fields_ok r ->
  (s = failed \/ (s = canceled /\ msg = "job canceled by user")
   \/ (s = timeout /\ msg = "job exceeded processing timeout")) ->
  fields_ok (_mark_job_finished stamp r s (Some msg)).
Proof.
  unfold fields_ok. intros Hst Hf Hs.
  destruct Hs as [->|[[-> ->]|[-> ->]]]; simpl;
    destruct Hst as [Hst|Hst]; rewrite Hst in Hf;
    intuition discriminate.
Qed.

Lemma fields_ok_invariants r : fields_ok r -> record_invariants r.
Proof.
  unfold fields_ok, record_invariants.
  destruct (status r); intros H; decompose [and] H; clear H;
    repeat split; intros;
    repeat match goal with
           | H : _ \/ _ |- _ => destruct H
           | H : _ /\ _ |- _ => destruct H
           end;
    try congruence; try tauto.
Qed.

Lemma Change_Inv base sys' : Inv base -> Change base sys' -> Inv sys'.
Proof.
  intros HI Hc. destruct Hc.
  - exact HI.
  - now apply Inv_issue.
  - destruct HI as [Hk Hr Ht Hp Hi]. constructor; simpl; eauto.
  - eapply Inv_update; eauto.
  - now apply Inv_insert.
Qed.

Lemma edge_not_terminal a b : edge a b = true -> is_terminal a = false.
Proof. destruct a, b; cbv; congruence. Qed.

Lemma evolves_refl r : evolves r r.
Proof. unfold evolves. intuition. Qed.

Lemma Change_evolves base sys' j r' :
  Inv base -> Change base sys' ->
  dict_get j (_jobs (store sys')) = Some r' ->
  (exists r, dict_get j (_jobs (store base)) = Some r /\ evolves r r')
  \/ (~ In j (issued base) /\ status r' = pending).
Proof.
  intros HI Hc.
  destruct Hc as [ | j0 | bg' Hbg
                 | j0 r r0 index' bg' Hget Hid Htask Hcr Hkey Hedge Hf Hbg
                 | j0 r index' Hnew Hne Hid Hst Hf Hfresh ]; simpl.
  - intros H. left. exists r'. split; [exact H|apply evolves_refl].
  - intros H. left. exists r'. split; [exact H|apply evolves_refl].
  - intros H. left. exists r'. split; [exact H|apply evolves_refl].
  - rewrite dict_get_set. destruct (String.eqb_spec j0 j) as [->|Hjk].
    + intros [= <-]. left. exists r. split; [assumption|].
      unfold evolves. repeat split; auto.
      intros Ht. apply edge_not_terminal in Hedge. congruence.
    + intros H. left. exists r'. split; [exact H|apply evolves_refl].
  - rewrite dict_get_set. destruct (String.eqb_spec j0 j) as [->|Hjk].
    + intros [= <-]. right. auto.
    + intros H. left. exists r'. split; [exact H|apply evolves_refl].
Qed.

Lemma Change_issued base sys' j :
  Change base sys' -> In j (issued base) -> In j (issued sys').
Proof. intros Hc. destruct Hc; simpl; auto. Qed.

Lemma JobStatusLiteral_eqb_spec a b :
  reflect (a = b) (JobStatusLiteral_eqb a b).
Proof. destruct a, b; simpl; constructor; congruence. Qed.

Section HandlerFacts.
Variable mktime_strptime : string -> option Z.

Lemma _process_job_start_cases now stamp j st :
  let st1 := _cleanup_jobs mktime_strptime now st in
  (_process_job_start mktime_strptime now stamp j st = (st1, false)
   /\ (dict_get j (_jobs st1) = None
       \/ exists r, dict_get j (_jobs st1) = Some r /\ status r = canceled))
  \/ (exists r,
        dict_get j (_jobs st1) = Some r /\ status r <> canceled
        /\ _process_job_start mktime_strptime now stamp j st =
           (replace_jobs st1 (dict_set j (set_running stamp r) (_jobs st1)),
            true)).
Proof.
  intros st1. unfold _process_job_start. fold st1.
  destruct (dict_get j (_jobs st1)) as [r|]; [|left; auto].
  destruct (JobStatusLiteral_eqb_spec (status r) canceled) as [Hc|Hc].
  - left. split; [reflexivity|]. right. eauto.
  - right. exists r. auto.
Qed.

Lemma _process_job_finish_cases stamp j run st :
  (_process_job_finish stamp j run st = st
   /\ (dict_get j (_jobs st) = None
       \/ exists r, dict_get j (_jobs st) = Some r /\ status r = canceled))
  \/ (exists r r',
        dict_get j (_jobs st) = Some r /\ status r <> canceled
        /\ _process_job_finish stamp j run st =
           replace_jobs st (dict_set j r' (_jobs st))
        /\ ((exists res,
               outcome run = inl res
               /\ Qgtb (duration run) JOB_RUN_TIMEOUT_SECONDS = true
               /\ r' = _mark_job_finished stamp r timeout
                         (Some "job exceeded processing timeout"))
            \/ (exists res,
                  outcome run = inl res
                  /\ Qgtb (duration run) JOB_RUN_TIMEOUT_SECONDS = false
                  /\ r' = set_done stamp res r)
            \/ (exists exc,
                  outcome run = inr exc
                  /\ r' = _mark_job_finished stamp r failed (Some exc)))).
Proof.
  unfold _process_job_finish.
  destruct (outcome run) as [res|exc];
    (destruct (dict_get j (_jobs st)) as [r|]; [|left; auto]);
    (destruct (JobStatusLiteral_eqb_spec (status r) canceled) as [Hc|Hc];
     [left; split; [reflexivity|right; eauto]|]).
  - destruct (Qgtb (duration run) JOB_RUN_TIMEOUT_SECONDS) eqn:Hq.
    + right. eexists r, _. repeat split; [exact Hc|]. left. eauto.
    + right. eexists r, _. repeat split; [exact Hc|]. right. left. eauto.
  - right. eexists r, _. repeat split; [exact Hc|]. right. right. eauto.
Qed.

Lemma cancel_job_cases j now stamp rid st :
  let st1 := _cleanup_jobs mktime_strptime now st in
  (dict_get j (_jobs st1) = None
   /\ cancel_job mktime_strptime j now stamp rid st =
      (st1, HTTPException 404 (job_not_found rid j)))
  \/ (exists r,
        dict_get j (_jobs st1) = Some r
        /\ ((status_in (status r) [done; failed; timeout] = true
             /\ exists e,
                 code e = "job_not_cancelable"
                 /\ cancel_job mktime_strptime j now stamp rid st =
                    (st1, HTTPException 409 e))
            \/ (status r = canceled
                /\ cancel_job mktime_strptime j now stamp rid st =
                   (st1, Ok (_to_job_status_response rid r)))
            \/ ((status r = pending \/ status r = running)
                /\ cancel_job mktime_strptime j now stamp rid st =
                   (replace_jobs st1
                      (dict_set j
                         (_mark_job_finished stamp r canceled
                            (Some "job canceled by user")) (_jobs st1)),
                    Ok (_to_job_status_response rid
                          (_mark_job_finished stamp r canceled
                             (Some "job canceled by user"))))))).
Proof.
  intros st1. unfold cancel_job. fold st1.
  destruct (dict_get j (_jobs st1)) as [r|]; [|left; auto].
  right. exists r. split; [reflexivity|].
  destruct (status r) eqn:Hs; simpl.
  - right. right. auto.
  - right. right. auto.
  - left. split; [reflexivity|]. eexists. split; [|reflexivity]. reflexivity.
  - left. split; [reflexivity|]. eexists. split; [|reflexivity]. reflexivity.
  - right. left. auto.
  - left. split; [reflexivity|]. eexists. split; [|reflexivity]. reflexivity.
Qed.

Lemma get_job_status_store j now rid st :
  fst (get_job_status mktime_strptime j now rid st) =
  _cleanup_jobs mktime_strptime now st.
Proof. unfold get_job_status. destruct (dict_get _ _); reflexivity. Qed.

Lemma get_job_result_store j now rid st :
  fst (get_job_result mktime_strptime j now rid st) =
  _cleanup_jobs mktime_strptime now st.
Proof.
  unfold get_job_result. destruct (dict_get _ _) as [r|]; [|reflexivity].
  destruct (status r); simpl; try reflexivity.
  destruct (result r); reflexivity.
Qed.

Lemma health_store now rid st :
  fst (health mktime_strptime now rid st) =
  _cleanup_jobs mktime_strptime now st.
Proof. reflexivity. Qed.

Lemma list_jobs_store status_filter limit cursor now rid st :
  fst (list_jobs mktime_strptime status_filter limit cursor now rid st) = st
  \/ fst (list_jobs mktime_strptime status_filter limit cursor now rid st) =
     _cleanup_jobs mktime_strptime now st.
Proof.
  unfold list_jobs. destruct (_ || _)%bool; [now left|].
  match goal with |- context [match ?p with Some _ => _ | None => _ end] =>
    destruct p end; [right|left]; reflexivity.
Qed.
End HandlerFacts.

Section CreateFacts.
Variable mktime_strptime : string -> option Z.

Lemma create_job_cases now stamp job_id rid payload st :
  let st1 := _cleanup_jobs mktime_strptime now st in
  (req_task payload <> "detect-objects"
   /\ exists e,
       code e = "unsupported_task"
       /\ create_job mktime_strptime now stamp job_id rid payload st =
          (st, HTTPException 400 e, None))
  \/ (req_task payload = "detect-objects"
      /\ exists r0,
          replayed payload st1 = Some r0
          /\ create_job mktime_strptime now stamp job_id rid payload st =
             (st1,
              Ok {| cr_jobId := jobId r0; cr_status := status r0;
                    cr_acceptedAt := createdAt r0; cr_requestId := rid |},
              None))
  \/ (req_task payload = "detect-objects"
      /\ replayed payload st1 = None
      /\ exists index',
          create_job mktime_strptime now stamp job_id rid payload st =
          ({| _jobs :=
                dict_set job_id (new_record stamp job_id payload) (_jobs st1);
              _jobs_by_idempotency := index' |},
           Ok {| cr_jobId := job_id; cr_status := pending;
                 cr_acceptedAt := stamp; cr_requestId := rid |},
           Some (job_id,
                 {| det_imageBase64 := req_imageBase64 payload;
                    det_minScore := req_minScore payload;
                    det_debugSleepMs := req_debugSleepMs payload |}))).
Proof.
  intros st1. unfold create_job. fold st1.
  destruct (String.eqb_spec (req_task payload) "detect-objects") as [Ht|Ht];
    simpl negb; cbv iota.
  2:{ left. split; [exact Ht|]. eexists. split; [|reflexivity]. reflexivity. }
  right.
  assert (E :
    match req_idempotencyKey payload with
    | Some k =>
        if truthy (Some k)
        then match dict_get k (_jobs_by_idempotency st1) with
             | Some existing_job_id =>
                 if truthy (Some existing_job_id)
                 then dict_get existing_job_id (_jobs st1)
                 else None
             | None => None
             end
        else None
    | None => None
    end = replayed payload st1).
  { unfold replayed, truthy.
    destruct (req_idempotencyKey payload) as [k|]; [|reflexivity].
    destruct (String.eqb k ""); simpl; [reflexivity|].
    destruct (dict_get k _) as [j0|]; [|reflexivity].
    destruct (String.eqb j0 ""); reflexivity. }
  rewrite E. destruct (replayed payload st1) as [r0|].
  - left. split; [exact Ht|]. exists r0. auto.
  - right. split; [exact Ht|]. split; [reflexivity|].
    eexists. reflexivity.
Qed.


Lemma replayed_None sys now payload j2 r2 :
  Inv sys ->
  replayed payload (_cleanup_jobs mktime_strptime now (store sys)) = None ->
  truthy (req_idempotencyKey payload) = true ->
  dict_get j2 (_jobs (_cleanup_jobs mktime_strptime now (store sys)))
  = Some r2 ->
  idempotencyKey r2 <> req_idempotencyKey payload.
Proof.
  intros HI. apply (Inv_cleanup mktime_strptime sys now) in HI.
  destruct HI as [Hk Hr _ _ _]. simpl in Hk, Hr.
  unfold replayed, truthy. rewrite cleanup_index.
  destruct (req_idempotencyKey payload) as [k|]; [|discriminate].
  destruct (String.eqb_spec k "") as [|Hne]; [discriminate|].
  rewrite rebuild_index_get.
  destruct (String.eqb_spec k ""); [contradiction|].
  intros Hrep _ Hg2.
  destruct (last_with_key k _) as [j0|] eqn:Hl.
  - exfalso. apply last_with_key_Some in Hl. destruct Hl as (r & Hin & Hkey).
    apply In_dict_get in Hin; [|exact Hk].
    destruct (Hr j0 r Hin) as (_ & _ & _ & Hj0).
    destruct (String.eqb_spec j0 ""); [contradiction|]. congruence.
  - eapply last_with_key_None; [exact Hl|]. apply dict_get_In. exact Hg2.
Qed.
End CreateFacts.

Section StepFacts.
Variable mktime_strptime : string -> option Z.

Lemma with_store_same sys : with_store sys (store sys) = sys.
Proof. now destruct sys. Qed.

(** Every step is a retention pass or nothing, followed by one change. *)
Lemma step_change sys ev sys' :
  Inv sys -> step mktime_strptime sys ev = Some sys' ->
  exists base,
    (base = sys \/ exists now, base = cleaned mktime_strptime now sys)
    /\ Change base sys'.
Proof.
  intros HI. destruct ev as
    [now stamp job_id rid payload | job_id now stamp | job_id stamp run
    | job_id now stamp rid | job_id now rid | job_id now rid
    | status_filter limit cursor now rid | now rid]; simpl.
  - (* Submit *)
    destruct (mem_string job_id (issued sys)) eqn:Hmem; [discriminate|].
    destruct (String.eqb_spec job_id "") as [|Hne]; [discriminate|]. simpl.
    assert (Hnew : ~ In job_id (issued sys)).
    { rewrite <- mem_string_In. congruence. }
    destruct (create_job_cases mktime_strptime now stamp job_id rid payload
                (store sys))
      as [(_ & e & _ & ->)|[(_ & r0 & _ & ->)|(_ & Hrep & ix & ->)]];
      intros [= <-].
    + exists sys. split; [now left|]. apply ChangeIssue.
    + exists (cleaned mktime_strptime now sys). split; [right; eauto|].
      apply (ChangeIssue (cleaned mktime_strptime now sys)).
    + exists (cleaned mktime_strptime now sys). split; [right; eauto|].
      apply (ChangeInsert (cleaned mktime_strptime now sys)); simpl; auto.
      * unfold fields_ok. simpl. auto.
      * intros Htr j2 r2 Hg.
        eapply replayed_None; eauto.
  - (* Start *)
    destruct (dict_get job_id (background sys)) as [[|]|] eqn:Hbg;
      try discriminate.
    destruct (_process_job_start_cases mktime_strptime now stamp job_id
                (store sys)) as [(-> & _)|(r & Hg & Hnc & ->)];
      intros [= <-].
    + exists (cleaned mktime_strptime now sys). split; [right; eauto|].
      apply (ChangeTask (cleaned mktime_strptime now sys)). simpl.
      intros k ph. rewrite dict_get_pop.
      destruct (String.eqb job_id k); [discriminate|auto].
    + exists (cleaned mktime_strptime now sys). split; [right; eauto|].
      assert (Hp : status r = pending).
      { pose proof (Inv_cleanup mktime_strptime sys now HI) as HI'.
        destruct (inv_phase _ HI' job_id Scheduled r Hbg Hg); congruence. }
      pose proof (Inv_cleanup mktime_strptime sys now HI) as HI'.
      destruct (inv_record _ HI' job_id r Hg) as (_ & Hf & _).
      apply (ChangeUpdate (cleaned mktime_strptime now sys) job_id r); simpl; auto.
      * now rewrite Hp.
      * now apply fields_ok_set_running.
      * intros k ph. rewrite dict_get_set.
        destruct (String.eqb_spec job_id k) as [<-|Hjk].
        -- intros [= <-]. left. simpl. auto.
        -- intros H. right. split; [congruence|exact H].
  - (* Finish *)
    destruct (dict_get job_id (background sys)) as [[|]|] eqn:Hbg;
      try discriminate.
    intros [= <-].
    assert (Hpop : forall k ph,
              dict_get k (dict_pop job_id (background sys)) = Some ph ->
              k <> job_id /\ dict_get k (background sys) = Some ph).
    { intros k ph. rewrite dict_get_pop.
      destruct (String.eqb_spec job_id k); [discriminate|].
      intros H. split; [congruence|exact H]. }
    destruct (_process_job_finish_cases stamp job_id run (store sys))
      as [(-> & _)|(r & r' & Hg & Hnc & -> & Hr')].
    + exists sys. split; [now left|].
      apply (ChangeTask sys). intros k ph H. now apply Hpop in H.
    + exists sys. split; [now left|].
      assert (Hp : status r = running).
      { destruct (inv_phase _ HI job_id Executing r Hbg Hg); congruence. }
      destruct (inv_record _ HI job_id r Hg) as (_ & Hf & _).
      destruct Hr' as [(res & _ & _ & ->)|[(res & _ & _ & ->)
                                             |(exc & _ & ->)]];
        apply (ChangeUpdate sys job_id r); simpl; auto;
        try (now rewrite Hp);
        try (apply fields_ok_mark; now auto);
        try (now apply fields_ok_set_done);
        try (intros k ph H; right; now apply Hpop).
  - (* Cancel *)
    intros [= <-].
    destruct (cancel_job_cases mktime_strptime job_id now stamp rid
                (store sys))
      as [(_ & ->)|(r & Hg & [(_ & e & _ & ->)|[(_ & ->)|(Hs & ->)]])];
      simpl; try (exists (cleaned mktime_strptime now sys); split; [right; eauto|];
                  apply ChangeNone).
    exists (cleaned mktime_strptime now sys). split; [right; eauto|].
    pose proof (Inv_cleanup mktime_strptime sys now HI) as HI'.
    destruct (inv_record _ HI' job_id r Hg) as (_ & Hf & _).
    apply (ChangeUpdate (cleaned mktime_strptime now sys) job_id r); simpl; auto.
    + destruct Hs as [-> | ->]; reflexivity.
    + apply fields_ok_mark; auto.
    + intros k ph H. destruct (String.eqb_spec k job_id) as [->|Hkj].
      * left. split; [reflexivity|]. destruct ph; simpl; auto.
      * right. auto.
  - intros [= <-]. rewrite get_job_status_store.
    exists (cleaned mktime_strptime now sys). split; [right; eauto|apply ChangeNone].
  - intros [= <-]. rewrite get_job_result_store.
    exists (cleaned mktime_strptime now sys). split; [right; eauto|apply ChangeNone].
  - intros [= <-].
    destruct (list_jobs_store mktime_strptime status_filter limit cursor now
                rid (store sys)) as [-> | ->].
    + exists sys. split; [now left|]. rewrite with_store_same.
      apply ChangeNone.
    + exists (cleaned mktime_strptime now sys). split; [right; eauto|apply ChangeNone].
  - intros [= <-].
    exists (cleaned mktime_strptime now sys). split; [right; eauto|apply ChangeNone].
Qed.

Lemma step_Inv sys ev sys' :
  Inv sys -> step mktime_strptime sys ev = Some sys' -> Inv sys'.
Proof.
  intros HI Hs. destruct (step_change sys ev sys' HI Hs) as (base & Hb & Hc).
  apply (Change_Inv base); [|exact Hc].
  destruct Hb as [->|[now ->]]; [exact HI|]. now apply Inv_cleanup.
Qed.

Lemma run_Inv evs : forall sys sys',
  Inv sys -> run mktime_strptime sys evs = Some sys' -> Inv sys'.
Proof.
  induction evs as [|ev evs IH]; simpl; intros sys sys' HI.
  - now intros [= <-].
  - destruct (step mktime_strptime sys ev) as [sys1|] eqn:Hs; [|discriminate].
    apply IH. eapply step_Inv; eauto.
Qed.

Lemma step_evolves sys ev sys' j r' :
  Inv sys -> step mktime_strptime sys ev = Some sys' ->
  dict_get j (_jobs (store sys')) = Some r' ->
  (exists r, dict_get j (_jobs (store sys)) = Some r /\ evolves r r')
  \/ (~ In j (issued sys) /\ status r' = pending).
Proof.
  intros HI Hs Hg.
  destruct (step_change sys ev sys' HI Hs) as (base & Hb & Hc).
  destruct Hb as [->|[now ->]].
  - eapply Change_evolves; eauto.
  - destruct (Change_evolves (cleaned mktime_strptime now sys) sys' j r'
                (Inv_cleanup mktime_strptime sys now HI) Hc Hg)
      as [(r & Hr & He)|Hnew]; [left|right; exact Hnew].
    exists r. split; [|exact He].
    eapply cleanup_get_Some. exact Hr.
Qed.

Lemma step_issued sys ev sys' j :
  Inv sys -> step mktime_strptime sys ev = Some sys' ->
  In j (issued sys) -> In j (issued sys').
Proof.
  intros HI Hs Hj.
  destruct (step_change sys ev sys' HI Hs) as (base & Hb & Hc).
  apply (Change_issued base); [exact Hc|].
  destruct Hb as [->|[now ->]]; exact Hj.
Qed.
End StepFacts.

(** ** Records along a run *)

Lemma evolves_descends r r' : evolves r r' -> descends r r'.
Proof.
  intros (H1 & H2 & H3 & H4 & H5 & H6).
  unfold descends. repeat (split; [assumption|]). split; [|assumption].
  destruct H5 as [-> | H5]; [destruct (status r); reflexivity|].
  destruct (status r), (status r'); simpl in *; congruence.
Qed.

Lemma descends_trans a b c : descends a b -> descends b c -> descends a c.
Proof.
  intros (A1 & A2 & A3 & A4 & A5 & A6) (B1 & B2 & B3 & B4 & B5 & B6).
  repeat split; try congruence.
  - destruct (status a), (status b), (status c); simpl in *; congruence.
  - intros Ht. pose proof (A6 Ht) as ->. auto.
Qed.

Section RunFacts.
Variable mktime_strptime : string -> option Z.

Lemma run_absent evs : forall sys sys' j,
  Inv sys -> run mktime_strptime sys evs = Some sys' ->
  In j (issued sys) -> dict_get j (_jobs (store sys)) = None ->
  dict_get j (_jobs (store sys')) = None.
Proof.
  induction evs as [|ev evs IH]; simpl; intros sys sys' j HI.
  - now intros [= <-].
  - destruct (step mktime_strptime sys ev) as [sys1|] eqn:Hs; [|discriminate].
    intros Hrun Hiss Hnone.
    apply (IH sys1 sys' j); auto.
    + eapply step_Inv; eauto.
    + eapply step_issued; eauto.
    + destruct (dict_get j (_jobs (store sys1))) as [r1|] eqn:H1; [|reflexivity].
      destruct (step_evolves mktime_strptime sys ev sys1 j r1 HI Hs H1)
        as [(r & Hr & _)|(Hnew & _)]; [congruence|contradiction].
Qed.

Lemma run_descends evs : forall sys sys' j r r',
  Inv sys -> run mktime_strptime sys evs = Some sys' ->
  dict_get j (_jobs (store sys)) = Some r ->
  dict_get j (_jobs (store sys')) = Some r' ->
  descends r r'.
Proof.
  induction evs as [|ev evs IH]; simpl; intros sys sys' j r r' HI.
  - intros [= <-] H1 H2. assert (r' = r) by congruence. subst.
    apply evolves_descends, evolves_refl.
  - destruct (step mktime_strptime sys ev) as [sys1|] eqn:Hs; [|discriminate].
    intros Hrun Hr Hr'.
    assert (HI1 : Inv sys1) by (eapply step_Inv; eauto).
    destruct (inv_record _ HI j r Hr) as (_ & _ & Hiss & _).
    destruct (dict_get j (_jobs (store sys1))) as [r1|] eqn:H1.
    + apply (descends_trans r r1 r').
      * destruct (step_evolves mktime_strptime sys ev sys1 j r1 HI Hs H1)
          as [(r0 & Hr0 & He)|(Hnew & _)]; [|contradiction].
        assert (r0 = r) by congruence. subst. now apply evolves_descends.
      * eapply IH; eauto.
    + exfalso.
      assert (dict_get j (_jobs (store sys')) = None).
      { apply (run_absent evs sys1 sys' j HI1 Hrun); [|exact H1].
        exact (step_issued mktime_strptime sys ev sys1 j HI Hs Hiss). }
      congruence.
Qed.

Lemma reachable_Inv evs sys :
  run mktime_strptime initial evs = Some sys -> Inv sys.
Proof. apply run_Inv, Inv_initial. Qed.
End RunFacts.

(** ** The execution path *)

Lemma Qgtb_lt a b : Qgtb a b = true <-> (b < a)%Q.
Proof.
  unfold Qgtb. rewrite negb_true_iff.
  split.
  - intros H. apply Qnot_le_lt. intros Hle.
    apply Qle_bool_iff in Hle. congruence.
  - intros H. destruct (Qle_bool a b) eqn:E; [|reflexivity].
    apply Qle_bool_iff in E. exfalso. eapply Qlt_not_le; eauto.
Qed.

Lemma Qgtb_le a b : Qgtb a b = false <-> (a <= b)%Q.
Proof.
  unfold Qgtb. rewrite negb_false_iff. apply Qle_bool_iff.
Qed.

(** C1 (cancellation wins).  Take a job that the running service holds as
    canceled.  The first critical section of its background call only runs
    the retention pass and stops before the executor; the critical section
    after the executor, whether the executor returned or raised, leaves the
    store as it is; and in every later state of the service the job is
    either evicted or the very same record: canceled, without a result. *)
Theorem cancellation_wins
  (mktime_strptime : string -> option Z) (evs : list Event) (sys : System)
  (job_id : string) (r : JobRecord) :
  run mktime_strptime initial evs = Some sys ->
  dict_get job_id (_jobs (store sys)) = Some r ->
  status r = canceled ->
  (forall now stamp,
     _process_job_start mktime_strptime now stamp job_id (store sys) =
     (_cleanup_jobs mktime_strptime now (store sys), false))
  /\ (forall stamp run,
        _process_job_finish stamp job_id run (store sys) = store sys)
  /\ result r = None
  /\ (forall later sys',
        run mktime_strptime sys later = Some sys' ->
        dict_get job_id (_jobs (store sys')) = None
        \/ dict_get job_id (_jobs (store sys')) = Some r).
Proof.
  intros Hrun Hg Hc. pose proof (reachable_Inv _ _ _ Hrun) as HI.
  repeat split.
  - intros now stamp.
    destruct (_process_job_start_cases mktime_strptime now stamp job_id
                (store sys)) as [(E & _)|(r1 & Hg1 & Hnc & _)]; [exact E|].
    apply cleanup_get_Some in Hg1. congruence.
  - intros stamp run.
    destruct (_process_job_finish_cases stamp job_id run (store sys))
      as [(E & _)|(r1 & r' & Hg1 & Hnc & _)]; [exact E|congruence].
  - destruct (inv_record _ HI job_id r Hg) as (_ & Hf & _).
    unfold fields_ok in Hf. rewrite Hc in Hf. tauto.
  - intros later sys' Hlater.
    destruct (dict_get job_id (_jobs (store sys'))) as [r'|] eqn:Hg';
      [right|now left].
    destruct (run_descends mktime_strptime later sys sys' job_id r r' HI
                Hlater Hg Hg') as (_ & _ & _ & _ & _ & Hsame).
    rewrite Hsame; [reflexivity|]. now rewrite Hc.
Qed.

(** C2, as the code has it.  When the background call finds its record live
    and not canceled after the executor: if the executor returned, the
    measured duration decides between [timeout] (fixed message, the response
    dropped) and [done] (the response stored); if the executor raised, the
    record becomes [failed] with the exception text whatever the duration. *)
Theorem timeout_classification
  (stamp job_id : string) (run : Execution) (st : Store) (r : JobRecord) :
  dict_get job_id (_jobs st) = Some r ->
  status r <> canceled ->
  exists r',
    _process_job_finish stamp job_id run st =
    replace_jobs st (dict_set job_id r' (_jobs st))
    /\ dict_get job_id (_jobs (_process_job_finish stamp job_id run st))
       = Some r'
    /\ finishedAt r' = Some stamp
    /\ match outcome run with
       | inl res =>
           ((JOB_RUN_TIMEOUT_SECONDS < duration run)%Q ->
            status r' = timeout
            /\ error r' = Some "job exceeded processing timeout"
            /\ result r' = result r)
           /\ ((duration run <= JOB_RUN_TIMEOUT_SECONDS)%Q ->
               status r' = done /\ result r' = Some res
               /\ error r' = error r)
       | inr exc =>
           status r' = failed /\ error r' = Some exc
           /\ result r' = result r
       end.
Proof.
  intros Hg Hnc.
  destruct (_process_job_finish_cases stamp job_id run st)
    as [(_ & [Hn|(r1 & Hg1 & Hc)])|(r1 & r' & Hg1 & _ & E & Hr')];
    try congruence.
  assert (r1 = r) by congruence. subst r1.
  exists r'. rewrite E. simpl. rewrite dict_get_set, String.eqb_refl.
  split; [reflexivity|]. split; [reflexivity|].
  destruct Hr' as [(res & Ho & Hq & ->)|[(res & Ho & Hq & ->)|(exc & Ho & ->)]];
    rewrite Ho; simpl; split; auto.
  - split; [auto|]. intros Hle. apply Qgtb_le in Hle. congruence.
  - split; [|auto]. intros Hlt. apply Qgtb_lt in Hlt. congruence.
Qed.

(** ** The state machine *)

(** C7 (record state machine).  For a record of the running service: its
    optional fields fit its status; one step of the service leaves its
    status alone or moves it along an edge of the state machine; and once the
    status is terminal it is the same in every later state. *)
Theorem status_state_machine
  (mktime_strptime : string -> option Z) (evs : list Event) (sys : System)
  (job_id : string) (r : JobRecord) :
  run mktime_strptime initial evs = Some sys ->
  dict_get job_id (_jobs (store sys)) = Some r ->
  record_invariants r
  /\ (forall ev sys' r',
        step mktime_strptime sys ev = Some sys' ->
        dict_get job_id (_jobs (store sys')) = Some r' ->
        status r' = status r \/ edge (status r) (status r') = true)
  /\ (forall later sys' r',
        run mktime_strptime sys later = Some sys' ->
        dict_get job_id (_jobs (store sys')) = Some r' ->
        is_terminal (status r) = true -> status r' = status r).
Proof.
  intros Hrun Hg. pose proof (reachable_Inv _ _ _ Hrun) as HI.
  destruct (inv_record _ HI job_id r Hg) as (_ & Hf & Hiss & _).
  split; [now apply fields_ok_invariants|]. split.
  - intros ev sys' r' Hs Hg'.
    destruct (step_evolves mktime_strptime sys ev sys' job_id r' HI Hs Hg')
      as [(r0 & Hr0 & He)|(Hnew & _)]; [|contradiction].
    assert (r0 = r) by congruence. subst. apply He.
  - intros later sys' r' Hlater Hg' Ht.
    destruct (run_descends mktime_strptime later sys sys' job_id r r' HI
                Hlater Hg Hg') as (_ & _ & _ & _ & _ & Hsame).
    now rewrite (Hsame Ht).
Qed.

(** ** Submission *)

Section SubmitFacts.
Variable mktime_strptime : string -> option Z.

End SubmitFacts.


(** ** Cancel and result *)

(** C5 (cancel contract).  In the running service, after the retention pass:
    [cancel_job] answers 404 exactly when the job is not live, 409
    [job_not_cancelable] exactly when it is done, failed or timed out, and
    otherwise leaves the job canceled, with the fixed message and a finish
    stamp and every other field as it was, and answers with the view of that
    record, field by field: the identifier asked for, the status [canceled],
    the task and the creation and start stamps of the record, its finish
    stamp and the fixed message; a job that was already canceled is not
    touched. *)
Theorem cancel_job_contract
  (mktime_strptime : string -> option Z) (evs : list Event) (sys : System)
  (job_id : string) (now : Q) (stamp rid : string) :
  run mktime_strptime initial evs = Some sys ->
  let st1 := _cleanup_jobs mktime_strptime now (store sys) in
  let out := cancel_job mktime_strptime job_id now stamp rid (store sys) in
  (dict_get job_id (_jobs st1) = None <->
   snd out = HTTPException 404 (job_not_found rid job_id))
  /\ ((exists r, dict_get job_id (_jobs st1) = Some r
                 /\ status_in (status r) [done; failed; timeout] = true) <->
      (exists e, snd out = HTTPException 409 e))
  /\ (forall r,
        dict_get job_id (_jobs st1) = Some r ->
        status_in (status r) [done; failed; timeout] = true ->
        fst out = st1
        /\ snd out =
           HTTPException 409
             {| code := "job_not_cancelable";
                message := "job already completed";
                err_requestId := rid;
                details := [("jobId", JStr job_id);
                            ("status", JStr (status_value (status r)))] |})
  /\ (forall r,
        dict_get job_id (_jobs st1) = Some r ->
        status_in (status r) [pending; running; canceled] = true ->
        exists r',
          dict_get job_id (_jobs (fst out)) = Some r'
          /\ status r' = canceled
          /\ error r' = Some "job canceled by user"
          /\ finishedAt r' <> None
          /\ r' =
             {| jobId := job_id; status := canceled; task := task r;
                createdAt := createdAt r; startedAt := startedAt r;
                finishedAt := finishedAt r';
                error := Some "job canceled by user";
                result := result r; idempotencyKey := idempotencyKey r |}
          /\ snd out =
             Ok {| sr_jobId := job_id; sr_status := canceled;
                   sr_task := task r; sr_createdAt := createdAt r;
                   sr_startedAt := startedAt r;
                   sr_finishedAt := finishedAt r';
                   sr_error := Some "job canceled by user";
                   sr_requestId := rid |}
          /\ (status r = canceled -> fst out = st1 /\ r' = r)
          /\ (status r <> canceled -> finishedAt r' = Some stamp)).
Proof.
  intros Hrun st1 out. pose proof (reachable_Inv _ _ _ Hrun) as HI.
  pose proof (Inv_cleanup mktime_strptime sys now HI) as HI'.
  subst out. unfold cancel_job. fold st1.
  destruct (dict_get job_id (_jobs st1)) as [r|] eqn:Hg.
  2: { cbn [fst snd]. split; [split; auto|].
       split; [split; [intros (r & Hr & _); discriminate
                      |intros (e & He); discriminate]|].
       split; intros r Hr; discriminate. }
  destruct (inv_record _ HI' job_id r Hg) as (Hid & Hf & _).
  unfold fields_ok in Hf.
  split; [split; intros H; [discriminate|]|].
  { destruct (status r); simpl in H; discriminate. }
  split.
  { split.
    - intros (r0 & [= <-] & Hs0). rewrite Hs0. cbn [fst snd]. eauto.
    - intros (e & He). exists r. split; [reflexivity|].
      destruct (status r); simpl in He |- *; try reflexivity;
        discriminate. }
  split.
  { intros r0 [= <-] Hs0. rewrite Hs0. cbn [fst snd].
    split; reflexivity. }
  intros r0 [= <-] Hs0.
  destruct (status r) eqn:Hs; cbn [status_in existsb JobStatusLiteral_eqb
                                     orb negb fst snd]; try discriminate.
  - eexists. unfold replace_jobs at 1. cbn [_jobs].
    rewrite dict_get_set, String.eqb_refl.
    split; [reflexivity|].
    unfold _to_job_status_response, _mark_job_finished.
    cbn [jobId status task createdAt startedAt finishedAt error result
           idempotencyKey]. rewrite Hid.
    repeat split; try reflexivity; try discriminate.
  - eexists. unfold replace_jobs at 1. cbn [_jobs].
    rewrite dict_get_set, String.eqb_refl.
    split; [reflexivity|].
    unfold _to_job_status_response, _mark_job_finished.
    cbn [jobId status task createdAt startedAt finishedAt error result
           idempotencyKey]. rewrite Hid.
    repeat split; try reflexivity; try discriminate.
  - destruct Hf as (Hfin & He & _).
    exists r. split; [exact Hg|]. split; [exact Hs|].
    split; [exact He|]. split; [exact Hfin|].
    unfold _to_job_status_response. rewrite Hs, He, Hid.
    split; [|split; [reflexivity|split; [auto|congruence]]].
    destruct r; cbn in *; subst; reflexivity.
Qed.

(** C4, as the code has it.  After the retention pass [get_job_result]
    answers 404 exactly when the job is not live.  For a live job: failed,
    timeout and canceled give a 409 with the code of the status, whose
    message is the stored error when that is a non-empty string and the text
    "job failed", "job timeout" or "job canceled" otherwise; pending and
    running give 409 [job_not_completed]; and the call succeeds exactly when
    the status is done and a result is stored, with that result as body. *)
Theorem get_job_result_contract
  (mktime_strptime : string -> option Z) (job_id : string) (now : Q)
  (rid : string) (st : Store) :
  let st1 := _cleanup_jobs mktime_strptime now st in
  let out := get_job_result mktime_strptime job_id now rid st in
  fst out = st1
  /\ (dict_get job_id (_jobs st1) = None <->
      snd out = HTTPException 404 (job_not_found rid job_id))
  /\ (forall r,
        dict_get job_id (_jobs st1) = Some r ->
        (status r = failed ->
         snd out = HTTPException 409
                     (result_conflict rid job_id "job_failed"
                        (or_default (error r) "job failed")))
        /\ (status r = timeout ->
            snd out = HTTPException 409
                        (result_conflict rid job_id "job_timeout"
                           (or_default (error r) "job timeout")))
        /\ (status r = canceled ->
            snd out = HTTPException 409
                        (result_conflict rid job_id "job_canceled"
                           (or_default (error r) "job canceled")))
        /\ (status r = pending \/ status r = running ->
            exists e, snd out = HTTPException 409 e
                      /\ code e = "job_not_completed")
        /\ ((exists body, snd out = Ok body) <->
            status r = done /\ result r <> None)
        /\ (forall res,
              status r = done -> result r = Some res ->
              snd out =
              Ok {| rr_jobId := jobId r; rr_objects := objects res;
                    rr_modelVersion := modelVersion res;
                    rr_latencyMs := latencyMs res;
                    rr_requestId := requestId res |})
        /\ (forall e dflt,
              error r = Some e -> e <> "" -> or_default (error r) dflt = e)).
Proof.
  intros st1 out. split; [apply get_job_result_store|].
  subst out. unfold get_job_result. fold st1.
  destruct (dict_get job_id (_jobs st1)) as [r|].
  - split.
    { split; [discriminate|].
      destruct (status r); cbn [JobStatusLiteral_eqb snd]; try discriminate.
      destruct (result r); cbn [snd]; discriminate. }
    intros r0 [= <-].
    assert (Hdflt : forall e dflt,
              error r = Some e -> e <> "" -> or_default (error r) dflt = e).
    { intros e dflt -> Hne. simpl.
      destruct (String.eqb_spec e ""); [contradiction|reflexivity]. }
    destruct (status r) eqn:Hs; cbn [JobStatusLiteral_eqb snd];
      try (destruct (result r) as [res|] eqn:Hres; cbn [snd]);
      (split; [intros; try discriminate; reflexivity|]);
      (split; [intros; try discriminate; reflexivity|]);
      (split; [intros; try discriminate; reflexivity|]);
      (split; [intros [H|H]; try discriminate; eexists; split; reflexivity|]);
      (split; [split; [intros (b & Hb); try discriminate; split; congruence
                      |intros (Hd & Hn); try discriminate; try congruence;
                       eauto]|]);
      (split; [intros res' Hd Hr'; try discriminate; try congruence|]);
      try exact Hdflt.
  - split; [split; auto|]. intros r. discriminate.
Qed.

(** ** The size of the store after retention *)

Lemma filter_Permutation {A : Type} (p : A -> bool) (l l' : list A) :
  Permutation l l' -> Permutation (filter p l) (filter p l').
Proof.
  induction 1 as [|a l l' _ IH|a b l|l l' l'' _ IH1 _ IH2]; simpl.
  - constructor.
  - destruct (p a); [now constructor|exact IH].
  - destruct (p a), (p b); try reflexivity. apply perm_swap.
  - now transitivity (filter p l').
Qed.

Lemma dict_set_length {V : Type} k (v : V) d :
  (length (dict_set k v d) <= S (length d))%nat.
Proof.
  induction d as [|[k' v'] d IH]; simpl; [lia|].
  destruct (String.eqb k' k); simpl; lia.
Qed.

Lemma rebuild_index_length jobs :
  (length (rebuild_index jobs) <= length jobs)%nat.
Proof.
  unfold rebuild_index.
  assert (H : forall ix : list (string * string),
            (length (fold_left index_item jobs ix)
             <= length ix + length jobs)%nat).
  { induction jobs as [|[j r] jobs IH]; intros ix; simpl; [lia|].
    assert (Hi : (length (index_item ix (j, r)) <= S (length ix))%nat).
    { unfold index_item; cbn [fst snd].
      destruct (idempotencyKey r) as [k|]; [|lia].
      destruct (truthy (Some k)); [apply dict_set_length|lia]. }
    specialize (IH (index_item ix (j, r))). lia. }
  apply (H []).
Qed.

Section CapacityFacts.
Variable mktime_strptime : string -> option Z.

(** Popping the first [n] items of any reordering of the dict leaves at most
    [length - n] items. *)
Lemma pop_prefix_length (jobs ordered : list (string * JobRecord)) n :
  Permutation ordered jobs ->
  (length (pop_all (map fst (firstn n ordered)) jobs) <= length jobs - n)%nat.
Proof.
  intros Hperm. rewrite pop_all_filter.
  set (p := fun e : string * JobRecord =>
              negb (mem_string (fst e) (map fst (firstn n ordered)))).
  rewrite <- (Permutation_length (filter_Permutation p _ _ Hperm)).
  rewrite <- (Permutation_length Hperm).
  rewrite <- (firstn_skipn n ordered) at 1.
  rewrite filter_app, length_app.
  assert (E : filter p (firstn n ordered) = []).
  { assert (H : forall pre, (forall e, In e pre ->
                In (fst e) (map fst (firstn n ordered))) -> filter p pre = []).
    { induction pre as [|e pre IH]; intros Hin; simpl; [reflexivity|].
      unfold p at 1. rewrite (proj2 (mem_string_In _ _) (Hin e (or_introl eq_refl))).
      simpl. apply IH. intros e' He'. apply Hin. now right. }
    apply H. intros e He. now apply in_map. }
  rewrite E. simpl.
  etransitivity; [apply filter_length_le|]. rewrite length_skipn. lia.
Qed.

Lemma cleanup_length now st :
  (length (_jobs (_cleanup_jobs mktime_strptime now st)) <= JOBS_MAX_ITEMS)%nat.
Proof.
  unfold _cleanup_jobs. cbn [_jobs].
  set (jobs1 := pop_all _ (_jobs st)).
  destruct (Nat.ltb_spec JOBS_MAX_ITEMS (length jobs1)) as [Hlt|Hle];
    [|exact Hle].
  etransitivity; [apply pop_prefix_length, python_sorted_perm|]. lia.
Qed.
End CapacityFacts.

(** ** What a retention pass does

    The pass in terms of the epoch that [_job_time_to_epoch] reads from a
    stamp. *)

Section RetentionPass.
Variable mktime_strptime : string -> option Z.

Lemma ttl_expired_spec now r f t :
  finishedAt r = Some f -> f <> "" ->
  mktime_strptime f = Some t -> t <> 0%Z ->
  ttl_expired mktime_strptime now r = true <->
  is_terminal (status r) = true /\ (JOBS_TTL_SECONDS < now - inject_Z t)%Q.
Proof.
  intros Hf Hne Hp Ht. unfold ttl_expired, _job_time_to_epoch, truthy.
  rewrite Hf. destruct (String.eqb_spec f "") as [|_]; [contradiction|].
  rewrite Hp. destruct (Z.eqb_spec t 0) as [|_]; [contradiction|].
  cbn [negb andb]. rewrite !andb_true_r, andb_true_iff, Qgtb_lt.
  reflexivity.
Qed.

Lemma NoDup_keys_entries (l : list (string * JobRecord)) :
  NoDup (dict_keys l) -> NoDup l.
Proof. apply NoDup_map_inv. Qed.

Lemma same_key_same_entry (l : list (string * JobRecord)) e e' :
  NoDup (dict_keys l) -> In e l -> In e' l -> fst e = fst e' -> e = e'.
Proof.
  intros Hnd He He' Hk. destruct e as [k r], e' as [k' r']. simpl in Hk.
  subst k'. apply In_dict_get in He, He'; auto. congruence.
Qed.

Lemma mem_keys_sublist (l pre : list (string * JobRecord)) e :
  NoDup (dict_keys l) -> incl pre l -> In e l ->
  mem_string (fst e) (map fst pre) = true <-> In e pre.
Proof.
  intros Hnd Hincl He. rewrite mem_string_In. split.
  - intros Hin. apply in_map_iff in Hin. destruct Hin as (e' & Hk & He').
    assert (e' = e) by (eapply same_key_same_entry; eauto). now subst.
  - intros Hin. now apply in_map.
Qed.

Lemma ttl_step_exact now jobs :
  NoDup (dict_keys jobs) ->
  pop_all
    (map fst
       (filter (fun item => ttl_expired mktime_strptime now (snd item)) jobs))
    jobs
  = filter (fun item => negb (ttl_expired mktime_strptime now (snd item)))
      jobs.
Proof.
  intros Hnd. rewrite pop_all_filter. apply filter_ext_in. intros e He.
  f_equal. apply eq_true_iff_eq.
  rewrite (mem_keys_sublist jobs _ e Hnd); auto.
  - rewrite filter_In. tauto.
  - intros x Hx. apply filter_In in Hx. tauto.
Qed.

Lemma capacity_step_exact jobs1 n :
  NoDup (dict_keys jobs1) -> (n <= length jobs1)%nat ->
  let ordered := python_sorted (created_epoch mktime_strptime) false jobs1 in
  let kept := pop_all (map fst (firstn n ordered)) jobs1 in
  length kept = (length jobs1 - n)%nat
  /\ (forall e, In e kept -> In e jobs1)
  /\ (forall e e',
        In e jobs1 -> ~ In e kept -> In e' kept ->
        (created_epoch mktime_strptime e
         <= created_epoch mktime_strptime e')%Z).
Proof.
  intros Hnd Hn ordered kept.
  assert (Hperm : Permutation ordered jobs1) by apply python_sorted_perm.
  assert (Hnd_o : NoDup ordered).
  { eapply Permutation_NoDup; [symmetry; exact Hperm|].
    now apply NoDup_keys_entries. }
  assert (Hin_o : forall e, In e ordered <-> In e jobs1).
  { intros e. split; apply Permutation_in; [exact Hperm|now symmetry]. }
  assert (Hsplit : forall e,
            In e ordered <-> In e (firstn n ordered) \/ In e (skipn n ordered)).
  { intros e. rewrite <- in_app_iff, firstn_skipn. reflexivity. }
  assert (Hdisj : forall e,
            In e (firstn n ordered) -> In e (skipn n ordered) -> False).
  { intros e H1 H2. rewrite <- (firstn_skipn n ordered) in Hnd_o.
    apply NoDup_app_remove_l in Hnd_o as Hs.
    revert H1 H2. generalize (firstn n ordered) (skipn n ordered) Hnd_o.
    induction l as [|a l IH]; intros l' Hnd' H1 H2; [contradiction|].
    simpl in Hnd'. inversion Hnd' as [|? ? Hnotin Hnd'']; subst.
    destruct H1 as [->|H1]; [apply Hnotin, in_or_app; now right|eauto]. }
  assert (Hincl : incl (firstn n ordered) jobs1).
  { intros x Hx. apply Hin_o, Hsplit. now left. }
  assert (Hkept : forall e, In e kept <-> In e (skipn n ordered)).
  { intros e. unfold kept. rewrite pop_all_filter, filter_In, negb_true_iff.
    split.
    - intros (He & Hm). pose proof (proj2 (Hin_o e) He) as He'.
      apply Hsplit in He'. destruct He' as [Hpre|Hsuf]; [|exact Hsuf].
      pose proof (proj2 (mem_keys_sublist jobs1 (firstn n ordered) e Hnd
                           Hincl He) Hpre).
      congruence.
    - intros Hsuf.
      assert (He : In e jobs1) by (apply Hin_o, Hsplit; now right).
      split; [exact He|].
      destruct (mem_string (fst e) (map fst (firstn n ordered))) eqn:Hm;
        [|reflexivity].
      exfalso.
      pose proof (proj1 (mem_keys_sublist jobs1 (firstn n ordered) e Hnd
                           Hincl He) Hm).
      eauto. }
  split; [|split].
  - assert (Hp : Permutation kept (skipn n ordered)).
    { apply NoDup_Permutation; [| |exact Hkept].
      - unfold kept. rewrite pop_all_filter. apply NoDup_filter.
        now apply NoDup_keys_entries.
      - rewrite <- (firstn_skipn n ordered) in Hnd_o.
        now apply NoDup_app_remove_l in Hnd_o. }
    rewrite (Permutation_length Hp), length_skipn.
    now rewrite (Permutation_length Hperm).
  - intros e He. apply Hkept in He. apply Hin_o, Hsplit. now right.
  - intros e e' He Hnot He'.
    apply Hkept in He'.
    assert (Hpre : In e (firstn n ordered)).
    { apply Hin_o, Hsplit in He. destruct He as [H|H]; [exact H|].
      exfalso. apply Hnot. now apply Hkept. }
    pose proof (sorted_prefix_before (created_epoch mktime_strptime) false
                  n ordered e e'
                  (python_sorted_sorted (created_epoch mktime_strptime)
                     false jobs1) Hpre He') as Hb.
    unfold goes_before in Hb. now apply Z.leb_le in Hb.
Qed.

(** The retention pass on a state of the service: it removes exactly the
    records for which [ttl_expired] holds; then, if more than
    [JOBS_MAX_ITEMS] are left, it keeps [JOBS_MAX_ITEMS] of them and every
    record it drops was created no later than every record it keeps; and
    the rebuilt index maps a key to a job exactly when the key is not empty
    and the job is live and carries it. *)
Lemma retention_pass sys now :
  Inv sys ->
  let jobs := _jobs (store sys) in
  let jobs1 :=
    filter (fun item => negb (ttl_expired mktime_strptime now (snd item)))
      jobs in
  let st1 := _cleanup_jobs mktime_strptime now (store sys) in
  ((length jobs1 <= JOBS_MAX_ITEMS)%nat -> _jobs st1 = jobs1)
  /\ ((JOBS_MAX_ITEMS < length jobs1)%nat ->
      length (_jobs st1) = JOBS_MAX_ITEMS
      /\ (forall e, In e (_jobs st1) -> In e jobs1)
      /\ (forall e e',
            In e jobs1 -> ~ In e (_jobs st1) -> In e' (_jobs st1) ->
            (created_epoch mktime_strptime e
             <= created_epoch mktime_strptime e')%Z))
  /\ (forall k j,
        dict_get k (_jobs_by_idempotency st1) = Some j <->
        k <> ""
        /\ exists r, dict_get j (_jobs st1) = Some r
                     /\ idempotencyKey r = Some k).
Proof.
  intros HI jobs jobs1 st1.
  pose proof (inv_keys _ HI) as Hnd. fold jobs in Hnd.
  assert (E1 : pop_all
                 (map fst
                    (filter (fun item =>
                               ttl_expired mktime_strptime now (snd item))
                       jobs)) jobs = jobs1)
    by now apply ttl_step_exact.
  assert (Hnd1 : NoDup (dict_keys jobs1)) by now apply NoDup_keys_filter.
  split; [|split].
  - intros Hle. unfold st1, _cleanup_jobs. cbn [_jobs]. fold jobs.
    rewrite E1. destruct (Nat.ltb_spec JOBS_MAX_ITEMS (length jobs1)); [lia|].
    reflexivity.
  - intros Hlt.
    assert (E2 : _jobs st1 =
                 pop_all
                   (map fst
                      (firstn (length jobs1 - JOBS_MAX_ITEMS)
                         (python_sorted (created_epoch mktime_strptime) false
                            jobs1))) jobs1).
    { unfold st1, _cleanup_jobs. cbn [_jobs]. fold jobs. rewrite E1.
      destruct (Nat.ltb_spec JOBS_MAX_ITEMS (length jobs1)); [|lia].
      reflexivity. }
    rewrite E2.
    destruct (capacity_step_exact jobs1 (length jobs1 - JOBS_MAX_ITEMS) Hnd1)
      as (Hlen & Hsub & Hold); [lia|].
    split; [rewrite Hlen; lia|]. split; [exact Hsub|exact Hold].
  - intros k j.
    pose proof (Inv_cleanup mktime_strptime sys now HI) as HI'.
    fold st1 in HI'. unfold st1 at 1. rewrite cleanup_index. fold st1.
    rewrite rebuild_index_get. split.
    + destruct (String.eqb_spec k "") as [|Hne]; [discriminate|].
      intros Hl. split; [exact Hne|].
      apply last_with_key_Some in Hl. destruct Hl as (r & Hin & Hk).
      exists r. split; [|exact Hk].
      apply In_dict_get; [apply (inv_keys _ HI')|exact Hin].
    + intros (Hne & r & Hg & Hk).
      destruct (String.eqb_spec k ""); [contradiction|].
      destruct (last_with_key_fold_found k (_jobs st1) None j r
                  (dict_get_In _ _ _ Hg) Hk) as (j' & Hj').
      unfold last_with_key. rewrite Hj'. f_equal.
      pose proof Hj' as Hl. apply last_with_key_fold_Some in Hl.
      destruct Hl as [Hl|(r' & Hin' & Hk')]; [discriminate|].
      apply In_dict_get in Hin'; [|apply (inv_keys _ HI')].
      apply (inv_idempotency _ HI' j' j r' r); auto; [|congruence].
      rewrite Hk'. unfold truthy.
      destruct (String.eqb_spec k ""); [contradiction|reflexivity].
Qed.
End RetentionPass.

(** ** Health *)

(** C9, as the code has it.  [/health] runs the retention pass and reports
    the number of live records (at most the capacity), the size of the
    idempotency index (at most the number of live records) and, of the three
    configured constants, the per-job timeout only. *)
Theorem health_report
  (mktime_strptime : string -> option Z) (now : Q) (rid : string)
  (st : Store) :
  let st1 := _cleanup_jobs mktime_strptime now st in
  let out := health mktime_strptime now rid st in
  fst out = st1
  /\ map fst (snd out) =
     ["status"; "service"; "version"; "jobsInMemory";
      "idempotencyKeysInMemory"; "jobRunTimeoutSec"; "requestId"]
  /\ dict_get "jobsInMemory" (snd out)
     = Some (JInt (Z.of_nat (length (_jobs st1))))
  /\ dict_get "idempotencyKeysInMemory" (snd out)
     = Some (JInt (Z.of_nat (length (_jobs_by_idempotency st1))))
  /\ dict_get "jobRunTimeoutSec" (snd out)
     = Some (JNum JOB_RUN_TIMEOUT_SECONDS)
  /\ numbers_of (snd out) =
     [inject_Z (Z.of_nat (length (_jobs st1)));
      inject_Z (Z.of_nat (length (_jobs_by_idempotency st1)));
      JOB_RUN_TIMEOUT_SECONDS]
  /\ (length (_jobs_by_idempotency st1) <= length (_jobs st1)
      <= JOBS_MAX_ITEMS)%nat.
Proof.
  intros st1 out. subst out. unfold health. fold st1. cbn [fst snd].
  repeat (split; [reflexivity|]).
  split; [|apply cleanup_length].
  unfold st1. rewrite cleanup_index. apply rebuild_index_length.
Qed.

(** ** Request validation *)

(** C10 (the [unsupported_task] branch is dead).  A payload that came
    through request validation has [task = "detect-objects"], so the guard
    at the top of [create_job] is false for it and neither [create_job] nor
    the whole [POST /jobs] ever answers [unsupported_task]. *)
Theorem unsupported_task_unreachable
  (mktime_strptime : string -> option Z) (body : JobCreateBody) (now : Q)
  (stamp job_id rid : string) (st : Store) :
  (forall payload,
     validate_JobCreateRequest body = Some payload ->
     negb (String.eqb (req_task payload) "detect-objects") = false
     /\ forall c e,
         snd (fst (create_job mktime_strptime now stamp job_id rid payload
                     st)) = HTTPException c e ->
         False)
  /\ (forall c e,
        snd (fst (post_jobs mktime_strptime body now stamp job_id rid st))
        = HTTPException c e ->
        code e <> "unsupported_task").
Proof.
  assert (Hv : forall payload,
            validate_JobCreateRequest body = Some payload ->
            req_task payload = "detect-objects").
  { unfold validate_JobCreateRequest. intros payload.
    destruct (body_task body) as [t|]; [|discriminate].
    destruct (body_imageBase64 body) as [image|]; [|discriminate].
    destruct (String.eqb_spec t "detect-objects") as [->|]; [|discriminate].
    now intros [= <-]. }
  assert (Hc : forall payload,
            req_task payload = "detect-objects" ->
            forall c e,
              snd (fst (create_job mktime_strptime now stamp job_id rid
                          payload st)) = HTTPException c e -> False).
  { intros payload Ht c e.
    destruct (create_job_cases mktime_strptime now stamp job_id rid payload st)
      as [(Hnt & _)|[(_ & r0 & _ & ->)|(_ & _ & ix & ->)]];
      [contradiction| |]; discriminate. }
  split.
  - intros payload Hp. pose proof (Hv payload Hp) as Ht. split; [|now apply Hc].
    rewrite Ht. reflexivity.
  - intros c e. unfold post_jobs.
    destruct (validate_JobCreateRequest body) as [payload|] eqn:Hp.
    + intros H. exfalso. eapply Hc; eauto.
    + cbn [fst snd]. intros [= _ <-]. discriminate.
Qed.

(** ** Cursors *)

Lemma string_of_uint_digits d :
  Forall (fun c => is_digit c = true)
    (list_ascii_of_string (DecimalString.NilEmpty.string_of_uint d)).
Proof.
  induction d; simpl; constructor; auto.
Qed.

Lemma is_digit_not_space c : is_digit c = true -> is_space c = false.
Proof.
  unfold is_digit, is_space. intros H.
  apply andb_true_iff in H. destruct H as [H1 H2].
  apply Nat.leb_le in H1. apply Nat.leb_le in H2.
  repeat (apply orb_false_iff; split).
  - apply Nat.eqb_neq. lia.
  - apply andb_false_iff. right. apply Nat.leb_gt. lia.
  - apply Nat.eqb_neq. lia.
  - apply Nat.eqb_neq. lia.
Qed.

Lemma is_digit_not c c' :
  is_digit c = true -> is_digit c' = false -> Ascii.eqb c c' = false.
Proof.
  intros H H'. destruct (Ascii.eqb_spec c c'); [congruence|reflexivity].
Qed.

Lemma lstrip_digits l :
  Forall (fun c => is_digit c = true) l -> lstrip l = l.
Proof.
  destruct 1 as [|c l Hc _]; simpl; [reflexivity|].
  now rewrite (is_digit_not_space c Hc).
Qed.

Lemma strip_digits l : Forall (fun c => is_digit c = true) l -> strip l = l.
Proof.
  intros H. unfold strip. rewrite (lstrip_digits l H).
  rewrite lstrip_digits; [apply rev_involutive|].
  apply Forall_rev. exact H.
Qed.

Lemma drop_underscores_digits l : forall prev,
  Forall (fun c => is_digit c = true) l ->
  (prev = true \/ l <> []) -> drop_underscores prev l = Some l.
Proof.
  induction l as [|c l IH]; intros prev Hd Hp; simpl.
  - destruct Hp as [->|Hp]; [reflexivity|contradiction].
  - inversion Hd as [|? ? Hc Hl]; subst.
    rewrite (is_digit_not c "_" Hc eq_refl), Hc.
    rewrite (IH true Hl (or_introl eq_refl)). reflexivity.
Qed.

(** [str(n)] has no more digits than [n] has bits. *)
Lemma little_double_digits d :
  (Decimal.nb_digits (Decimal.Little.double d) <= S (Decimal.nb_digits d))%nat
  /\ (Decimal.nb_digits (Decimal.Little.succ_double d)
      <= S (Decimal.nb_digits d))%nat.
Proof.
  induction d as [|d [IH1 IH2]|d [IH1 IH2]|d [IH1 IH2]|d [IH1 IH2]
                 |d [IH1 IH2]|d [IH1 IH2]|d [IH1 IH2]|d [IH1 IH2]
                 |d [IH1 IH2]|d [IH1 IH2]];
    simpl; split; lia.
Qed.

Lemma to_uint_digits p :
  (Decimal.nb_digits (Pos.to_uint p) <= Pos.to_nat p)%nat.
Proof.
  unfold Pos.to_uint. rewrite DecimalFacts.nb_digits_rev.
  induction p as [p IH|p IH|]; cbn [Pos.to_little_uint].
  - pose proof (proj2 (little_double_digits (Pos.to_little_uint p))).
    pose proof (Pos2Nat.is_pos p). rewrite Pos2Nat.inj_xI. lia.
  - pose proof (proj1 (little_double_digits (Pos.to_little_uint p))).
    pose proof (Pos2Nat.is_pos p). rewrite Pos2Nat.inj_xO. lia.
  - simpl. lia.
Qed.

Lemma string_of_uint_length d :
  length (list_ascii_of_string (DecimalString.NilEmpty.string_of_uint d))
  = Decimal.nb_digits d.
Proof. induction d; simpl; auto. Qed.

Lemma python_int_str n :
  (n <= MAX_STR_DIGITS)%nat ->
  python_int (python_str (Z.of_nat n)) = Some (Z.of_nat n).
Proof.
  intros Hmax. unfold python_str, python_int.
  assert (E : exists d,
            d <> Decimal.Nil /\ Z.to_int (Z.of_nat n) = Decimal.Pos d
            /\ (Decimal.nb_digits d <= MAX_STR_DIGITS)%nat).
  { destruct (Z.of_nat n) eqn:Hz; simpl.
    - exists (Decimal.D0 Decimal.Nil).
      split; [discriminate|]. split; [reflexivity|].
      unfold MAX_STR_DIGITS. simpl. lia.
    - eexists. split; [|split; [reflexivity|]].
      + intros Hnil. pose proof (DecimalPos.Unsigned.to_uint_nonnil p). auto.
      + pose proof (to_uint_digits p). lia.
    - lia. }
  destruct E as (d & Hd & Hto & Hlen).
  assert (Hof : Z.of_uint d = Z.of_nat n).
  { rewrite <- (DecimalZ.of_to (Z.of_nat n)), Hto. reflexivity. }
  rewrite Hto. simpl DecimalString.NilZero.string_of_int.
  assert (Hs : DecimalString.NilZero.string_of_uint d =
               DecimalString.NilEmpty.string_of_uint d)
    by (destruct d; [contradiction|reflexivity..]).
  rewrite Hs.
  pose proof (string_of_uint_digits d) as Hdig.
  rewrite (strip_digits _ Hdig).
  destruct (list_ascii_of_string (DecimalString.NilEmpty.string_of_uint d))
    as [|c l] eqn:Hl.
  - destruct d; discriminate.
  - inversion Hdig as [|? ? Hc Hrest]; subst.
    rewrite (is_digit_not c "-" Hc eq_refl), (is_digit_not c "+" Hc eq_refl).
    unfold int_of_digits. rewrite Hc.
    rewrite (drop_underscores_digits (c :: l) false Hdig)
      by (right; discriminate).
    assert (Hfew : (MAX_STR_DIGITS <? length (c :: l))%nat = false).
    { apply Nat.ltb_ge. rewrite <- Hl, string_of_uint_length. exact Hlen. }
    rewrite Hfew.
    rewrite <- Hl, string_of_list_ascii_of_string.
    rewrite DecimalString.NilEmpty.usu. simpl. now rewrite Hof.
Qed.

Lemma python_str_truthy n : truthy (Some (python_str (Z.of_nat n))) = true.
Proof.
  unfold truthy, python_str.
  destruct (Z.of_nat n) eqn:Hz; simpl; [reflexivity| |lia].
  destruct (Pos.to_uint p); reflexivity.
Qed.

Lemma cursor_offset_str n :
  (n <= MAX_STR_DIGITS)%nat ->
  cursor_offset (Some (python_str (Z.of_nat n))) = Some (Z.of_nat n).
Proof.
  intros Hmax. unfold cursor_offset.
  rewrite python_str_truthy, (python_int_str n Hmax).
  destruct (Z.ltb_spec (Z.of_nat n) 0); [lia|reflexivity].
Qed.

(** ** Listing *)





Section ListingFacts.
Variable mktime_strptime : string -> option Z.

Lemma cleanup_noop now st :
  filter (fun item => ttl_expired mktime_strptime now (snd item)) (_jobs st)
  = [] ->
  (length (_jobs st) <= JOBS_MAX_ITEMS)%nat ->
  _cleanup_jobs mktime_strptime now st =
  {| _jobs := _jobs st; _jobs_by_idempotency := rebuild_index (_jobs st) |}.
Proof.
  intros H Hl. unfold _cleanup_jobs. rewrite H.
  cbn [map pop_all fold_left].
  destruct (Nat.ltb_spec JOBS_MAX_ITEMS (length (_jobs st))); [lia|].
  reflexivity.
Qed.

Lemma cleanup_no_expired now st e :
  In e (_jobs (_cleanup_jobs mktime_strptime now st)) ->
  ttl_expired mktime_strptime now (snd e) = false.
Proof.
  rewrite cleanup_jobs_evicted, pop_all_filter. intros Hin.
  apply filter_In in Hin. destruct Hin as (Hin & Hmem).
  destruct (ttl_expired mktime_strptime now (snd e)) eqn:He; [|reflexivity].
  exfalso. apply negb_true_iff in Hmem.
  assert (Hm : In (fst e) (evicted mktime_strptime now (_jobs st))).
  { assert (Hr : In (fst e)
                   (map fst
                      (filter (fun item =>
                                 ttl_expired mktime_strptime now (snd item))
                         (_jobs st)))).
    { apply in_map. apply filter_In. auto. }
    unfold evicted. destruct (_ <? _)%nat; [apply in_or_app; now left|exact Hr]. }
  apply mem_string_In in Hm. congruence.
Qed.

Lemma cleanup_idem now st :
  _cleanup_jobs mktime_strptime now (_cleanup_jobs mktime_strptime now st) =
  _cleanup_jobs mktime_strptime now st.
Proof.
  rewrite cleanup_noop; [reflexivity| |apply cleanup_length].
  assert (H : forall l : list (string * JobRecord),
            (forall e, In e l ->
                       ttl_expired mktime_strptime now (snd e) = false) ->
            filter (fun item => ttl_expired mktime_strptime now (snd item)) l
            = []).
  { induction l as [|e l IH]; intros Hl; simpl; [reflexivity|].
    rewrite (Hl e (or_introl eq_refl)). apply IH. intros e' He'.
    apply Hl. now right. }
  apply H. intros e. apply cleanup_no_expired.
Qed.

Lemma listed_records_length status_filter jobs :
  (length (listed_records mktime_strptime status_filter jobs)
   <= length jobs)%nat.
Proof.
  assert (H : length
                (python_sorted
                   (fun item =>
                      _job_time_to_epoch mktime_strptime
                        (Some (createdAt item)))
                   true (dict_values jobs)) = length jobs).
  { rewrite python_sorted_length. unfold dict_values. apply length_map. }
  unfold listed_records. destruct status_filter as [wanted|]; [|lia].
  eapply Nat.le_trans; [apply filter_length_le|]. lia.
Qed.

(** After a retention pass the offsets of a listing are far below the digit
    limit of [int]. *)
Lemma listed_records_few status_filter now st :
  _cleanup_jobs mktime_strptime now st = st ->
  (length (listed_records mktime_strptime status_filter (_jobs st))
   <= MAX_STR_DIGITS)%nat.
Proof.
  intros Hfix.
  pose proof (listed_records_length status_filter (_jobs st)) as Hl.
  pose proof (cleanup_length mktime_strptime now st) as Hc.
  rewrite Hfix in Hc. unfold JOBS_MAX_ITEMS in Hc. unfold MAX_STR_DIGITS.
  lia.
Qed.

Lemma list_jobs_page status_filter limit cursor offset now rid st :
  (1 <= limit <= 100)%Z ->
  cursor_offset cursor = Some offset ->
  list_jobs mktime_strptime status_filter limit cursor now rid st =
  (_cleanup_jobs mktime_strptime now st,
   Ok {| items :=
           map to_list_item
             (firstn (Z.to_nat limit)
                (skipn (Z.to_nat offset)
                   (listed_records mktime_strptime status_filter
                      (_jobs (_cleanup_jobs mktime_strptime now st)))));
         nextCursor :=
           if (offset + limit
               <? Z.of_nat
                    (length
                       (listed_records mktime_strptime status_filter
                          (_jobs (_cleanup_jobs mktime_strptime now st)))))%Z
           then Some (python_str (offset + limit))
           else None;
         lr_requestId := rid |}).
Proof.
  intros Hl Hc. unfold list_jobs.
  destruct (Z.ltb_spec limit 1); [lia|].
  destruct (Z.ltb_spec 100 limit); [lia|]. simpl orb. cbv iota.
  rewrite Hc. reflexivity.
Qed.

End ListingFacts.


(** * Scenarios *)

Lemma cancellation_wins_witness :
  run utc initial canceled_run = Some (after utc canceled_run)
  /\ dict_get "job-1" (_jobs (store (after utc canceled_run)))
     = Some canceled_record
  /\ _process_job_finish stamp2 "job-1" quick_success
       (store (after utc canceled_run)) = store (after utc canceled_run)
  /\ result canceled_record = None.
Proof.
  split; [reflexivity|]. split; [reflexivity|].
  destruct (cancellation_wins utc canceled_run (after utc canceled_run)
              "job-1" canceled_record eq_refl eq_refl eq_refl)
    as (_ & Hfinish & Hresult & _).
  split; [apply Hfinish|exact Hresult].
Defined.

Lemma timeout_classification_witness :
  dict_get "job-1" (_jobs (store (after utc running_run)))
  = Some running_record
  /\ exists r',
      dict_get "job-1"
        (_jobs (_process_job_finish stamp1 "job-1" quick_success
                  (store (after utc running_run)))) = Some r'
      /\ finishedAt r' = Some stamp1.
Proof.
  split; [reflexivity|].
  destruct (timeout_classification stamp1 "job-1" quick_success
              (store (after utc running_run)) running_record eq_refl)
    as (r' & _ & Hg & Hf & _); [discriminate|].
  exists r'. split; [exact Hg|exact Hf].
Defined.

(** C2 as stated fails: the executor raised after ten seconds, more than the
    budget of eight, and the job is failed, not timed out. *)
Lemma timeout_on_raise_counterexample :
  (JOB_RUN_TIMEOUT_SECONDS < duration slow_failure)%Q
  /\ exists r',
      dict_get "job-1"
        (_jobs (_process_job_finish stamp2 "job-1" slow_failure
                  (store (after utc running_run)))) = Some r'
      /\ status r' = failed
      /\ status r' <> timeout
      /\ error r' = Some "cannot identify image file".
Proof.
  split; [reflexivity|].
  eexists. split; [reflexivity|]. repeat split. discriminate.
Qed.

Lemma status_state_machine_witness :
  run utc initial canceled_run = Some (after utc canceled_run)
  /\ dict_get "job-1" (_jobs (store (after utc canceled_run)))
     = Some canceled_record
  /\ record_invariants canceled_record.
Proof.
  split; [reflexivity|]. split; [reflexivity|].
  exact (proj1 (status_state_machine utc canceled_run (after utc canceled_run)
                  "job-1" canceled_record eq_refl eq_refl)).
Defined.


Lemma cancel_job_contract_witness :
  run utc initial running_run = Some (after utc running_run)
  /\ dict_get "job-1"
       (_jobs (_cleanup_jobs utc 1700000001 (store (after utc running_run))))
     = Some running_record
  /\ snd (cancel_job utc "job-1" 1700000001 stamp1 "req-2"
            (store (after utc running_run)))
     = Ok {| sr_jobId := "job-1"; sr_status := canceled;
             sr_task := "detect-objects"; sr_createdAt := stamp0;
             sr_startedAt := Some stamp0; sr_finishedAt := Some stamp1;
             sr_error := Some "job canceled by user";
             sr_requestId := "req-2" |}.
Proof.
  split; [reflexivity|]. split; [reflexivity|].
  destruct (proj2 (proj2 (proj2
              (cancel_job_contract utc running_run (after utc running_run)
                 "job-1" 1700000001 stamp1 "req-2" eq_refl)))
              running_record eq_refl eq_refl)
    as (r' & _ & _ & _ & _ & _ & Hout & _ & Hst).
  rewrite Hout, (Hst ltac:(discriminate)). reflexivity.
Defined.

Lemma get_job_result_contract_witness :
  fst (get_job_result utc "job-1" 1700000002 "req-2"
         (store (after utc failed_run)))
  = _cleanup_jobs utc 1700000002 (store (after utc failed_run)).
Proof.
  exact (proj1 (get_job_result_contract utc "job-1" 1700000002 "req-2"
                  (store (after utc failed_run)))).
Defined.

(** C4 as stated fails: the stored error of the failed job is the empty
    string, the message of the 409 is the text "job failed". *)
Lemma get_job_result_message_counterexample :
  run utc initial failed_run = Some (after utc failed_run)
  /\ exists r e,
      dict_get "job-1"
        (_jobs (_cleanup_jobs utc 1700000002 (store (after utc failed_run))))
      = Some r
      /\ status r = failed
      /\ error r = Some ""
      /\ snd (get_job_result utc "job-1" 1700000002 "req-2"
                (store (after utc failed_run))) = HTTPException 409 e
      /\ code e = "job_failed"
      /\ message e = "job failed"
      /\ Some (message e) <> error r.
Proof.
  split; [reflexivity|].
  eexists. eexists. split; [reflexivity|].
  repeat split. discriminate.
Qed.




Lemma health_report_witness :
  dict_get "jobsInMemory"
    (snd (health utc 1700000003 "req-9" (store (after utc three_jobs_run))))
  = Some (JInt 3).
Proof.
  exact (proj1 (proj2 (proj2 (health_report utc 1700000003 "req-9"
                                (store (after utc three_jobs_run)))))).
Defined.

(** C9 as stated fails: the body of [/health] has no field for the retention
    window or the capacity, and on the empty store none of its numbers is
    1800 or 200. *)
Lemma health_omits_ttl_and_capacity :
  map fst (snd (health utc 1700000000 "req-1" empty_store)) =
  ["status"; "service"; "version"; "jobsInMemory";
   "idempotencyKeysInMemory"; "jobRunTimeoutSec"; "requestId"]
  /\ Forall
       (fun q =>
          ~ (q == JOBS_TTL_SECONDS)%Q
          /\ ~ (q == inject_Z (Z.of_nat JOBS_MAX_ITEMS))%Q)
       (numbers_of (snd (health utc 1700000000 "req-1" empty_store))).
Proof.
  split; [reflexivity|].
  repeat constructor; intros H; vm_compute in H; discriminate.
Qed.

Lemma unsupported_task_unreachable_witness :
  validate_JobCreateRequest demo_body = Some (demo_payload None)
  /\ negb (String.eqb (req_task (demo_payload None)) "detect-objects") = false.
Proof.
  split; [reflexivity|].
  exact (proj1 (proj1 (unsupported_task_unreachable utc demo_body 1700000000
                         stamp0 "job-1" "req-1" empty_store)
                  (demo_payload None) eq_refl)).
Defined.

(** C6: the retention window is measured in the wrong time zone.
    [_mark_job_finished] and [_process_job] stamp [finishedAt] with
    [time.gmtime()], and [_job_time_to_epoch] reads the stamp back with
    [time.mktime], which takes it for local time.  Job job-1 is done at Unix
    time 1700000000.  In a process three hours ahead of UTC the retention
    pass ten seconds later already drops it, and [GET /jobs/job-1] answers
    404; in a process five hours behind UTC the job is still there after an
    hour, twice the retention window.  In a UTC process neither happens. *)
Theorem retention_time_zone_failure :
  utc stamp0 = Some 1700000000%Z
  /\ (exists r,
        dict_get "job-1" (_jobs (store (after utc_plus_3 done_run))) = Some r
        /\ status r = done /\ finishedAt r = Some stamp0)
  /\ (1700000010 - 1700000000 <= JOBS_TTL_SECONDS)%Q
  /\ dict_get "job-1"
       (_jobs (_cleanup_jobs utc_plus_3 1700000010
                 (store (after utc_plus_3 done_run)))) = None
  /\ snd (get_job_status utc_plus_3 "job-1" 1700000010 "req-2"
            (store (after utc_plus_3 done_run)))
     = HTTPException 404 (job_not_found "req-2" "job-1")
  /\ (JOBS_TTL_SECONDS < 1700003600 - 1700000000)%Q
  /\ dict_get "job-1"
       (_jobs (_cleanup_jobs utc_minus_5 1700003600
                 (store (after utc_minus_5 done_run)))) <> None
  /\ dict_get "job-1"
       (_jobs (_cleanup_jobs utc 1700000010 (store (after utc done_run))))
     <> None
  /\ dict_get "job-1"
       (_jobs (_cleanup_jobs utc 1700003600 (store (after utc done_run))))
     = None.
Proof.
  split; [reflexivity|].
  split; [eexists; repeat split; reflexivity|].
  split; [vm_compute; discriminate|].
  split; [reflexivity|]. split; [reflexivity|].
  split; [reflexivity|].
  split; [vm_compute; discriminate|].
  split; [vm_compute; discriminate|reflexivity].
Qed.

(** * Further properties of the job manager *)

(** ** Retention *)

(** X1.  A second retention pass at the same clock reading changes nothing:
    after one pass no record is expired and at most [JOBS_MAX_ITEMS] are
    left, and the index is already the rebuilt one. *)
Theorem retention_idempotent
  (mktime_strptime : string -> option Z) (now : Q) (st : Store) :
  _cleanup_jobs mktime_strptime now (_cleanup_jobs mktime_strptime now st)
  = _cleanup_jobs mktime_strptime now st
  /\ (forall e, In e (_jobs (_cleanup_jobs mktime_strptime now st)) ->
                ttl_expired mktime_strptime now (snd e) = false)
  /\ (length (_jobs (_cleanup_jobs mktime_strptime now st))
      <= JOBS_MAX_ITEMS)%nat.
Proof.
  split; [apply cleanup_idem|]. split; [|apply cleanup_length].
  intros e. apply cleanup_no_expired.
Qed.

(** X2.  A retention pass only removes: what is left is a sub-list of the
    stored records, in their order and unchanged, and a lookup that succeeds
    afterwards gives the record that was stored before. *)
Theorem retention_only_removes
  (mktime_strptime : string -> option Z) (now : Q) (st : Store) :
  (exists keep : string -> bool,
     _jobs (_cleanup_jobs mktime_strptime now st)
     = filter (fun e => keep (fst e)) (_jobs st))
  /\ (forall j r,
        dict_get j (_jobs (_cleanup_jobs mktime_strptime now st)) = Some r ->
        dict_get j (_jobs st) = Some r)
  /\ (length (_jobs (_cleanup_jobs mktime_strptime now st))
      <= length (_jobs st))%nat.
Proof.
  assert (E : _jobs (_cleanup_jobs mktime_strptime now st)
              = filter
                  (fun e => negb (mem_string (fst e)
                                    (evicted mktime_strptime now (_jobs st))))
                  (_jobs st)).
  { rewrite cleanup_jobs_evicted. apply pop_all_filter. }
  split; [|split].
  - exists (fun k => negb (mem_string k
                             (evicted mktime_strptime now (_jobs st)))).
    exact E.
  - intros j r. apply cleanup_get_Some.
  - rewrite E. apply filter_length_le.
Qed.

Lemma dict_get_filter_NoDup {V : Type} (p : string * V -> bool) j v
  (d : list (string * V)) :
  NoDup (dict_keys d) -> dict_get j d = Some v ->
  dict_get j (filter p d) = if p (j, v) then Some v else None.
Proof.
  induction d as [|[k w] d IH]; simpl; [discriminate|].
  intros Hnd. inversion Hnd as [|? ? Hnotin Hnd']; subst.
  destruct (String.eqb_spec k j) as [->|Hne].
  - intros [= ->]. destruct (p (j, v)) eqn:Hp; simpl.
    + now rewrite String.eqb_refl.
    + apply dict_get_None. intros Hin. apply Hnotin.
      unfold dict_keys in *. apply in_map_iff in Hin.
      destruct Hin as (e & He & Hin). apply filter_In in Hin.
      apply in_map_iff. exists e. tauto.
  - intros Hg. destruct (p (k, w)); simpl.
    + destruct (String.eqb_spec k j); [contradiction|]. now apply IH.
    + now apply IH.
Qed.

Section RetentionMore.
Variable mktime_strptime : string -> option Z.

Lemma ttl_expired_iff now r :
  ttl_expired mktime_strptime now r = true <->
  is_terminal (status r) = true
  /\ exists f t,
      finishedAt r = Some f /\ f <> "" /\ mktime_strptime f = Some t
      /\ t <> 0%Z /\ (JOBS_TTL_SECONDS < now - inject_Z t)%Q.
Proof.
  split.
  - unfold ttl_expired, _job_time_to_epoch, truthy. intros H.
    apply andb_true_iff in H. destruct H as (H & H3).
    apply andb_true_iff in H. destruct H as (H1 & H2).
    split; [exact H1|].
    destruct (finishedAt r) as [f|]; [|discriminate].
    destruct (String.eqb_spec f "") as [|Hne]; [discriminate|].
    destruct (mktime_strptime f) as [t|] eqn:Hp; [|discriminate].
    apply andb_true_iff in H3. destruct H3 as (Ht & Hq).
    exists f, t. repeat split; auto.
    + intros ->. discriminate.
    + now apply Qgtb_lt.
  - intros (Ht & f & t & Hf & Hne & Hp & Hz & Hq).
    apply (ttl_expired_spec mktime_strptime now r f t Hf Hne Hp Hz). auto.
Qed.

(** The two steps of the pass on a dict. *)
Lemma retention_jobs now st :
  NoDup (dict_keys (_jobs st)) ->
  let jobs1 :=
    filter (fun item => negb (ttl_expired mktime_strptime now (snd item)))
      (_jobs st) in
  let final := _jobs (_cleanup_jobs mktime_strptime now st) in
  ((length jobs1 <= JOBS_MAX_ITEMS)%nat -> final = jobs1)
  /\ ((JOBS_MAX_ITEMS < length jobs1)%nat ->
      length final = JOBS_MAX_ITEMS
      /\ (forall e, In e final -> In e jobs1)
      /\ (forall e e',
            In e jobs1 -> ~ In e final -> In e' final ->
            (created_epoch mktime_strptime e
             <= created_epoch mktime_strptime e')%Z)).
Proof.
  intros Hnd jobs1 final.
  assert (E1 : pop_all
                 (map fst
                    (filter (fun item =>
                               ttl_expired mktime_strptime now (snd item))
                       (_jobs st))) (_jobs st) = jobs1)
    by now apply ttl_step_exact.
  assert (Hnd1 : NoDup (dict_keys jobs1)) by now apply NoDup_keys_filter.
  split.
  - intros Hle. unfold final, _cleanup_jobs. cbn [_jobs].
    rewrite E1. destruct (Nat.ltb_spec JOBS_MAX_ITEMS (length jobs1)); [lia|].
    reflexivity.
  - intros Hlt.
    assert (E2 : final =
                 pop_all
                   (map fst
                      (firstn (length jobs1 - JOBS_MAX_ITEMS)
                         (python_sorted (created_epoch mktime_strptime) false
                            jobs1))) jobs1).
    { unfold final, _cleanup_jobs. cbn [_jobs]. rewrite E1.
      destruct (Nat.ltb_spec JOBS_MAX_ITEMS (length jobs1)); [|lia].
      reflexivity. }
    rewrite E2.
    destruct (capacity_step_exact mktime_strptime jobs1
                (length jobs1 - JOBS_MAX_ITEMS) Hnd1)
      as (Hlen & Hsub & Hold); [lia|].
    split; [rewrite Hlen; lia|]. split; [exact Hsub|exact Hold].
Qed.

(** A record that is not expired stays when the dict is within capacity. *)
Lemma cleanup_keeps now st j r :
  NoDup (dict_keys (_jobs st)) ->
  (length (_jobs st) <= JOBS_MAX_ITEMS)%nat ->
  dict_get j (_jobs st) = Some r ->
  dict_get j (_jobs (_cleanup_jobs mktime_strptime now st)) =
  if ttl_expired mktime_strptime now r then None else Some r.
Proof.
  intros Hnd Hlen Hg.
  destruct (retention_jobs now st Hnd) as (Hsmall & _).
  rewrite Hsmall.
  - rewrite (dict_get_filter_NoDup _ j r (_jobs st) Hnd Hg). simpl.
    destruct (ttl_expired mktime_strptime now r); reflexivity.
  - etransitivity; [apply filter_length_le|exact Hlen].
Qed.
End RetentionMore.

(** X3.  The capacity step.  On a dict, when more than [JOBS_MAX_ITEMS]
    records are left after the expired ones are gone, the pass keeps exactly
    [JOBS_MAX_ITEMS] of them, whatever their status, and every record it
    drops has a creation epoch no later than every record it keeps; when at
    most [JOBS_MAX_ITEMS] are left it keeps them all. *)
Theorem retention_capacity
  (mktime_strptime : string -> option Z) (now : Q) (st : Store) :
  NoDup (dict_keys (_jobs st)) ->
  let jobs1 :=
    filter (fun item => negb (ttl_expired mktime_strptime now (snd item)))
      (_jobs st) in
  let final := _jobs (_cleanup_jobs mktime_strptime now st) in
  ((length jobs1 <= JOBS_MAX_ITEMS)%nat -> final = jobs1)
  /\ ((JOBS_MAX_ITEMS < length jobs1)%nat ->
      length final = JOBS_MAX_ITEMS
      /\ (forall e, In e final -> In e jobs1)
      /\ (forall e e',
            In e jobs1 -> ~ In e final -> In e' final ->
            (_job_time_to_epoch mktime_strptime (Some (createdAt (snd e)))
             <= _job_time_to_epoch mktime_strptime
                  (Some (createdAt (snd e'))))%Z)).
Proof. intros Hnd. exact (retention_jobs mktime_strptime now st Hnd). Qed.

(** X4.  The rebuilt index.  It never holds the empty key, and in the
    running service it maps a key to a job exactly when the key is not empty
    and the job is live after the pass and carries that key. *)
Theorem retention_index
  (mktime_strptime : string -> option Z) (evs : list Event) (sys : System)
  (now : Q) :
  run mktime_strptime initial evs = Some sys ->
  let st1 := _cleanup_jobs mktime_strptime now (store sys) in
  dict_get "" (_jobs_by_idempotency st1) = None
  /\ (forall k j,
        dict_get k (_jobs_by_idempotency st1) = Some j <->
        k <> ""
        /\ exists r, dict_get j (_jobs st1) = Some r
                     /\ idempotencyKey r = Some k).
Proof.
  intros Hrun st1. pose proof (reachable_Inv _ _ _ Hrun) as HI. split.
  - unfold st1. rewrite cleanup_index. apply rebuild_index_empty_key.
  - exact (proj2 (proj2 (retention_pass mktime_strptime sys now HI))).
Qed.

(** X5.  Who is removed for age.  On a dict of at most [JOBS_MAX_ITEMS]
    records, a stored record is gone after the pass exactly when its status
    is terminal and its [finishedAt] is a non-empty stamp that
    [_job_time_to_epoch] reads as a non-zero epoch more than
    [JOBS_TTL_SECONDS] before [now]; every other record is still there,
    unchanged.  So pending and running jobs, and jobs whose stamp cannot be
    read, are never removed for age. *)
Theorem retention_ttl_criterion
  (mktime_strptime : string -> option Z) (now : Q) (st : Store)
  (job_id : string) (r : JobRecord) :
  NoDup (dict_keys (_jobs st)) ->
  (length (_jobs st) <= JOBS_MAX_ITEMS)%nat ->
  dict_get job_id (_jobs st) = Some r ->
  let gone :=
    is_terminal (status r) = true
    /\ exists f t,
        finishedAt r = Some f /\ f <> "" /\ mktime_strptime f = Some t
        /\ t <> 0%Z /\ (JOBS_TTL_SECONDS < now - inject_Z t)%Q in
  (dict_get job_id (_jobs (_cleanup_jobs mktime_strptime now st)) = None
   <-> gone)
  /\ (~ gone ->
      dict_get job_id (_jobs (_cleanup_jobs mktime_strptime now st))
      = Some r).
Proof.
  intros Hnd Hlen Hg gone.
  rewrite (cleanup_keeps mktime_strptime now st job_id r Hnd Hlen Hg).
  pose proof (ttl_expired_iff mktime_strptime now r) as Hiff.
  fold gone in Hiff.
  destruct (ttl_expired mktime_strptime now r).
  - split; [split; [intros _; now apply Hiff|reflexivity]|].
    intros Hn. exfalso. apply Hn. now apply Hiff.
  - split; [|reflexivity].
    split; [discriminate|]. intros H. apply Hiff in H. discriminate.
Qed.

(** ** Status and listing *)

(** X6.  [GET /jobs/{job_id}] in the running service: it runs the retention
    pass and nothing else; it answers 404 [job_not_found] exactly when the
    job is not live after the pass; otherwise it answers with the view of the
    record, field by field: the identifier asked for, the status, task,
    stamps and error of the record and the identifier of the request; the
    optional fields of the record fit its status. *)
Theorem get_job_status_contract
  (mktime_strptime : string -> option Z) (evs : list Event) (sys : System)
  (job_id : string) (now : Q) (rid : string) :
  run mktime_strptime initial evs = Some sys ->
  let st1 := _cleanup_jobs mktime_strptime now (store sys) in
  let out := get_job_status mktime_strptime job_id now rid (store sys) in
  fst out = st1
  /\ (dict_get job_id (_jobs st1) = None <->
      snd out = HTTPException 404 (job_not_found rid job_id))
  /\ (forall r,
        dict_get job_id (_jobs st1) = Some r ->
        snd out =
        Ok {| sr_jobId := job_id; sr_status := status r; sr_task := task r;
              sr_createdAt := createdAt r; sr_startedAt := startedAt r;
              sr_finishedAt := finishedAt r; sr_error := error r;
              sr_requestId := rid |}
        /\ record_invariants r).
Proof.
  intros Hrun st1 out. pose proof (reachable_Inv _ _ _ Hrun) as HI.
  pose proof (Inv_cleanup mktime_strptime sys now HI) as HI'.
  split; [apply get_job_status_store|].
  subst out. unfold get_job_status. fold st1.
  destruct (dict_get job_id (_jobs st1)) as [r|] eqn:Hg; cbn [snd].
  - split; [split; discriminate|].
    intros r0 [= <-].
    destruct (inv_record _ HI' job_id r Hg) as (Hid & Hf & _).
    split; [|now apply fields_ok_invariants].
    unfold _to_job_status_response. now rewrite Hid.
  - split; [split; reflexivity|]. discriminate.
Qed.

Lemma cursor_offset_None cursor :
  cursor_offset cursor = None <->
  exists c, cursor = Some c /\ c <> ""
            /\ forall z, python_int c = Some z -> (z < 0)%Z.
Proof.
  unfold cursor_offset, truthy. destruct cursor as [c|].
  - destruct (String.eqb_spec c "") as [->|Hne]; simpl.
    + split; [discriminate|]. intros (c & [= <-] & Hc & _). contradiction.
    + destruct (python_int c) as [z|] eqn:Hp.
      * destruct (Z.ltb_spec z 0).
        -- split; [|reflexivity]. intros _. exists c. repeat split; auto.
           intros z' Hz'. assert (z' = z) by congruence. lia.
        -- split; [discriminate|]. intros (c' & [= <-] & _ & Hz).
           specialize (Hz z Hp). lia.
      * split; [|reflexivity]. intros _. exists c. repeat split; auto.
        intros z Hz. congruence.
  - split; [discriminate|]. intros (c & Hc & _). discriminate.
Qed.

(** X7.  Validation in [GET /jobs].  A limit outside 1..100 is answered 400
    [invalid_pagination], whatever the cursor; with a good limit, a cursor
    that is a non-empty string and not a non-negative integer is answered
    400 [invalid_cursor]; in both cases the store is left as it is, without
    a retention pass.  Every other request succeeds; an empty cursor string
    counts as no cursor.  What [int] reads as a non-negative integer is
    spelled out by [python_int]: white space at both ends (the space and the
    characters 9 to 13, 133 and 160, but not 28 to 31), an optional sign,
    digits with single underscores between them, at most 4300 digits; the
    cursor is a string of code points below 256. *)
Theorem list_jobs_validation
  (mktime_strptime : string -> option Z)
  (status_filter : option JobStatusLiteral) (limit : Z)
  (cursor : option string) (now : Q) (rid : string) (st : Store) :
  let out :=
    list_jobs mktime_strptime status_filter limit cursor now rid st in
  ((limit < 1 \/ 100 < limit)%Z ->
   fst out = st
   /\ exists e, snd out = HTTPException 400 e
                /\ code e = "invalid_pagination")
  /\ ((1 <= limit <= 100)%Z -> cursor_offset cursor = None ->
      fst out = st
      /\ exists e, snd out = HTTPException 400 e
                   /\ code e = "invalid_cursor")
  /\ ((exists page, snd out = Ok page) <->
      (1 <= limit <= 100)%Z /\ cursor_offset cursor <> None)
  /\ (cursor_offset cursor = None <->
      exists c, cursor = Some c /\ c <> ""
                /\ forall z, python_int c = Some z -> (z < 0)%Z)
  /\ cursor_offset (Some "") = Some 0%Z.
Proof.
  intros out. subst out. unfold list_jobs.
  pose proof (cursor_offset_None cursor) as Hlast.
  destruct (Z.ltb_spec limit 1) as [H1|H1];
    [|destruct (Z.ltb_spec 100 limit) as [H2|H2]]; cbn [orb].
  - split; [intros _; split; [reflexivity|eexists; split; reflexivity]|].
    split; [intros; lia|].
    split; [split; [intros (p & Hp); discriminate|intros (? & _); lia]|].
    split; [exact Hlast|reflexivity].
  - split; [intros _; split; [reflexivity|eexists; split; reflexivity]|].
    split; [intros; lia|].
    split; [split; [intros (p & Hp); discriminate|intros (? & _); lia]|].
    split; [exact Hlast|reflexivity].
  - split; [intros; lia|].
    destruct (cursor_offset cursor) as [offset|] eqn:Hc; cbn [fst snd].
    + split; [intros; discriminate|].
      split; [split; [intros _; split; [lia|discriminate]|eauto]|].
      split; [exact Hlast|reflexivity].
    + split; [intros _ _; split; [reflexivity|eexists; split; reflexivity]|].
      split; [split; [intros (p & Hp); discriminate
                     |intros (_ & Hn); congruence]|].
      split; [exact Hlast|reflexivity].
Qed.

(** X8.  The shape of a page.  A valid request gets
    [min limit (N - offset)] items, where [N] is the number of listed
    records; the page has no [nextCursor] exactly when [N <= offset +
    limit], and otherwise the cursor is [str(offset + limit)]; an offset at
    or past the end gives an empty last page.  The request is taken as one
    step, [N] being counted on the records as they are when the retention
    pass has run; what the items hold is not stated here, since the code
    filters and builds them after it has released the lock. *)
Theorem list_jobs_page_shape
  (mktime_strptime : string -> option Z)
  (status_filter : option JobStatusLiteral) (limit : Z)
  (cursor : option string) (offset : Z) (now : Q) (rid : string)
  (st : Store) :
  (1 <= limit <= 100)%Z ->
  cursor_offset cursor = Some offset ->
  let N :=
    length
      (listed_records mktime_strptime status_filter
         (_jobs (_cleanup_jobs mktime_strptime now st))) in
  exists page,
    snd (list_jobs mktime_strptime status_filter limit cursor now rid st)
    = Ok page
    /\ length (items page) = Nat.min (Z.to_nat limit) (N - Z.to_nat offset)
    /\ (nextCursor page = None <-> (Z.of_nat N <= offset + limit)%Z)
    /\ ((offset + limit < Z.of_nat N)%Z ->
        nextCursor page = Some (python_str (offset + limit)))
    /\ ((Z.of_nat N <= offset)%Z -> items page = []).
Proof.
  intros Hl Hc N.
  rewrite (list_jobs_page mktime_strptime status_filter limit cursor offset
             now rid st Hl Hc).
  fold N. eexists. split; [reflexivity|]. cbn [items nextCursor snd].
  assert (Hoff : (0 <= offset)%Z).
  { unfold cursor_offset in Hc. destruct cursor as [c|]; [|injection Hc; lia].
    destruct (truthy (Some c)); [|injection Hc; lia].
    destruct (python_int c) as [z|]; [|discriminate].
    destruct (Z.ltb_spec z 0); [discriminate|]. injection Hc. lia. }
  split; [|split; [|split]].
  - rewrite length_map, length_firstn, length_skipn. reflexivity.
  - destruct (Z.ltb_spec (offset + limit) (Z.of_nat N)).
    + split; [discriminate|lia].
    + split; [lia|reflexivity].
  - intros HN. destruct (Z.ltb_spec (offset + limit) (Z.of_nat N));
      [reflexivity|lia].
  - intros HN. rewrite skipn_all2 by (fold N; lia).
    now rewrite firstn_nil.
Qed.

Section WalkFacts.
Variable mktime_strptime : string -> option Z.

Lemma follow_cursors_from status_filter limit now rid st1 :
  _cleanup_jobs mktime_strptime now st1 = st1 ->
  (1 <= limit <= 100)%Z ->
  let records := listed_records mktime_strptime status_filter (_jobs st1) in
  forall fuel o c s,
    _cleanup_jobs mktime_strptime now s = st1 ->
    cursor_offset c = Some (Z.of_nat o) ->
    (1 <= fuel)%nat ->
    (length records < o + fuel * Z.to_nat limit)%nat ->
    let pages :=
      follow_cursors mktime_strptime fuel status_filter limit c now rid s in
    concat (map items pages) = map to_list_item (skipn o records)
    /\ last (map nextCursor pages) (Some "") = None
    /\ Forall (fun page => (length (items page) <= Z.to_nat limit)%nat) pages.
Proof.
  intros Hfix Hl records.
  pose proof (listed_records_few mktime_strptime status_filter now st1 Hfix)
    as Hfew.
  fold records in Hfew.
  induction fuel as [|fuel IH]; intros o c s Hs Hc Hone Hfuel pages;
    [lia|].
  - subst pages. cbn [follow_cursors].
    rewrite (list_jobs_page mktime_strptime status_filter limit c
               (Z.of_nat o) now rid s Hl Hc).
    rewrite Hs. fold records. cbn [nextCursor items].
    rewrite Nat2Z.id.
    assert (Hpage : (length (map to_list_item
                               (firstn (Z.to_nat limit) (skipn o records)))
                     <= Z.to_nat limit)%nat).
    { rewrite length_map, length_firstn. lia. }
    destruct (Z.ltb_spec (Z.of_nat o + limit) (Z.of_nat (length records)))
      as [Hlt|Hge].
    + replace (Z.of_nat o + limit)%Z
        with (Z.of_nat (o + Z.to_nat limit)) by lia.
      destruct (IH (o + Z.to_nat limit)%nat
                  (Some (python_str (Z.of_nat (o + Z.to_nat limit)))) st1
                  Hfix
                  (cursor_offset_str (o + Z.to_nat limit) ltac:(lia)))
        as (IH1 & IH2 & IH3); [simpl in Hfuel; nia|simpl in Hfuel; lia|].
      cbn [map concat]. cbn [items]. rewrite IH1.
      split; [|split].
      * rewrite <- map_app. f_equal.
        rewrite Nat.add_comm, <- skipn_skipn. apply firstn_skipn.
      * cbn [nextCursor].
        destruct (map nextCursor
                    (follow_cursors mktime_strptime fuel status_filter limit
                       (Some (python_str (Z.of_nat (o + Z.to_nat limit))))
                       now rid st1)) eqn:E; [discriminate IH2|exact IH2].
      * constructor; [exact Hpage|exact IH3].
    + cbn [map concat items nextCursor last]. rewrite app_nil_r.
      split; [|split; [reflexivity|now repeat constructor]].
      f_equal. apply firstn_all2. rewrite length_skipn. lia.
Qed.
End WalkFacts.

(** X9.  Paging with any page size.  A client that asks for [limit]
    records at a time (1..100), starts without a cursor and follows
    [nextCursor], all at one clock reading, receives pages of at most
    [limit] items whose concatenation is the whole listing, and the walk
    ends with a page without a cursor. *)
Theorem list_walk_any_limit
  (mktime_strptime : string -> option Z)
  (status_filter : option JobStatusLiteral) (limit : Z) (now : Q)
  (rid : string) (fuel : nat) (st : Store) :
  (1 <= limit <= 100)%Z ->
  let records :=
    listed_records mktime_strptime status_filter
      (_jobs (_cleanup_jobs mktime_strptime now st)) in
  (length records < fuel * Z.to_nat limit)%nat ->
  let pages :=
    follow_cursors mktime_strptime fuel status_filter limit None now rid
      st in
  concat (map items pages) = map to_list_item records
  /\ last (map nextCursor pages) (Some "") = None
  /\ Forall (fun page => (length (items page) <= Z.to_nat limit)%nat) pages.
Proof.
  intros Hl records Hfuel pages.
  assert (Hone : (1 <= fuel)%nat) by (destruct fuel; simpl in Hfuel; lia).
  exact (follow_cursors_from mktime_strptime status_filter limit now rid
           (_cleanup_jobs mktime_strptime now st)
           (cleanup_idem mktime_strptime now st) Hl
           fuel 0%nat None st eq_refl eq_refl Hone Hfuel).
Qed.

(** ** The index and the background calls between requests *)

Lemma dict_set_absent {V : Type} j (v : V) (d : list (string * V)) :
  dict_get j d = None -> dict_set j v d = d ++ [(j, v)].
Proof.
  induction d as [|[k w] d IH]; simpl; [reflexivity|].
  destruct (String.eqb k j); [discriminate|].
  intros H. now rewrite IH.
Qed.

Lemma rebuild_index_append jobs j r :
  dict_get j jobs = None ->
  rebuild_index (dict_set j r jobs) = index_item (rebuild_index jobs) (j, r).
Proof.
  intros H. rewrite (dict_set_absent j r jobs H).
  unfold rebuild_index. now rewrite fold_left_app.
Qed.

Lemma rebuild_index_update jobs j r r' :
  dict_get j jobs = Some r -> idempotencyKey r' = idempotencyKey r ->
  rebuild_index (dict_set j r' jobs) = rebuild_index jobs.
Proof.
  intros Hg Hk. unfold rebuild_index. generalize (@nil (string * string)).
  revert Hg. induction jobs as [|[k w] jobs IH]; simpl; [discriminate|].
  destruct (String.eqb_spec k j) as [->|Hne]; intros Hg ix.
  - injection Hg as ->. simpl. f_equal.
    unfold index_item. cbn [fst snd]. now rewrite Hk.
  - simpl. now apply IH.
Qed.

Section TrackedFacts.
Variable mktime_strptime : string -> option Z.

Lemma create_job_new now stamp job_id rid payload st :
  req_task payload = "detect-objects" ->
  replayed payload (_cleanup_jobs mktime_strptime now st) = None ->
  create_job mktime_strptime now stamp job_id rid payload st =
  ({| _jobs :=
        dict_set job_id (new_record stamp job_id payload)
          (_jobs (_cleanup_jobs mktime_strptime now st));
      _jobs_by_idempotency :=
        index_item
          (_jobs_by_idempotency (_cleanup_jobs mktime_strptime now st))
          (job_id, new_record stamp job_id payload) |},
   Ok {| cr_jobId := job_id; cr_status := pending;
         cr_acceptedAt := stamp; cr_requestId := rid |},
   Some (job_id,
         {| det_imageBase64 := req_imageBase64 payload;
            det_minScore := req_minScore payload;
            det_debugSleepMs := req_debugSleepMs payload |})).
Proof.
  intros Ht Hrep. unfold create_job.
  set (st1 := _cleanup_jobs mktime_strptime now st) in *.
  rewrite Ht. cbn [String.eqb Ascii.eqb Bool.eqb negb].
  replace (String.eqb "detect-objects" "detect-objects") with true
    by (symmetry; apply String.eqb_refl).
  cbn [negb].
  assert (E :
    match req_idempotencyKey payload with
    | Some k =>
        if truthy (Some k)
        then match dict_get k (_jobs_by_idempotency st1) with
             | Some existing_job_id =>
                 if truthy (Some existing_job_id)
                 then dict_get existing_job_id (_jobs st1)
                 else None
             | None => None
             end
        else None
    | None => None
    end = None).
  { rewrite <- Hrep. unfold replayed, truthy.
    destruct (req_idempotencyKey payload) as [k|]; [|reflexivity].
    destruct (String.eqb k ""); simpl; [reflexivity|].
    destruct (dict_get k _) as [j0|]; [|reflexivity].
    destruct (String.eqb j0 ""); reflexivity. }
  rewrite E. unfold index_item, new_record. cbn [fst snd idempotencyKey].
  rewrite Ht. reflexivity.
Qed.

Lemma Tracked_initial : Tracked initial.
Proof. constructor; simpl; [reflexivity|discriminate..]. Qed.

Lemma Tracked_cleanup sys now :
  Tracked sys ->
  Tracked (with_store sys (_cleanup_jobs mktime_strptime now (store sys))).
Proof.
  intros [Hi Hp Hr]. constructor; cbn [store background with_store].
  - apply cleanup_index.
  - intros j r H. apply cleanup_get_Some in H. eauto.
  - intros j r H. apply cleanup_get_Some in H. eauto.
Qed.

(** A live record is replaced, without touching the index, by one with the
    same key whose status fits the new background calls. *)
Lemma Tracked_update sys j r r' bg' :
  Tracked sys ->
  dict_get j (_jobs (store sys)) = Some r ->
  idempotencyKey r' = idempotencyKey r ->
  (status r' = pending -> dict_get j bg' = Some Scheduled) ->
  (status r' = running -> dict_get j bg' = Some Executing) ->
  (forall k, k <> j -> dict_get k bg' = dict_get k (background sys)) ->
  Tracked {| store := replace_jobs (store sys)
                        (dict_set j r' (_jobs (store sys)));
             background := bg'; issued := issued sys |}.
Proof.
  intros [Hi Hp Hr] Hg Hk Hp' Hr' Hbg.
  constructor; cbn [store background replace_jobs _jobs _jobs_by_idempotency].
  - rewrite Hi. symmetry. eapply rebuild_index_update; eauto.
  - intros k rk. rewrite dict_get_set.
    destruct (String.eqb_spec j k) as [<-|Hne].
    + intros [= <-]. exact Hp'.
    + intros H Hs. rewrite Hbg by congruence. eauto.
  - intros k rk. rewrite dict_get_set.
    destruct (String.eqb_spec j k) as [<-|Hne].
    + intros [= <-]. exact Hr'.
    + intros H Hs. rewrite Hbg by congruence. eauto.
Qed.

(** A background call goes away whose job is not pending or running. *)
Lemma Tracked_drop sys j :
  Tracked sys ->
  (forall r, dict_get j (_jobs (store sys)) = Some r ->
             status r <> pending /\ status r <> running) ->
  Tracked {| store := store sys; background := dict_pop j (background sys);
             issued := issued sys |}.
Proof.
  intros [Hi Hp Hr] Hj. constructor; cbn [store background]; [exact Hi| |].
  - intros k rk H Hs. rewrite dict_get_pop.
    destruct (String.eqb_spec j k) as [<-|Hne]; [|eauto].
    destruct (Hj rk H). contradiction.
  - intros k rk H Hs. rewrite dict_get_pop.
    destruct (String.eqb_spec j k) as [<-|Hne]; [|eauto].
    destruct (Hj rk H). contradiction.
Qed.

(** A new pending record is stored under an unused identifier, with its
    entry in the index and its scheduled call. *)
Lemma Tracked_insert sys j r :
  Tracked sys ->
  dict_get j (_jobs (store sys)) = None -> status r = pending ->
  Tracked {| store :=
               {| _jobs := dict_set j r (_jobs (store sys));
                  _jobs_by_idempotency :=
                    index_item (_jobs_by_idempotency (store sys)) (j, r) |};
             background := dict_set j Scheduled (background sys);
             issued := j :: issued sys |}.
Proof.
  intros [Hi Hp Hr] Habs Hs.
  constructor; cbn [store background _jobs _jobs_by_idempotency].
  - rewrite Hi. symmetry. now apply rebuild_index_append.
  - intros k rk. rewrite !dict_get_set.
    destruct (String.eqb_spec j k) as [<-|Hjk]; [reflexivity|eauto].
  - intros k rk. rewrite !dict_get_set.
    destruct (String.eqb_spec j k) as [<-|Hjk]; [|eauto].
    intros [= <-]. congruence.
Qed.

Lemma step_Tracked sys ev sys' :
  Inv sys -> Tracked sys -> step mktime_strptime sys ev = Some sys' ->
  Tracked sys'.
Proof.
  intros HI HT.
  pose proof (fun now => Tracked_cleanup sys now HT) as HTc.
  pose proof (fun now => Inv_cleanup mktime_strptime sys now HI) as HIc.
  destruct ev as
    [now stamp job_id rid payload | job_id now stamp | job_id stamp run
    | job_id now stamp rid | job_id now rid | job_id now rid
    | status_filter limit cursor now rid | now rid]; simpl.
  - (* Submit *)
    destruct (mem_string job_id (issued sys)) eqn:Hmem; [discriminate|].
    destruct (String.eqb_spec job_id "") as [|Hne]; [discriminate|]. simpl.
    assert (Hnew : ~ In job_id (issued sys)).
    { rewrite <- mem_string_In. congruence. }
    destruct (create_job_cases mktime_strptime now stamp job_id rid payload
                (store sys))
      as [(_ & e & _ & ->)|[(_ & r0 & _ & ->)|(Ht & Hrep & _)]].
    + intros [= <-]. destruct HT as [Hi Hp Hr]. constructor; auto.
    + intros [= <-]. destruct (HTc now) as [Hi Hp Hr]. constructor; auto.
    + rewrite (create_job_new now stamp job_id rid payload (store sys) Ht
                 Hrep).
      intros [= <-].
      assert (Habs : dict_get job_id
                       (_jobs (_cleanup_jobs mktime_strptime now (store sys)))
                     = None).
      { destruct (dict_get job_id _) as [r|] eqn:Hg; [|reflexivity].
        destruct (inv_record _ (HIc now) job_id r Hg) as (_ & _ & Hiss & _).
        contradiction. }
      exact (Tracked_insert
               (with_store sys
                  (_cleanup_jobs mktime_strptime now (store sys)))
               job_id (new_record stamp job_id payload) (HTc now) Habs
               eq_refl).
  - (* Start *)
    destruct (dict_get job_id (background sys)) as [[|]|] eqn:Hbg;
      try discriminate.
    destruct (_process_job_start_cases mktime_strptime now stamp job_id
                (store sys)) as [(-> & Hwhy)|(r & Hg & Hnc & ->)];
      intros [= <-].
    + apply (Tracked_drop
               (with_store sys
                  (_cleanup_jobs mktime_strptime now (store sys))) job_id
               (HTc now)).
      cbn [store with_store]. intros r Hr.
      destruct Hwhy as [Hn|(r1 & Hr1 & Hc)]; [congruence|].
      assert (r1 = r) by congruence. subst. rewrite Hc.
      split; discriminate.
    + apply (Tracked_update
               (with_store sys
                  (_cleanup_jobs mktime_strptime now (store sys)))
               job_id r (set_running stamp r)); auto.
      * discriminate.
      * intros _. rewrite dict_get_set, String.eqb_refl. reflexivity.
      * intros k Hk. rewrite dict_get_set.
        destruct (String.eqb_spec job_id k); [congruence|reflexivity].
  - (* Finish *)
    destruct (dict_get job_id (background sys)) as [[|]|] eqn:Hbg;
      try discriminate.
    intros [= <-].
    destruct (_process_job_finish_cases stamp job_id run (store sys))
      as [(-> & Hwhy)|(r & r' & Hg & Hnc & -> & Hr')].
    + apply (Tracked_drop sys job_id HT). intros r Hr.
      destruct Hwhy as [Hn|(r1 & Hr1 & Hc)]; [congruence|].
      assert (r1 = r) by congruence. subst. rewrite Hc.
      split; discriminate.
    + apply (Tracked_update sys job_id r r'); auto.
      * destruct Hr' as [(res & _ & _ & ->)|[(res & _ & _ & ->)
                                            |(exc & _ & ->)]]; reflexivity.
      * destruct Hr' as [(res & _ & _ & ->)|[(res & _ & _ & ->)
                                            |(exc & _ & ->)]]; discriminate.
      * destruct Hr' as [(res & _ & _ & ->)|[(res & _ & _ & ->)
                                            |(exc & _ & ->)]]; discriminate.
      * intros k Hk. rewrite dict_get_pop.
        destruct (String.eqb_spec job_id k); [congruence|reflexivity].
  - (* Cancel *)
    intros [= <-].
    destruct (cancel_job_cases mktime_strptime job_id now stamp rid
                (store sys))
      as [(_ & ->)|(r & Hg & [(_ & e & _ & ->)|[(_ & ->)|(Hs & ->)]])];
      cbn [fst]; try apply HTc.
    apply (Tracked_update
             (with_store sys (_cleanup_jobs mktime_strptime now (store sys)))
             job_id r
             (_mark_job_finished stamp r canceled
                (Some "job canceled by user"))); auto; discriminate.
  - intros [= <-]. rewrite get_job_status_store. apply HTc.
  - intros [= <-]. rewrite get_job_result_store. apply HTc.
  - intros [= <-].
    destruct (list_jobs_store mktime_strptime status_filter limit cursor now
                rid (store sys)) as [-> | ->]; [|apply HTc].
    now rewrite with_store_same.
  - intros [= <-]. apply HTc.
Qed.

Lemma run_Tracked evs : forall sys sys',
  Inv sys -> Tracked sys -> run mktime_strptime sys evs = Some sys' ->
  Tracked sys'.
Proof.
  induction evs as [|ev evs IH]; simpl; intros sys sys' HI HT.
  - now intros [= <-].
  - destruct (step mktime_strptime sys ev) as [sys1|] eqn:Hs; [|discriminate].
    apply IH; [eapply step_Inv; eauto|eapply step_Tracked; eauto].
Qed.
End TrackedFacts.

Section StampFacts.
Variable mktime_strptime : string -> option Z.

(** One step never moves a start stamp that is already set. *)
Lemma step_started sys ev sys' j r r' :
  Inv sys -> step mktime_strptime sys ev = Some sys' ->
  dict_get j (_jobs (store sys)) = Some r ->
  dict_get j (_jobs (store sys')) = Some r' ->
  startedAt r <> None -> startedAt r' = startedAt r.
Proof.
  intros HI Hs Hg Hg' Hst.
  assert (Hclean : forall now r1,
            dict_get j (_jobs (_cleanup_jobs mktime_strptime now (store sys)))
            = Some r1 -> r1 = r).
  { intros now r1 H. apply cleanup_get_Some in H. congruence. }
  destruct (inv_record _ HI j r Hg) as (_ & Hf & Hiss & _).
  destruct ev as
    [now stamp job_id rid payload | job_id now stamp | job_id stamp run
    | job_id now stamp rid | job_id now rid | job_id now rid
    | status_filter limit cursor now rid | now rid]; simpl in Hs.
  - destruct (mem_string job_id (issued sys)) eqn:Hmem; [discriminate|].
    destruct (String.eqb_spec job_id "") as [|Hne]; [discriminate|].
    simpl in Hs.
    assert (Hnew : ~ In job_id (issued sys)).
    { rewrite <- mem_string_In. congruence. }
    destruct (create_job_cases mktime_strptime now stamp job_id rid payload
                (store sys))
      as [(_ & e & _ & E)|[(_ & r0 & _ & E)|(_ & _ & ix & E)]];
      rewrite E in Hs; injection Hs as <-; cbn [store _jobs] in Hg'.
    + congruence.
    + now rewrite (Hclean now r' Hg').
    + rewrite dict_get_set in Hg'.
      destruct (String.eqb_spec job_id j) as [->|Hjk]; [contradiction|].
      now rewrite (Hclean now r' Hg').
  - destruct (dict_get job_id (background sys)) as [[|]|] eqn:Hbg;
      try discriminate.
    destruct (_process_job_start_cases mktime_strptime now stamp job_id
                (store sys)) as [(E & _)|(r1 & Hg1 & Hnc & E)];
      rewrite E in Hs; injection Hs as <-;
      cbn [store _jobs replace_jobs] in Hg'.
    + now rewrite (Hclean now r' Hg').
    + rewrite dict_get_set in Hg'.
      destruct (String.eqb_spec job_id j) as [->|Hjk].
      * exfalso. pose proof (Hclean now r1 Hg1). subst r1.
        destruct (inv_phase _ HI j Scheduled r Hbg Hg) as [Hp|Hc];
          [|contradiction].
        unfold fields_ok in Hf. rewrite Hp in Hf. tauto.
      * now rewrite (Hclean now r' Hg').
  - destruct (dict_get job_id (background sys)) as [[|]|] eqn:Hbg;
      try discriminate.
    injection Hs as <-. cbn [store] in Hg'.
    destruct (_process_job_finish_cases stamp job_id run (store sys))
      as [(E & _)|(r1 & r2 & Hg1 & Hnc & E & Hr2)]; rewrite E in Hg'.
    + congruence.
    + cbn [_jobs replace_jobs] in Hg'. rewrite dict_get_set in Hg'.
      destruct (String.eqb_spec job_id j) as [->|Hjk]; [|congruence].
      injection Hg' as <-. assert (r1 = r) by congruence. subst r1.
      destruct Hr2 as [(res & _ & _ & ->)|[(res & _ & _ & ->)
                                          |(exc & _ & ->)]]; reflexivity.
  - injection Hs as <-. cbn [store with_store] in Hg'.
    destruct (cancel_job_cases mktime_strptime job_id now stamp rid
                (store sys))
      as [(_ & E)|(r1 & Hg1 & [(_ & e & _ & E)|[(_ & E)|(_ & E)]])];
      rewrite E in Hg'; cbn [fst] in Hg';
      try (now rewrite (Hclean now r' Hg')).
    cbn [_jobs replace_jobs] in Hg'. rewrite dict_get_set in Hg'.
    destruct (String.eqb_spec job_id j) as [->|Hjk].
    + injection Hg' as <-. pose proof (Hclean now r1 Hg1). now subst r1.
    + now rewrite (Hclean now r' Hg').
  - injection Hs as <-. cbn [store with_store] in Hg'.
    rewrite get_job_status_store in Hg'. now rewrite (Hclean now r' Hg').
  - injection Hs as <-. cbn [store with_store] in Hg'.
    rewrite get_job_result_store in Hg'. now rewrite (Hclean now r' Hg').
  - injection Hs as <-. cbn [store with_store] in Hg'.
    destruct (list_jobs_store mktime_strptime status_filter limit cursor now
                rid (store sys)) as [E|E]; rewrite E in Hg'.
    + congruence.
    + now rewrite (Hclean now r' Hg').
  - injection Hs as <-. cbn [store with_store] in Hg'.
    now rewrite (Hclean now r' Hg').
Qed.

Lemma run_started evs : forall sys sys' j r r',
  Inv sys -> run mktime_strptime sys evs = Some sys' ->
  dict_get j (_jobs (store sys)) = Some r ->
  dict_get j (_jobs (store sys')) = Some r' ->
  startedAt r <> None -> startedAt r' = startedAt r.
Proof.
  induction evs as [|ev evs IH]; simpl; intros sys sys' j r r' HI.
  - intros [= <-] H1 H2 _. congruence.
  - destruct (step mktime_strptime sys ev) as [sys1|] eqn:Hs; [|discriminate].
    intros Hrun Hr Hr' Hst.
    assert (HI1 : Inv sys1) by (eapply step_Inv; eauto).
    destruct (inv_record _ HI j r Hr) as (_ & _ & Hiss & _).
    destruct (dict_get j (_jobs (store sys1))) as [r1|] eqn:H1.
    + pose proof (step_started sys ev sys1 j r r1 HI Hs Hr H1 Hst) as E1.
      rewrite <- E1. apply (IH sys1 sys' j r1 r' HI1 Hrun H1 Hr').
      congruence.
    + exfalso.
      assert (dict_get j (_jobs (store sys')) = None).
      { apply (run_absent mktime_strptime evs sys1 sys' j HI1 Hrun);
          [|exact H1].
        exact (step_issued mktime_strptime sys ev sys1 j HI Hs Hiss). }
      congruence.
Qed.
End StampFacts.

Lemma rebuild_index_spec jobs k j :
  NoDup (dict_keys jobs) ->
  (forall j1 j2 r1 r2,
     dict_get j1 jobs = Some r1 -> dict_get j2 jobs = Some r2 ->
     truthy (idempotencyKey r1) = true ->
     idempotencyKey r1 = idempotencyKey r2 -> j1 = j2) ->
  dict_get k (rebuild_index jobs) = Some j <->
  k <> ""
  /\ exists r, dict_get j jobs = Some r /\ idempotencyKey r = Some k.
Proof.
  intros Hnd Huniq. rewrite rebuild_index_get. split.
  - destruct (String.eqb_spec k "") as [|Hne]; [discriminate|].
    intros Hl. split; [exact Hne|].
    apply last_with_key_Some in Hl. destruct Hl as (r & Hin & Hk).
    exists r. split; [|exact Hk]. now apply In_dict_get.
  - intros (Hne & r & Hg & Hk).
    destruct (String.eqb_spec k ""); [contradiction|].
    destruct (last_with_key_fold_found k jobs None j r
                (dict_get_In _ _ _ Hg) Hk) as (j' & Hj').
    unfold last_with_key. rewrite Hj'. f_equal.
    pose proof Hj' as Hl. apply last_with_key_fold_Some in Hl.
    destruct Hl as [Hl|(r' & Hin' & Hk')]; [discriminate|].
    apply In_dict_get in Hin'; [|exact Hnd].
    apply (Huniq j' j r' r); auto; [|congruence].
    rewrite Hk'. unfold truthy.
    destruct (String.eqb_spec k ""); [contradiction|reflexivity].
Qed.

(** X10.  The idempotency index between requests.  In every state of the
    running service, not only right after a retention pass, the index is
    what a rebuild from the live records would give: it maps a key to a job
    exactly when the key is not empty and the job is live and carries it.
    So the entry that [create_job] adds by hand and the in-place updates of
    records never make the two dicts disagree. *)
Theorem index_always_rebuilt
  (mktime_strptime : string -> option Z) (evs : list Event) (sys : System) :
  run mktime_strptime initial evs = Some sys ->
  _jobs_by_idempotency (store sys) = rebuild_index (_jobs (store sys))
  /\ (forall k j,
        dict_get k (_jobs_by_idempotency (store sys)) = Some j <->
        k <> ""
        /\ exists r, dict_get j (_jobs (store sys)) = Some r
                     /\ idempotencyKey r = Some k).
Proof.
  intros Hrun. pose proof (reachable_Inv _ _ _ Hrun) as HI.
  pose proof (run_Tracked mktime_strptime evs initial sys Inv_initial
                (Tracked_initial) Hrun) as HT.
  split; [apply (tracked_index _ HT)|].
  intros k j. rewrite (tracked_index _ HT).
  apply rebuild_index_spec; [apply (inv_keys _ HI)|apply (inv_idempotency _ HI)].
Qed.

(** X11.  Identity of the live records.  In every state of the running
    service each live record is stored under its own [jobId], which is not
    empty; no identifier is stored twice; and no two live records carry the
    same non-empty idempotency key. *)
Theorem live_records_identified
  (mktime_strptime : string -> option Z) (evs : list Event) (sys : System) :
  run mktime_strptime initial evs = Some sys ->
  NoDup (dict_keys (_jobs (store sys)))
  /\ (forall j r, In (j, r) (_jobs (store sys)) -> jobId r = j /\ j <> "")
  /\ (forall j1 j2 r1 r2 k,
        In (j1, r1) (_jobs (store sys)) -> In (j2, r2) (_jobs (store sys)) ->
        k <> "" -> idempotencyKey r1 = Some k -> idempotencyKey r2 = Some k ->
        j1 = j2 /\ r1 = r2).
Proof.
  intros Hrun. pose proof (reachable_Inv _ _ _ Hrun) as HI.
  pose proof (inv_keys _ HI) as Hnd.
  split; [exact Hnd|]. split.
  - intros j r Hin. apply In_dict_get in Hin; [|exact Hnd].
    destruct (inv_record _ HI j r Hin) as (? & _ & _ & ?). auto.
  - intros j1 j2 r1 r2 k H1 H2 Hk Hk1 Hk2.
    apply In_dict_get in H1; [|exact Hnd].
    apply In_dict_get in H2; [|exact Hnd].
    assert (j1 = j2).
    { apply (inv_idempotency _ HI j1 j2 r1 r2); auto; [|congruence].
      rewrite Hk1. unfold truthy.
      destruct (String.eqb_spec k ""); [contradiction|reflexivity]. }
    subst. split; [reflexivity|congruence].
Qed.

(** X12.  No job is left without its background call.  In every state of
    the running service a pending job has a call of [_process_job] that has
    not started yet and a running job has one that is in the executor; and
    the other way round, the job of a call that has not started is pending
    or canceled, the job of a call in the executor is running or canceled,
    if it is still live. *)
Theorem jobs_have_background_calls
  (mktime_strptime : string -> option Z) (evs : list Event) (sys : System)
  (job_id : string) (r : JobRecord) :
  run mktime_strptime initial evs = Some sys ->
  dict_get job_id (_jobs (store sys)) = Some r ->
  (status r = pending -> dict_get job_id (background sys) = Some Scheduled)
  /\ (status r = running ->
      dict_get job_id (background sys) = Some Executing)
  /\ (dict_get job_id (background sys) = Some Scheduled ->
      status r = pending \/ status r = canceled)
  /\ (dict_get job_id (background sys) = Some Executing ->
      status r = running \/ status r = canceled).
Proof.
  intros Hrun Hg. pose proof (reachable_Inv _ _ _ Hrun) as HI.
  pose proof (run_Tracked mktime_strptime evs initial sys Inv_initial
                (Tracked_initial) Hrun) as HT.
  split; [apply (tracked_pending _ HT job_id r Hg)|].
  split; [apply (tracked_running _ HT job_id r Hg)|].
  split; intros Hb; exact (inv_phase _ HI job_id _ r Hb Hg).
Qed.

(** X13.  What never changes in a record.  Between two states of the running
    service in which a job is live, its [jobId], [task], [createdAt] and
    [idempotencyKey] are the same; a start stamp that was set is the same;
    and once [finishedAt] is set the whole record is the same. *)
Theorem record_fields_immutable
  (mktime_strptime : string -> option Z) (evs later : list Event)
  (sys sys' : System) (job_id : string) (r r' : JobRecord) :
  run mktime_strptime initial evs = Some sys ->
  run mktime_strptime sys later = Some sys' ->
  dict_get job_id (_jobs (store sys)) = Some r ->
  dict_get job_id (_jobs (store sys')) = Some r' ->
  jobId r' = jobId r /\ task r' = task r /\ createdAt r' = createdAt r
  /\ idempotencyKey r' = idempotencyKey r
  /\ (startedAt r <> None -> startedAt r' = startedAt r)
  /\ (finishedAt r <> None -> r' = r).
Proof.
  intros Hrun Hlater Hg Hg'. pose proof (reachable_Inv _ _ _ Hrun) as HI.
  destruct (run_descends mktime_strptime later sys sys' job_id r r' HI
              Hlater Hg Hg') as (H1 & H2 & H3 & H4 & _ & Hsame).
  repeat (split; [assumption|]). split.
  - now apply (run_started mktime_strptime later sys sys' job_id r r').
  - intros Hfin. apply Hsame.
    destruct (inv_record _ HI job_id r Hg) as (_ & Hf & _).
    unfold fields_ok in Hf.
    destruct (status r); try reflexivity; destruct Hf as (_ & Hn & _);
      contradiction.
Qed.

(** ** Submission, the execution path and the result *)

Lemma replayed_without_key payload st1 :
  truthy (req_idempotencyKey payload) = false -> replayed payload st1 = None.
Proof.
  unfold replayed, truthy. destruct (req_idempotencyKey payload) as [k|];
    [|reflexivity].
  destruct (String.eqb k ""); [reflexivity|discriminate].
Qed.

(** X14.  A submission without a key always creates a job.  When
    [idempotencyKey] is missing or the empty string, [create_job] stores a
    new pending record under the generated identifier, leaves the index as
    the retention pass built it, answers [pending] with the creation stamp
    as [acceptedAt] and schedules one background call with the image,
    [minScore] and [debugSleepMs] of the request; if the identifier is not
    in use the record goes last in the dict. *)
Theorem submit_without_key_creates
  (mktime_strptime : string -> option Z) (now : Q)
  (stamp job_id rid : string) (payload : JobCreateRequest) (st : Store) :
  req_task payload = "detect-objects" ->
  truthy (req_idempotencyKey payload) = false ->
  let st1 := _cleanup_jobs mktime_strptime now st in
  create_job mktime_strptime now stamp job_id rid payload st =
  ({| _jobs := dict_set job_id (new_record stamp job_id payload) (_jobs st1);
      _jobs_by_idempotency := _jobs_by_idempotency st1 |},
   Ok {| cr_jobId := job_id; cr_status := pending;
         cr_acceptedAt := stamp; cr_requestId := rid |},
   Some (job_id,
         {| det_imageBase64 := req_imageBase64 payload;
            det_minScore := req_minScore payload;
            det_debugSleepMs := req_debugSleepMs payload |}))
  /\ (dict_get job_id (_jobs st1) = None ->
      dict_set job_id (new_record stamp job_id payload) (_jobs st1)
      = _jobs st1 ++ [(job_id, new_record stamp job_id payload)]).
Proof.
  intros Ht Hk st1. split; [|apply dict_set_absent].
  rewrite (create_job_new mktime_strptime now stamp job_id rid payload st Ht
             (replayed_without_key payload _ Hk)).
  fold st1. do 2 f_equal. f_equal.
  unfold index_item, new_record. cbn [snd fst idempotencyKey].
  unfold truthy in *. destruct (req_idempotencyKey payload) as [k|];
    [|reflexivity].
  destruct (String.eqb k ""); [reflexivity|discriminate].
Qed.

(** X15.  Submit, then ask for the status.  After a submission that created
    a job, as long as the store holds at most [JOBS_MAX_ITEMS] records, a
    status request at any later clock reading finds the job: pending, not
    started, not finished, without error, with the identifier and the
    acceptance time of the submit response. *)
Theorem submit_then_status
  (mktime_strptime : string -> option Z) (evs : list Event)
  (sys sys1 : System) (now : Q) (stamp job_id rid : string)
  (payload : JobCreateRequest) (st' : Store) (resp : JobCreateResponse)
  (sched : string * DetectRequest) (now2 : Q) (rid2 : string) :
  run mktime_strptime initial evs = Some sys ->
  step mktime_strptime sys (Submit now stamp job_id rid payload) = Some sys1 ->
  create_job mktime_strptime now stamp job_id rid payload (store sys)
  = (st', Ok resp, Some sched) ->
  (length (_jobs (store sys1)) <= JOBS_MAX_ITEMS)%nat ->
  get_job_status mktime_strptime (cr_jobId resp) now2 rid2 (store sys1)
  = (_cleanup_jobs mktime_strptime now2 (store sys1),
     Ok {| sr_jobId := cr_jobId resp; sr_status := pending;
           sr_task := "detect-objects"; sr_createdAt := cr_acceptedAt resp;
           sr_startedAt := None; sr_finishedAt := None; sr_error := None;
           sr_requestId := rid2 |})
  /\ cr_status resp = pending.
Proof.
  intros Hrun Hstep Hcreate Hlen.
  pose proof (reachable_Inv _ _ _ Hrun) as HI.
  pose proof (step_Inv mktime_strptime sys _ sys1 HI Hstep) as HI1.
  simpl in Hstep.
  destruct (mem_string job_id (issued sys) || String.eqb job_id "")%bool;
    [discriminate|].
  rewrite Hcreate in Hstep. injection Hstep as <-.
  destruct (create_job_cases mktime_strptime now stamp job_id rid payload
              (store sys))
    as [(_ & e & _ & E)|[(_ & r0 & _ & E)|(Ht & _ & ix & E)]];
    rewrite E in Hcreate; try discriminate.
  injection Hcreate as <- <- _. cbn [cr_jobId cr_acceptedAt cr_status].
  split; [|reflexivity].
  cbn [store _jobs] in Hlen.
  assert (Hg : dict_get job_id
                 (_jobs
                    {| _jobs :=
                         dict_set job_id (new_record stamp job_id payload)
                           (_jobs (_cleanup_jobs mktime_strptime now
                                     (store sys)));
                       _jobs_by_idempotency := ix |})
               = Some (new_record stamp job_id payload)).
  { cbn [_jobs]. now rewrite dict_get_set, String.eqb_refl. }
  pose proof (cleanup_keeps mktime_strptime now2 _ job_id _
                (inv_keys _ HI1) Hlen Hg) as Hkeep.
  cbn [store] in Hkeep.
  unfold get_job_status. cbn [store]. rewrite Hkeep.
  unfold ttl_expired, new_record. cbn [status status_in existsb
    JobStatusLiteral_eqb orb andb].
  unfold _to_job_status_response. cbn. now rewrite Ht.
Qed.

(** X16.  Only the named job changes.  For any other identifier, the lookup
    after [cancel_job] or after the first critical section of
    [_process_job] is the lookup after the retention pass alone, and the
    lookup after the second critical section is the lookup before it; none
    of the three touches the index. *)
Theorem only_named_job_changes
  (mktime_strptime : string -> option Z) (job_id other : string) (now : Q)
  (stamp rid : string) (run : Execution) (st : Store) :
  other <> job_id ->
  let st1 := _cleanup_jobs mktime_strptime now st in
  let canceled_st :=
    fst (cancel_job mktime_strptime job_id now stamp rid st) in
  let started_st :=
    fst (_process_job_start mktime_strptime now stamp job_id st) in
  let finished_st := _process_job_finish stamp job_id run st in
  dict_get other (_jobs canceled_st) = dict_get other (_jobs st1)
  /\ dict_get other (_jobs started_st) = dict_get other (_jobs st1)
  /\ dict_get other (_jobs finished_st) = dict_get other (_jobs st)
  /\ _jobs_by_idempotency canceled_st = _jobs_by_idempotency st1
  /\ _jobs_by_idempotency started_st = _jobs_by_idempotency st1
  /\ _jobs_by_idempotency finished_st = _jobs_by_idempotency st.
Proof.
  intros Hne st1 canceled_st started_st finished_st.
  assert (Hset : forall (r : JobRecord) jobs,
            dict_get other (dict_set job_id r jobs) = dict_get other jobs).
  { intros r jobs. rewrite dict_get_set.
    destruct (String.eqb_spec job_id other); [congruence|reflexivity]. }
  subst canceled_st started_st finished_st.
  destruct (cancel_job_cases mktime_strptime job_id now stamp rid st)
    as [(_ & ->)|(r & _ & [(_ & e & _ & ->)|[(_ & ->)|(_ & ->)]])];
  destruct (_process_job_start_cases mktime_strptime now stamp job_id st)
    as [(-> & _)|(r1 & _ & _ & ->)];
  destruct (_process_job_finish_cases stamp job_id run st)
    as [(-> & _)|(r2 & r3 & _ & _ & -> & _)];
  cbn [fst replace_jobs _jobs _jobs_by_idempotency]; fold st1;
  rewrite ?Hset; repeat split; reflexivity.
Qed.

Lemma run_issued (mktime_strptime : string -> option Z) evs :
  forall sys sys' j,
    Inv sys -> run mktime_strptime sys evs = Some sys' ->
    In j (issued sys) -> In j (issued sys').
Proof.
  induction evs as [|ev evs IH]; simpl; intros sys sys' j HI.
  - now intros [= <-].
  - destruct (step mktime_strptime sys ev) as [sys1|] eqn:Hs; [|discriminate].
    intros Hrun Hj. apply (IH sys1 sys' j); auto.
    + eapply step_Inv; eauto.
    + eapply step_issued; eauto.
Qed.

(** X17.  An evicted job never comes back.  When a job that was live in the
    running service is later not in the store, it is in no later state
    either, whatever its background call and the other requests do; both
    critical sections of its background call then leave the store alone
    (the first one only runs the retention pass and does not go on to the
    executor). *)
Theorem evicted_job_stays_gone
  (mktime_strptime : string -> option Z) (evs mid later : list Event)
  (sys sys1 sys2 : System) (job_id : string) (r : JobRecord) :
  run mktime_strptime initial evs = Some sys ->
  dict_get job_id (_jobs (store sys)) = Some r ->
  run mktime_strptime sys mid = Some sys1 ->
  dict_get job_id (_jobs (store sys1)) = None ->
  run mktime_strptime sys1 later = Some sys2 ->
  dict_get job_id (_jobs (store sys2)) = None
  /\ (forall now stamp,
        _process_job_start mktime_strptime now stamp job_id (store sys2)
        = (_cleanup_jobs mktime_strptime now (store sys2), false))
  /\ (forall stamp run,
        _process_job_finish stamp job_id run (store sys2) = store sys2).
Proof.
  intros Hrun Hg Hmid Hgone Hlater.
  pose proof (reachable_Inv _ _ _ Hrun) as HI.
  pose proof (run_Inv mktime_strptime mid sys sys1 HI Hmid) as HI1.
  destruct (inv_record _ HI job_id r Hg) as (_ & _ & Hiss & _).
  pose proof (run_issued mktime_strptime mid sys sys1 job_id HI Hmid Hiss)
    as Hiss1.
  pose proof (run_absent mktime_strptime later sys1 sys2 job_id HI1 Hlater
                Hiss1 Hgone) as Hgone2.
  split; [exact Hgone2|]. split.
  - intros now stamp.
    destruct (_process_job_start_cases mktime_strptime now stamp job_id
                (store sys2)) as [(E & _)|(r1 & Hg1 & _)]; [exact E|].
    apply cleanup_get_Some in Hg1. congruence.
  - intros stamp run.
    destruct (_process_job_finish_cases stamp job_id run (store sys2))
      as [(E & _)|(r1 & r' & Hg1 & _)]; [exact E|congruence].
Qed.

(** X18.  From the executor to the result.  When the executor returns a
    response within the time budget for a job that is live and not
    canceled, the second critical section stores it, and a result request
    at any clock reading at which the job is still live after retention
    answers with exactly that response under the job's identifier. *)
Theorem finish_then_result
  (mktime_strptime : string -> option Z) (stamp job_id : string)
  (run : Execution) (st : Store) (r : JobRecord) (res : DetectResponse)
  (now : Q) (rid : string) :
  dict_get job_id (_jobs st) = Some r ->
  status r <> canceled ->
  outcome run = inl res ->
  (duration run <= JOB_RUN_TIMEOUT_SECONDS)%Q ->
  let st' := _process_job_finish stamp job_id run st in
  dict_get job_id (_jobs (_cleanup_jobs mktime_strptime now st')) <> None ->
  get_job_result mktime_strptime job_id now rid st'
  = (_cleanup_jobs mktime_strptime now st',
     Ok {| rr_jobId := jobId r; rr_objects := objects res;
           rr_modelVersion := modelVersion res;
           rr_latencyMs := latencyMs res;
           rr_requestId := requestId res |}).
Proof.
  intros Hg Hnc Ho Hd st' Hlive.
  assert (Hdone : dict_get job_id (_jobs st') = Some (set_done stamp res r)).
  { subst st'.
    destruct (_process_job_finish_cases stamp job_id run st)
      as [(_ & [Hn|(r1 & Hg1 & Hc)])|(r1 & r' & Hg1 & _ & E & Hr')];
      try congruence.
    assert (r1 = r) by congruence. subst r1. rewrite E.
    cbn [replace_jobs _jobs]. rewrite dict_get_set, String.eqb_refl.
    destruct Hr' as [(res' & Ho' & Hq & ->)|[(res' & Ho' & Hq & ->)
                                            |(exc & Ho' & ->)]];
      try congruence.
    apply Qgtb_lt in Hq. exfalso. eapply Qlt_not_le; eauto. }
  destruct (dict_get job_id (_jobs (_cleanup_jobs mktime_strptime now st')))
    as [r'|] eqn:Hg'; [clear Hlive|congruence].
  pose proof (cleanup_get_Some _ _ _ _ _ Hg') as Hsame.
  assert (r' = set_done stamp res r) by congruence. subst r'.
  unfold get_job_result. rewrite Hg'. reflexivity.
Qed.

Lemma get_job_result_lookup (mktime_strptime : string -> option Z)
  job_id now1 now2 rid st1 st2 :
  dict_get job_id (_jobs (_cleanup_jobs mktime_strptime now1 st1))
  = dict_get job_id (_jobs (_cleanup_jobs mktime_strptime now2 st2)) ->
  snd (get_job_result mktime_strptime job_id now1 rid st1)
  = snd (get_job_result mktime_strptime job_id now2 rid st2).
Proof.
  intros E. unfold get_job_result. rewrite E. clear E.
  destruct (dict_get job_id (_jobs (_cleanup_jobs mktime_strptime now2 st2)))
    as [r|]; [|reflexivity].
  destruct (status r); cbn [JobStatusLiteral_eqb snd]; try reflexivity.
  destruct (result r); reflexivity.
Qed.

(** X19.  The result of a finished job is stable.  Once a job of the running
    service is in a terminal status, every result request made while the
    job is live after retention gets the same answer: the same payload when
    it is done, the same conflict code and message otherwise. *)
Theorem result_is_stable
  (mktime_strptime : string -> option Z) (evs later : list Event)
  (sys sys' : System) (job_id : string) (r : JobRecord)
  (now1 now2 : Q) (rid : string) :
  run mktime_strptime initial evs = Some sys ->
  run mktime_strptime sys later = Some sys' ->
  dict_get job_id (_jobs (_cleanup_jobs mktime_strptime now1 (store sys)))
  = Some r ->
  is_terminal (status r) = true ->
  dict_get job_id (_jobs (_cleanup_jobs mktime_strptime now2 (store sys')))
  <> None ->
  snd (get_job_result mktime_strptime job_id now2 rid (store sys'))
  = snd (get_job_result mktime_strptime job_id now1 rid (store sys)).
Proof.
  intros Hrun Hlater Hg Ht Hlive.
  pose proof (reachable_Inv _ _ _ Hrun) as HI.
  apply get_job_result_lookup. rewrite Hg.
  destruct (dict_get job_id
              (_jobs (_cleanup_jobs mktime_strptime now2 (store sys'))))
    as [r'|] eqn:Hg'; [clear Hlive|congruence].
  apply cleanup_get_Some in Hg, Hg'.
  destruct (run_descends mktime_strptime later sys sys' job_id r r' HI
              Hlater Hg Hg') as (_ & _ & _ & _ & _ & Hsame).
  now rewrite (Hsame Ht).
Qed.

(** * Object detection *)

Lemma python_min_spec l : forall a,
  In (python_min a l) (a :: l)
  /\ Forall (fun v => (python_min a l <= v)%Z) (a :: l).
Proof.
  unfold python_min.
  induction l as [|b l IH]; intros a; simpl.
  - split; [now left|]. constructor; [lia|constructor].
  - destruct (IH (Z.min a b)) as [Hin Hall].
    inversion Hall as [|? ? Hm Hl]; subst. split.
    + destruct Hin as [Hin|Hin]; [|now right; right].
      rewrite <- Hin. destruct (Z.min_spec a b) as [[_ ->]|[_ ->]]; auto.
    + constructor; [lia|]. constructor; [lia|exact Hl].
Qed.

Lemma python_max_spec l : forall a,
  In (python_max a l) (a :: l)
  /\ Forall (fun v => (v <= python_max a l)%Z) (a :: l).
Proof.
  unfold python_max.
  induction l as [|b l IH]; intros a; simpl.
  - split; [now left|]. constructor; [lia|constructor].
  - destruct (IH (Z.max a b)) as [Hin Hall].
    inversion Hall as [|? ? Hm Hl]; subst. split.
    + destruct Hin as [Hin|Hin]; [|now right; right].
      rewrite <- Hin. destruct (Z.max_spec a b) as [[_ ->]|[_ ->]]; auto.
    + constructor; [lia|]. constructor; [lia|exact Hl].
Qed.

Lemma edge_points_In edges px py :
  In (px, py) (edge_points edges)
  <-> exists col row,
        px = Z.of_nat col /\ py = Z.of_nat row
        /\ (col < fst (size edges))%nat /\ (row < snd (size edges))%nat
        /\ (threshold <= pixels edges col row)%Z.
Proof.
  unfold edge_points. rewrite in_flat_map. split.
  - intros (row & Hrow & Hin). apply in_flat_map in Hin.
    destruct Hin as (col & Hcol & Hin).
    apply in_seq in Hrow, Hcol.
    destruct (threshold <=? pixels edges col row)%Z eqn:Hp; [|contradiction].
    destruct Hin as [[= <- <-]|[]].
    exists col, row. apply Z.leb_le in Hp. repeat split; auto; lia.
  - intros (col & row & -> & -> & Hc & Hr & Hp).
    exists row. split; [apply in_seq; lia|].
    apply in_flat_map. exists col. split; [apply in_seq; lia|].
    apply Z.leb_le in Hp. rewrite Hp. now left.
Qed.

Lemma Qltb_lt a b : Qltb a b = true <-> a < b.
Proof.
  unfold Qltb. rewrite negb_true_iff. split.
  - intros H. apply Qnot_le_lt. intros Hle.
    apply Qle_bool_iff in Hle. congruence.
  - intros H. destruct (Qle_bool b a) eqn:E; [|reflexivity].
    apply Qle_bool_iff in E. exfalso. eapply Qlt_not_le; eauto.
Qed.

Lemma Qltb_ge a b : Qltb a b = false <-> b <= a.
Proof.
  unfold Qltb. rewrite negb_false_iff. apply Qle_bool_iff.
Qed.

Lemma clamp_range lo hi v :
  lo <= hi -> lo <= max_float lo (min_float hi v) <= hi.
Proof.
  intros Hlh. unfold max_float, min_float.
  destruct (Qltb v hi) eqn:E1.
  - apply Qltb_lt in E1.
    destruct (Qgtb v lo) eqn:E2.
    + apply Qgtb_lt in E2. split; apply Qlt_le_weak; assumption.
    + split; [apply Qle_refl|exact Hlh].
  - destruct (Qgtb hi lo) eqn:E2.
    + split; [exact Hlh|apply Qle_refl].
    + split; [apply Qle_refl|exact Hlh].
Qed.

Lemma float_bounds_ordered : to_float (35 # 100) <= to_float (95 # 100).
Proof. vm_compute. discriminate. Qed.

(** Rounding to the nearest integer stays within half a unit. *)
Lemma round_half_even_above (k : Z) (v : Q) :
  inject_Z k - (1 # 2) < v -> (k <= round_half_even v)%Z.
Proof.
  unfold Qlt, Qminus, Qplus, Qopp, round_half_even. destruct v as [n d].
  cbn [Qnum Qden inject_Z]. intros H.
  change (Z.pos (1 * 2)) with 2%Z in H.
  assert (Hd : (0 < Z.pos d)%Z) by lia.
  pose proof (Z.div_mod n (Z.pos d) ltac:(lia)) as Hdm.
  pose proof (Z.mod_pos_bound n (Z.pos d) Hd) as Hm.
  set (q := (n / Z.pos d)%Z) in *. set (r := (n mod Z.pos d)%Z) in *.
  clearbody q r.
  assert (F1 : (k <= q + 1)%Z).
  { assert (F : (2 * k * Z.pos d < (2 * q + 3) * Z.pos d)%Z) by lia.
    apply Z.mul_lt_mono_pos_r in F; lia. }
  assert (F2 : (2 * r <= Z.pos d -> k <= q)%Z).
  { intros Hr.
    assert (F : (2 * k * Z.pos d < (2 * q + 2) * Z.pos d)%Z) by lia.
    apply Z.mul_lt_mono_pos_r in F; lia. }
  destruct (2 * r ?= Z.pos d)%Z eqn:C.
  - apply Z.compare_eq in C. specialize (F2 ltac:(lia)).
    destruct (Z.even q); lia.
  - rewrite Z.compare_lt_iff in C. apply F2. lia.
  - exact F1.
Qed.

Lemma round_half_even_below (k : Z) (v : Q) :
  v < inject_Z k + (1 # 2) -> (round_half_even v <= k)%Z.
Proof.
  unfold Qlt, Qplus, round_half_even. destruct v as [n d].
  cbn [Qnum Qden inject_Z]. intros H.
  change (Z.pos (1 * 2)) with 2%Z in H.
  assert (Hd : (0 < Z.pos d)%Z) by lia.
  pose proof (Z.div_mod n (Z.pos d) ltac:(lia)) as Hdm.
  pose proof (Z.mod_pos_bound n (Z.pos d) Hd) as Hm.
  set (q := (n / Z.pos d)%Z) in *. set (r := (n mod Z.pos d)%Z) in *.
  clearbody q r.
  assert (F1 : (q <= k)%Z).
  { assert (F : (2 * q * Z.pos d < (2 * k + 1) * Z.pos d)%Z) by lia.
    apply Z.mul_lt_mono_pos_r in F; lia. }
  assert (F2 : (Z.pos d <= 2 * r -> q + 1 <= k)%Z).
  { intros Hr.
    assert (F : ((2 * q + 1) * Z.pos d < (2 * k + 1) * Z.pos d)%Z) by lia.
    apply Z.mul_lt_mono_pos_r in F; lia. }
  destruct (2 * r ?= Z.pos d)%Z eqn:C.
  - apply Z.compare_eq in C. specialize (F2 ltac:(lia)).
    destruct (Z.even q); lia.
  - exact F1.
  - rewrite Z.compare_gt_iff in C. specialize (F2 ltac:(lia)). lia.
Qed.

(** The decimal rounding of a clamped score is a number of thousandths
    between 350 and 950. *)
Lemma score_thousandths v :
  to_float (35 # 100) <= v <= to_float (95 # 100) ->
  (350 <= round_half_even (v * inject_Z 1000) <= 950)%Z.
Proof.
  intros [Hlo Hhi].
  assert (L : 699 # 2000 < to_float (35 # 100)) by (vm_compute; reflexivity).
  assert (U : to_float (95 # 100) < 1901 # 2000) by (vm_compute; reflexivity).
  change (inject_Z 1000) with 1000.
  split.
  - apply round_half_even_above. change (inject_Z 350) with 350. lra.
  - apply round_half_even_below. change (inject_Z 950) with 950. lra.
Qed.

(** The floats nearest to the thousandths from 0.350 to 0.950 lie between
    the floats 0.35 and 0.95 (checked one by one). *)
Lemma thousandth_float_range (k : Z) :
  (350 <= k <= 950)%Z ->
  to_float (35 # 100) <= to_float (k # 1000) <= to_float (95 # 100).
Proof.
  intros Hk.
  assert (Hall : forallb
                   (fun i : nat =>
                      Qle_bool (to_float (35 # 100))
                        (to_float (Z.of_nat i # 1000))
                      && Qle_bool (to_float (Z.of_nat i # 1000))
                           (to_float (95 # 100)))
                   (seq 350 601) = true) by (vm_compute; reflexivity).
  rewrite forallb_forall in Hall.
  assert (Hin : In (Z.to_nat k) (seq 350 601)) by (apply in_seq; lia).
  specialize (Hall _ Hin). rewrite Z2Nat.id in Hall by lia.
  apply andb_true_iff in Hall. destruct Hall as [H1 H2].
  split; apply Qle_bool_iff; assumption.
Qed.

Section DetectionProperties.
Variable Image : Type.
Variable find_edges : Image -> EdgeImage.
Variable b64decode : string -> string + string.
Variable Image_open : string -> Image + string.
Variable sleep : Q -> option string.

(** What a reported object is made of: the extremes of the edge pixels. *)
Lemma _heuristic_detect_cases image min_score :
  _heuristic_detect Image find_edges image min_score = []
  \/ exists xmin xmax ymin ymax score0,
       _heuristic_detect Image find_edges image min_score
       = [ {| x := inject_Z xmin; y := inject_Z ymin;
              width := inject_Z (Z.max 1 (xmax - xmin));
              height := inject_Z (Z.max 1 (ymax - ymin));
              label := "foreground"; score := python_round score0 3 |} ]
       /\ In xmin (map fst (edge_points (find_edges image)))
       /\ In xmax (map fst (edge_points (find_edges image)))
       /\ In ymin (map snd (edge_points (find_edges image)))
       /\ In ymax (map snd (edge_points (find_edges image)))
       /\ (forall p, In p (edge_points (find_edges image)) ->
             (xmin <= fst p <= xmax)%Z /\ (ymin <= snd p <= ymax)%Z)
       /\ to_float (35 # 100) <= score0 <= to_float (95 # 100)
       /\ Qltb score0 min_score = false.
Proof.
  unfold _heuristic_detect.
  destruct (edge_points (find_edges image)) as [|p pts] eqn:Hpts;
    [left; reflexivity|].
  cbn [map].
  set (xs' := map fst pts). set (ys' := map snd pts).
  match goal with
  | |- context [Qltb ?s min_score] => set (score0 := s)
  end.
  destruct (Qltb score0 min_score) eqn:Hs; [left; reflexivity|].
  right.
  exists (python_min (fst p) xs'), (python_max (fst p) xs'),
         (python_min (snd p) ys'), (python_max (snd p) ys'), score0.
  destruct (python_min_spec xs' (fst p)) as [Hxi Hxa].
  destruct (python_max_spec xs' (fst p)) as [HXi HXa].
  destruct (python_min_spec ys' (snd p)) as [Hyi Hya].
  destruct (python_max_spec ys' (snd p)) as [HYi HYa].
  repeat split; auto.
  - rewrite Forall_forall in Hxa. apply Hxa.
    change (In (fst p0) (map fst (p :: pts))). now apply in_map.
  - rewrite Forall_forall in HXa. apply HXa.
    change (In (fst p0) (map fst (p :: pts))). now apply in_map.
  - rewrite Forall_forall in Hya. apply Hya.
    change (In (snd p0) (map snd (p :: pts))). now apply in_map.
  - rewrite Forall_forall in HYa. apply HYa.
    change (In (snd p0) (map snd (p :: pts))). now apply in_map.
  - subst score0.
    exact (proj1 (clamp_range (to_float (35 # 100)) (to_float (95 # 100)) _
                    float_bounds_ordered)).
  - subst score0.
    exact (proj2 (clamp_range (to_float (35 # 100)) (to_float (95 # 100)) _
                    float_bounds_ordered)).
Qed.

End DetectionProperties.

Lemma split_comma_first before encoded :
  ~ In ","%char (list_ascii_of_string before) ->
  split_comma (before ++ String "," encoded) = Some (before, encoded).
Proof.
  induction before as [|c before IH]; simpl; intros Hn.
  - reflexivity.
  - destruct (Ascii.eqb_spec c ","%char) as [->|_]; [tauto|].
    rewrite IH; [reflexivity|tauto].
Qed.

Lemma split_comma_None data_url :
  ~ In ","%char (list_ascii_of_string data_url) ->
  split_comma data_url = None.
Proof.
  induction data_url as [|c rest IH]; simpl; intros Hn.
  - reflexivity.
  - destruct (Ascii.eqb_spec c ","%char) as [->|_]; [tauto|].
    rewrite IH; [reflexivity|tauto].
Qed.

Section DetectionTheorems.
Variable Image : Type.
Variable find_edges : Image -> EdgeImage.
Variable b64decode : string -> string + string.
Variable Image_open : string -> Image + string.
Variable sleep : Q -> option string.

(** X20.  Only the text after the first comma of a data URL is decoded.
    Whatever stands before the first comma (the media type; it is not
    inspected), and whatever further commas follow, the base64 decoder gets
    exactly the rest, and its result or its exception is that of
    [_decode_data_url]. *)
Theorem decode_data_url_after_first_comma (before encoded : string) :
  ~ In ","%char (list_ascii_of_string before) ->
  _decode_data_url b64decode (before ++ String "," encoded)
  = b64decode encoded.
Proof.
  intros Hn. unfold _decode_data_url.
  now rewrite split_comma_first.
Qed.

(** X21.  A payload that is not a data URL is refused before any decoding.
    When [imageBase64] holds no comma and the debug delay, if one is asked
    for, returns, [POST /detect/objects] answers 400 with the code
    [invalid_image_payload], the message
    [invalid image payload: invalid data URL] and the stage in the details,
    whatever the base64 decoder and the image library would do. *)
Theorem detect_objects_rejects_plain_text
  (payload : DetectRequest) (elapsed : Q) (rid : string) :
  ~ In ","%char (list_ascii_of_string (det_imageBase64 payload)) ->
  ((det_debugSleepMs payload <= 0)%Z
   \/ sleep (inject_Z (det_debugSleepMs payload) / 1000) = None) ->
  detect_objects Image find_edges b64decode Image_open sleep payload elapsed
    rid
  = HTTPException 400
      {| code := "invalid_image_payload";
         message := "invalid image payload: invalid data URL";
         err_requestId := rid;
         details := [("stage", JStr "decode_or_open")] |}.
Proof.
  intros Hn Hs. unfold detect_objects, _run_detect, _decode_data_url.
  rewrite (split_comma_None _ Hn).
  destruct (0 <? det_debugSleepMs payload)%Z eqn:Hz.
  - apply Z.ltb_lt in Hz. destruct Hs as [Hs|Hs]; [lia|].
    rewrite Hs. reflexivity.
  - reflexivity.
Qed.

(** X22.  A job whose payload is not a data URL ends as failed.  When the
    job is live and not canceled as its executor call ends, the payload
    holds no comma and the debug delay returns, the second critical section
    of [_process_job] records the status [failed] with the error
    [invalid data URL] and the finishing stamp, however long the call took,
    and keeps every other field of the record. *)
Theorem job_with_plain_text_fails
  (payload : DetectRequest) (elapsed_s elapsed : Q) (rid stamp job_id : string)
  (st : Store) (r : JobRecord) :
  ~ In ","%char (list_ascii_of_string (det_imageBase64 payload)) ->
  ((det_debugSleepMs payload <= 0)%Z
   \/ sleep (inject_Z (det_debugSleepMs payload) / 1000) = None) ->
  dict_get job_id (_jobs st) = Some r ->
  status r <> canceled ->
  dict_get job_id
    (_jobs (_process_job_finish stamp job_id
              (executed Image find_edges b64decode Image_open sleep payload
                 elapsed_s elapsed rid) st))
  = Some {| jobId := jobId r; status := failed; task := task r;
            createdAt := createdAt r; startedAt := startedAt r;
            finishedAt := Some stamp; error := Some "invalid data URL";
            result := result r; idempotencyKey := idempotencyKey r |}.
Proof.
  intros Hn Hs Hg Hc.
  assert (Ho : outcome (executed Image find_edges b64decode Image_open sleep
                          payload elapsed_s elapsed rid)
               = inr "invalid data URL").
  { unfold executed, _run_detect, _decode_data_url. cbn [outcome].
    rewrite (split_comma_None _ Hn).
    destruct (0 <? det_debugSleepMs payload)%Z eqn:Hz; [|reflexivity].
    apply Z.ltb_lt in Hz. destruct Hs as [Hs|Hs]; [lia|].
    rewrite Hs. reflexivity. }
  unfold _process_job_finish. rewrite Ho, Hg.
  destruct (JobStatusLiteral_eqb_spec (status r) canceled) as [E|_];
    [contradiction|].
  cbn [replace_jobs _jobs]. rewrite dict_get_set, String.eqb_refl.
  reflexivity.
Qed.

(** X23.  The reported box lies inside the image and holds every edge pixel.
    An object reported by [_heuristic_detect] starts at non-negative
    coordinates, is at least one pixel wide and high, ends within the width
    and the height of the image, and every pixel of the edge image at or over
    the threshold lies between its left and right and between its top and
    bottom sides. *)
Theorem heuristic_detect_box (image : Image) (min_score : Q)
  (o : DetectedObject) :
  In o (_heuristic_detect Image find_edges image min_score) ->
  let edges := find_edges image in
  (0 <= x o /\ 0 <= y o /\ 1 <= width o /\ 1 <= height o
   /\ x o + width o <= inject_Z (Z.of_nat (fst (size edges)))
   /\ y o + height o <= inject_Z (Z.of_nat (snd (size edges))))
  /\ forall col row,
       (col < fst (size edges))%nat -> (row < snd (size edges))%nat ->
       (threshold <= pixels edges col row)%Z ->
       x o <= inject_Z (Z.of_nat col) <= x o + width o
       /\ y o <= inject_Z (Z.of_nat row) <= y o + height o.
Proof.
  intros Hin edges.
  destruct (_heuristic_detect_cases Image find_edges image min_score)
    as [E|(xmin & xmax & ymin & ymax & s & E & Hx & HX & Hy & HY & Hall & _)];
    rewrite E in Hin; [contradiction|].
  destruct Hin as [<-|[]]. cbn [x y width height].
  assert (Hcoord : forall p, In p (edge_points edges) ->
            (0 <= fst p < Z.of_nat (fst (size edges)))%Z
            /\ (0 <= snd p < Z.of_nat (snd (size edges)))%Z).
  { intros [px py] Hp. apply edge_points_In in Hp.
    destruct Hp as (col & row & -> & -> & Hc & Hr & _). simpl. lia. }
  apply in_map_iff in Hx, HX, Hy, HY.
  destruct Hx as (p1 & <- & Hp1). destruct HX as (p2 & <- & Hp2).
  destruct Hy as (p3 & <- & Hp3). destruct HY as (p4 & <- & Hp4).
  pose proof (Hcoord _ Hp1) as [B1 _]. pose proof (Hcoord _ Hp2) as [B2 _].
  pose proof (Hcoord _ Hp3) as [_ B3]. pose proof (Hcoord _ Hp4) as [_ B4].
  pose proof (Hall _ Hp2) as [[L1 _] _].
  pose proof (Hall _ Hp4) as [_ [L2 _]].
  change 0 with (inject_Z 0). change 1 with (inject_Z 1).
  rewrite <- !inject_Z_plus, <- !Zle_Qle.
  split; [repeat split; lia|].
  intros col row Hc Hr Hp.
  assert (Hpt : In (Z.of_nat col, Z.of_nat row) (edge_points edges)).
  { apply edge_points_In. exists col, row. auto. }
  destruct (Hall _ Hpt) as [Hxx Hyy]. cbn [fst snd] in Hxx, Hyy.
  rewrite <- !Zle_Qle. lia.
Qed.

(** X24.  At most one object, labelled [foreground], with a score of three
    decimals between 0.35 and 0.95.  In binary floating point, as the code
    computes it: the reported score is the float nearest to a number of
    thousandths from 0.350 to 0.950, and it lies between the floats that the
    literals [0.35] and [0.95] denote (the first of which is slightly below
    35/100). *)
Theorem heuristic_detect_score (image : Image) (min_score : Q) :
  (length (_heuristic_detect Image find_edges image min_score) <= 1)%nat
  /\ forall o, In o (_heuristic_detect Image find_edges image min_score) ->
       label o = "foreground"
       /\ (exists k, (350 <= k <= 950)%Z /\ score o = to_float (k # 1000))
       /\ to_float (35 # 100) <= score o <= to_float (95 # 100).
Proof.
  destruct (_heuristic_detect_cases Image find_edges image min_score)
    as [E|(xmin & xmax & ymin & ymax & s & E & _ & _ & _ & _ & _ & Hs & _)];
    rewrite E; simpl.
  - split; [lia|tauto].
  - split; [lia|]. intros o [<-|[]]. cbn [label score].
    split; [reflexivity|].
    pose proof (score_thousandths s Hs) as Hk.
    unfold python_round.
    change (10 ^ Z.of_nat 3)%Z with 1000%Z.
    change (Z.to_pos 1000) with 1000%positive.
    split; [eexists; split; [exact Hk|reflexivity]|].
    now apply thousandth_float_range.
Qed.

(** X25.  With a threshold of at most 0.35 (the default [minScore]) nothing
    is filtered: an object is reported exactly when some pixel of the edge
    image reaches the brightness threshold.  The threshold is a float, so
    that it is at most 0.35 means that it is at most the float that the
    literal [0.35] denotes. *)
Theorem heuristic_detect_default_threshold (image : Image) (min_score : Q) :
  min_score <= to_float (35 # 100) ->
  _heuristic_detect Image find_edges image min_score <> []
  <-> exists col row,
        (col < fst (size (find_edges image)))%nat
        /\ (row < snd (size (find_edges image)))%nat
        /\ (threshold <= pixels (find_edges image) col row)%Z.
Proof.
  intros Hm. split.
  - intros Hne.
    destruct (_heuristic_detect_cases Image find_edges image min_score)
      as [E|(xmin & xmax & ymin & ymax & s & E & Hx & _)]; [contradiction|].
    apply in_map_iff in Hx. destruct Hx as ([px py] & _ & Hp).
    apply edge_points_In in Hp.
    destruct Hp as (col & row & _ & _ & Hc & Hr & Hp). eauto.
  - intros (col & row & Hc & Hr & Hp).
    assert (Hpt : In (Z.of_nat col, Z.of_nat row)
                    (edge_points (find_edges image))).
    { apply edge_points_In. exists col, row. auto. }
    unfold _heuristic_detect.
    destruct (edge_points (find_edges image)) as [|p pts]; [contradiction|].
    cbn [map].
    match goal with
    | |- context [Qltb ?s min_score] =>
        assert (Hq : Qltb s min_score = false)
    end.
    { apply Qltb_ge. eapply Qle_trans; [exact Hm|].
      exact (proj1 (clamp_range (to_float (35 # 100)) (to_float (95 # 100))
                      _ float_bounds_ordered)). }
    rewrite Hq. discriminate.
Qed.

End DetectionTheorems.

(** * The rate limiter *)

Lemma rate_limit_cases client now times :
  (exists last_time,
     dict_get (client_ip client) times = Some last_time
     /\ now - last_time < RATE_LIMIT
     /\ rate_limit client now times
        = (times, inr (429%Z, "Too Many Requests")))
  \/ ((forall last_time,
         dict_get (client_ip client) times = Some last_time ->
         last_time + RATE_LIMIT <= now)
      /\ rate_limit client now times
         = (dict_set (client_ip client) now times, inl tt)).
Proof.
  unfold rate_limit.
  destruct (dict_get (client_ip client) times) as [last|] eqn:Hg.
  - destruct (Qltb (now - last) RATE_LIMIT) eqn:Hq.
    + left. exists last. apply Qltb_lt in Hq. auto.
    + right. split; [|reflexivity]. intros l [= <-].
      apply Qltb_ge in Hq. unfold RATE_LIMIT in *.
      apply Qplus_le_l with (z := - last).
      rewrite <- Qplus_assoc, (Qplus_comm 1), Qplus_assoc, Qplus_opp_r,
        Qplus_0_l.
      exact Hq.
  - right. split; [discriminate|reflexivity].
Qed.

Lemma admitted_spaced requests : forall times,
  ForallOrdPairs
    (fun a b => fst a = fst b -> snd a + RATE_LIMIT <= snd b)
    (admitted requests times)
  /\ Forall
       (fun a => forall last_time,
          dict_get (fst a) times = Some last_time ->
          last_time + RATE_LIMIT <= snd a)
       (admitted requests times).
Proof.
  induction requests as [|[client now] rest IH]; intros times; simpl.
  - split; constructor.
  - destruct (rate_limit_cases client now times)
      as [(last & _ & _ & ->)|(Hfirst & ->)].
    + apply IH.
    + destruct (IH (dict_set (client_ip client) now times)) as [Hpairs Hall].
      rewrite Forall_forall in Hall.
      split.
      * constructor; [|exact Hpairs].
        apply Forall_forall. intros b Hb Hip. cbn [fst snd] in *.
        apply (Hall b Hb). rewrite dict_get_set, <- Hip, String.eqb_refl.
        reflexivity.
      * constructor; [exact Hfirst|].
        apply Forall_forall. intros b Hb last Hlast.
        pose proof (Hall b Hb) as Hb'. rewrite dict_get_set in Hb'.
        destruct (String.eqb_spec (client_ip client) (fst b)) as [E|E].
        -- rewrite <- E in Hlast. pose proof (Hfirst _ Hlast) as H1.
           pose proof (Hb' _ eq_refl) as H2.
           apply Qle_trans with (y := now); [exact H1|].
           apply Qle_trans with (y := now + RATE_LIMIT); [|exact H2].
           rewrite <- (Qplus_0_r now) at 1.
           apply Qplus_le_r. unfold RATE_LIMIT, Qle; simpl; lia.
        -- apply Hb'. exact Hlast.
Qed.

(** X26.  Admitted requests of one address are at least [RATE_LIMIT] apart.
    Of the requests of any sequence served from any state of the limiter,
    two that passed and are counted under the same address (the client host,
    or [anonymous]) have clock readings at least one second apart, the later
    request having the larger one; no assumption is made on the clock.
    Clock readings are exact rationals here. *)
Theorem rate_limit_spacing (requests : list (option string * Q))
  (_request_times : list (string * Q)) :
  ForallOrdPairs
    (fun a b => fst a = fst b -> snd a + RATE_LIMIT <= snd b)
    (admitted requests _request_times).
Proof.
  apply admitted_spaced.
Qed.

Lemma served_cons client now rest times :
  served ((client, now) :: rest) times
  = served rest (fst (rate_limit client now times)).
Proof. reflexivity. Qed.

(** X27.  The limiter remembers the last admitted request of every address.
    After any sequence of requests served from the empty state, the time
    stored for an address is the clock reading of a request of that address
    that passed, and every request of that address that passed has a clock
    reading no later than it; an address is stored exactly when it made a
    request, so every address that made a request had one admitted. *)
Theorem rate_limit_remembers_last (requests : list (option string * Q))
  (ip : string) :
  match dict_get ip (served requests []) with
  | Some last_time =>
      In (ip, last_time) (admitted requests [])
      /\ forall t, In (ip, t) (admitted requests []) -> t <= last_time
  | None => forall client now, In (client, now) requests -> client_ip client <> ip
  end.
Proof.
  assert (G : forall times,
    match dict_get ip (served requests times) with
    | Some last_time =>
        (In (ip, last_time) (admitted requests times)
         \/ (dict_get ip times = Some last_time
             /\ forall t, ~ In (ip, t) (admitted requests times)))
        /\ forall t, In (ip, t) (admitted requests times) -> t <= last_time
    | None =>
        dict_get ip times = None
        /\ forall client now, In (client, now) requests ->
             client_ip client <> ip
    end).
  { induction requests as [|[client now] rest IH]; intros times.
    - simpl. destruct (dict_get ip times) as [l|]; [|tauto].
      split; [right; tauto|tauto].
    - rewrite served_cons. cbn [admitted].
      specialize (IH (fst (rate_limit client now times))).
      destruct (rate_limit_cases client now times)
        as [(last & Hl & _ & E)|(Hfirst & E)]; rewrite E in *; cbn [fst] in *.
      + destruct (dict_get ip (served rest times)) as [l|].
        * exact IH.
        * destruct IH as [Hn Hrest]. split; [exact Hn|].
          intros c n [[= <- <-]|Hin]; [congruence|eauto].
      + destruct (dict_get ip
                    (served rest (dict_set (client_ip client) now times)))
          as [l|].
        * destruct IH as [Hlast Hmax].
          rewrite dict_get_set in Hlast.
          destruct (String.eqb_spec (client_ip client) ip) as [Eip|Eip].
          -- split.
             ++ left. destruct Hlast as [Hin|[[= <-] Hnone]];
                  [now right|now left; rewrite Eip].
             ++ intros t [[= _ <-]|Hin]; [|now apply Hmax].
                destruct Hlast as [Hin|[[= <-] _]]; [|apply Qle_refl].
                destruct (admitted_spaced rest
                            (dict_set (client_ip client) now times))
                  as [_ Hall].
                rewrite Forall_forall in Hall.
                specialize (Hall _ Hin now). cbn [fst snd] in Hall.
                rewrite dict_get_set, Eip, String.eqb_refl in Hall.
                specialize (Hall eq_refl).
                apply Qle_trans with (y := now + RATE_LIMIT); [|exact Hall].
                rewrite <- (Qplus_0_r now) at 1.
                apply Qplus_le_r. unfold RATE_LIMIT, Qle; simpl; lia.
          -- split.
             ++ destruct Hlast as [Hin|[Hg Hnone]]; [left; now right|].
                right. split; [exact Hg|].
                intros t [[= E' _]|Hin]; [congruence|eapply Hnone; eauto].
             ++ intros t [[= E' _]|Hin]; [congruence|now apply Hmax].
        * destruct IH as [Hn Hrest]. rewrite dict_get_set in Hn.
          destruct (String.eqb_spec (client_ip client) ip) as [Eip|Eip];
            [discriminate|].
          split; [exact Hn|].
          intros c n [[= <- <-]|Hin]; [exact Eip|eauto]. }
  specialize (G []). simpl in G.
  destruct (dict_get ip (served requests [])) as [l|].
  - destruct G as [[Hin|[[=] _]] Hmax]. split; assumption.
  - apply G.
Qed.

(** * Further scenarios *)

Lemma three_jobs_NoDup :
  NoDup (dict_keys (_jobs (store (after utc three_jobs_run)))).
Proof.
  vm_compute. repeat (constructor; [simpl; intuition discriminate|]).
  constructor.
Qed.

Lemma retention_capacity_witness :
  NoDup (dict_keys (_jobs (store (after utc three_jobs_run))))
  /\ _jobs (_cleanup_jobs utc 1700000003 (store (after utc three_jobs_run)))
     = filter
         (fun item => negb (ttl_expired utc 1700000003 (snd item)))
         (_jobs (store (after utc three_jobs_run))).
Proof.
  split; [exact three_jobs_NoDup|].
  apply (proj1 (retention_capacity utc 1700000003
                  (store (after utc three_jobs_run)) three_jobs_NoDup)).
  vm_compute. lia.
Defined.

Lemma retention_index_witness :
  run utc initial three_jobs_run = Some (after utc three_jobs_run)
  /\ dict_get ""
       (_jobs_by_idempotency
          (_cleanup_jobs utc 1700000003 (store (after utc three_jobs_run))))
     = None.
Proof.
  split; [reflexivity|].
  exact (proj1 (retention_index utc three_jobs_run
                  (after utc three_jobs_run) 1700000003 eq_refl)).
Defined.

Lemma retention_ttl_criterion_witness :
  NoDup (dict_keys (_jobs (store (after utc three_jobs_run))))
  /\ (length (_jobs (store (after utc three_jobs_run))) <= JOBS_MAX_ITEMS)%nat
  /\ dict_get "job-2" (_jobs (store (after utc three_jobs_run)))
     = Some keyed_record
  /\ dict_get "job-2"
       (_jobs (_cleanup_jobs utc 1700000003
                 (store (after utc three_jobs_run))))
     = Some keyed_record.
Proof.
  assert (Hlen : (length (_jobs (store (after utc three_jobs_run)))
                  <= JOBS_MAX_ITEMS)%nat) by (vm_compute; lia).
  split; [exact three_jobs_NoDup|]. split; [exact Hlen|].
  split; [reflexivity|].
  apply (proj2 (retention_ttl_criterion utc 1700000003
                  (store (after utc three_jobs_run)) "job-2" keyed_record
                  three_jobs_NoDup Hlen eq_refl)).
  intros [Ht _]. discriminate Ht.
Defined.

Lemma get_job_status_contract_witness :
  run utc initial three_jobs_run = Some (after utc three_jobs_run)
  /\ snd (get_job_status utc "job-2" 1700000003 "req-9"
            (store (after utc three_jobs_run)))
     = Ok {| sr_jobId := "job-2"; sr_status := pending;
             sr_task := "detect-objects"; sr_createdAt := stamp1;
             sr_startedAt := None; sr_finishedAt := None; sr_error := None;
             sr_requestId := "req-9" |}.
Proof.
  split; [reflexivity|].
  exact (proj1 (proj2 (proj2 (get_job_status_contract utc three_jobs_run
                                (after utc three_jobs_run) "job-2"
                                1700000003 "req-9" eq_refl))
                  keyed_record eq_refl)).
Defined.

Lemma list_jobs_page_shape_witness :
  (1 <= 2 <= 100)%Z
  /\ cursor_offset (Some "1") = Some 1%Z
  /\ exists page,
       snd (list_jobs utc None 2 (Some "1") 1700000003 "req-9"
              (store (after utc three_jobs_run))) = Ok page
       /\ length (items page) = 2%nat.
Proof.
  assert (Hl : (1 <= 2 <= 100)%Z) by lia.
  split; [exact Hl|]. split; [reflexivity|].
  destruct (list_jobs_page_shape utc None 2 (Some "1") 1 1700000003 "req-9"
              (store (after utc three_jobs_run)) Hl eq_refl)
    as (page & E & Hlen & _).
  exists page. split; [exact E|]. rewrite Hlen. reflexivity.
Defined.

Lemma list_walk_any_limit_witness :
  (1 <= 2 <= 100)%Z
  /\ (length
        (listed_records utc None
           (_jobs (_cleanup_jobs utc 1700000003
                     (store (after utc three_jobs_run)))))
      < 3 * Z.to_nat 2)%nat
  /\ concat
       (map items
          (follow_cursors utc 3 None 2 None 1700000003 "req-9"
             (store (after utc three_jobs_run))))
     = map to_list_item
         (listed_records utc None
            (_jobs (_cleanup_jobs utc 1700000003
                      (store (after utc three_jobs_run))))).
Proof.
  assert (Hl : (1 <= 2 <= 100)%Z) by lia.
  assert (Hf : (length
                  (listed_records utc None
                     (_jobs (_cleanup_jobs utc 1700000003
                               (store (after utc three_jobs_run)))))
                < 3 * Z.to_nat 2)%nat) by (vm_compute; lia).
  split; [exact Hl|]. split; [exact Hf|].
  exact (proj1 (list_walk_any_limit utc None 2 1700000003 "req-9" 3
                  (store (after utc three_jobs_run)) Hl Hf)).
Defined.

Lemma index_always_rebuilt_witness :
  run utc initial three_jobs_run = Some (after utc three_jobs_run)
  /\ _jobs_by_idempotency (store (after utc three_jobs_run))
     = rebuild_index (_jobs (store (after utc three_jobs_run))).
Proof.
  split; [reflexivity|].
  exact (proj1 (index_always_rebuilt utc three_jobs_run
                  (after utc three_jobs_run) eq_refl)).
Defined.

Lemma live_records_identified_witness :
  run utc initial three_jobs_run = Some (after utc three_jobs_run)
  /\ NoDup (dict_keys (_jobs (store (after utc three_jobs_run)))).
Proof.
  split; [reflexivity|].
  exact (proj1 (live_records_identified utc three_jobs_run
                  (after utc three_jobs_run) eq_refl)).
Defined.

Lemma jobs_have_background_calls_witness :
  run utc initial running_run = Some (after utc running_run)
  /\ dict_get "job-1" (_jobs (store (after utc running_run)))
     = Some running_record
  /\ dict_get "job-1" (background (after utc running_run)) = Some Executing.
Proof.
  split; [reflexivity|]. split; [reflexivity|].
  exact (proj1 (proj2 (jobs_have_background_calls utc running_run
                         (after utc running_run) "job-1" running_record
                         eq_refl eq_refl)) eq_refl).
Defined.

Lemma record_fields_immutable_witness :
  run utc initial running_run = Some (after utc running_run)
  /\ run utc (after utc running_run) [Finish "job-1" stamp0 quick_success]
     = Some (after utc done_run)
  /\ dict_get "job-1" (_jobs (store (after utc running_run)))
     = Some running_record
  /\ dict_get "job-1" (_jobs (store (after utc done_run))) = Some done_record
  /\ createdAt done_record = createdAt running_record
  /\ startedAt done_record = startedAt running_record.
Proof.
  split; [reflexivity|]. split; [reflexivity|]. split; [reflexivity|].
  split; [reflexivity|].
  destruct (record_fields_immutable utc running_run
              [Finish "job-1" stamp0 quick_success]
              (after utc running_run) (after utc done_run) "job-1"
              running_record done_record eq_refl eq_refl eq_refl eq_refl)
    as (_ & _ & Hc & _ & Hs & _).
  split; [exact Hc|]. apply Hs. discriminate.
Defined.

Lemma submit_without_key_creates_witness :
  req_task (demo_payload None) = "detect-objects"
  /\ truthy (req_idempotencyKey (demo_payload None)) = false
  /\ snd (create_job utc 1700000000 stamp0 "job-1" "req-1"
            (demo_payload None) (store initial))
     = Some ("job-1",
             {| det_imageBase64 := "data:image/png;base64,iVBORw0KGgo=";
                det_minScore := 35 # 100; det_debugSleepMs := 0 |}).
Proof.
  split; [reflexivity|]. split; [reflexivity|].
  rewrite (proj1 (submit_without_key_creates utc 1700000000 stamp0 "job-1"
                    "req-1" (demo_payload None) (store initial)
                    eq_refl eq_refl)).
  reflexivity.
Defined.

Lemma submit_then_status_witness :
  run utc initial [] = Some initial
  /\ step utc initial
       (Submit 1700000000 stamp0 "job-1" "req-1" (demo_payload None))
     = Some (after utc [Submit 1700000000 stamp0 "job-1" "req-1"
                          (demo_payload None)])
  /\ snd (get_job_status utc "job-1" 1700000900 "req-2"
            (store (after utc [Submit 1700000000 stamp0 "job-1" "req-1"
                                 (demo_payload None)])))
     = Ok {| sr_jobId := "job-1"; sr_status := pending;
             sr_task := "detect-objects"; sr_createdAt := stamp0;
             sr_startedAt := None; sr_finishedAt := None; sr_error := None;
             sr_requestId := "req-2" |}.
Proof.
  split; [reflexivity|]. split; [reflexivity|].
  assert (Hlen : (length
                    (_jobs (store (after utc
                       [Submit 1700000000 stamp0 "job-1" "req-1"
                          (demo_payload None)])))
                  <= JOBS_MAX_ITEMS)%nat) by (vm_compute; lia).
  exact (f_equal snd
           (proj1 (submit_then_status utc [] initial
                    (after utc [Submit 1700000000 stamp0 "job-1" "req-1"
                                  (demo_payload None)])
                    1700000000 stamp0 "job-1" "req-1" (demo_payload None)
                    (store (after utc [Submit 1700000000 stamp0 "job-1"
                                         "req-1" (demo_payload None)]))
                    {| cr_jobId := "job-1"; cr_status := pending;
                       cr_acceptedAt := stamp0; cr_requestId := "req-1" |}
                    ("job-1",
                     {| det_imageBase64 := "data:image/png;base64,iVBORw0KGgo=";
                        det_minScore := 35 # 100; det_debugSleepMs := 0 |})
                    1700000900 "req-2" eq_refl eq_refl eq_refl Hlen))).
Defined.

Lemma only_named_job_changes_witness :
  "job-2" <> "job-1"
  /\ dict_get "job-2"
       (_jobs (fst (cancel_job utc "job-1" 1700000003 stamp2 "req-9"
                      (store (after utc three_jobs_run)))))
     = dict_get "job-2"
         (_jobs (_cleanup_jobs utc 1700000003
                   (store (after utc three_jobs_run)))).
Proof.
  assert (Hne : "job-2" <> "job-1") by discriminate.
  split; [exact Hne|].
  exact (proj1 (only_named_job_changes utc "job-1" "job-2" 1700000003 stamp2
                  "req-9" quick_success (store (after utc three_jobs_run))
                  Hne)).
Defined.

Lemma evicted_job_stays_gone_witness :
  run utc initial done_run = Some (after utc done_run)
  /\ dict_get "job-1" (_jobs (store (after utc done_run))) = Some done_record
  /\ run utc (after utc done_run) late_health
     = Some (after utc (done_run ++ late_health))
  /\ dict_get "job-1" (_jobs (store (after utc (done_run ++ late_health))))
     = None
  /\ _process_job_finish stamp2 "job-1" quick_success
       (store (after utc (done_run ++ late_health)))
     = store (after utc (done_run ++ late_health)).
Proof.
  split; [reflexivity|]. split; [reflexivity|]. split; [reflexivity|].
  split; [reflexivity|].
  exact (proj2 (proj2 (evicted_job_stays_gone utc done_run late_health []
                         (after utc done_run)
                         (after utc (done_run ++ late_health))
                         (after utc (done_run ++ late_health))
                         "job-1" done_record
                         eq_refl eq_refl eq_refl eq_refl eq_refl))
           stamp2 quick_success).
Defined.

Lemma finish_then_result_witness :
  dict_get "job-1" (_jobs (store (after utc running_run)))
  = Some running_record
  /\ outcome quick_success = inl demo_response
  /\ duration quick_success <= JOB_RUN_TIMEOUT_SECONDS
  /\ snd (get_job_result utc "job-1" 1700000001 "req-9"
            (_process_job_finish stamp0 "job-1" quick_success
               (store (after utc running_run))))
     = Ok {| rr_jobId := "job-1"; rr_objects := [];
             rr_modelVersion := "backend-mvp-edge-heuristic-0.5.0";
             rr_latencyMs := 12; rr_requestId := "req-run" |}.
Proof.
  assert (Hd : duration quick_success <= JOB_RUN_TIMEOUT_SECONDS)
    by (unfold Qle; simpl; lia).
  split; [reflexivity|]. split; [reflexivity|]. split; [exact Hd|].
  rewrite (finish_then_result utc stamp0 "job-1" quick_success
             (store (after utc running_run)) running_record demo_response
             1700000001 "req-9" eq_refl ltac:(discriminate) eq_refl Hd
             ltac:(vm_compute; discriminate)).
  reflexivity.
Defined.

Lemma result_is_stable_witness :
  run utc initial done_run = Some (after utc done_run)
  /\ run utc (after utc done_run) [Health 1700000002 "req-5"]
     = Some (after utc (done_run ++ [Health 1700000002 "req-5"]))
  /\ dict_get "job-1"
       (_jobs (_cleanup_jobs utc 1700000001 (store (after utc done_run))))
     = Some done_record
  /\ snd (get_job_result utc "job-1" 1700000003 "req-9"
            (store (after utc (done_run ++ [Health 1700000002 "req-5"]))))
     = snd (get_job_result utc "job-1" 1700000001 "req-9"
              (store (after utc done_run))).
Proof.
  split; [reflexivity|]. split; [reflexivity|]. split; [reflexivity|].
  exact (result_is_stable utc done_run [Health 1700000002 "req-5"]
           (after utc done_run)
           (after utc (done_run ++ [Health 1700000002 "req-5"]))
           "job-1" done_record 1700000001 1700000003 "req-9"
           eq_refl eq_refl eq_refl eq_refl
           ltac:(vm_compute; discriminate)).
Defined.

Lemma media_type_without_comma :
  ~ In ","%char (list_ascii_of_string "data:image/png;base64").
Proof. simpl. intuition discriminate. Qed.

Lemma plain_text_without_comma :
  ~ In ","%char (list_ascii_of_string (det_imageBase64 plain_text_request)).
Proof. simpl. intuition discriminate. Qed.

Lemma decode_data_url_after_first_comma_witness :
  (In ","%char (list_ascii_of_string "data:image/png;base64") -> False)
  /\ _decode_data_url demo_b64decode "data:image/png;base64,AAAA"
     = inl "AAAA".
Proof.
  split; [exact media_type_without_comma|].
  exact (decode_data_url_after_first_comma demo_b64decode
           "data:image/png;base64" "AAAA" media_type_without_comma).
Defined.

Lemma detect_objects_rejects_plain_text_witness :
  (In ","%char (list_ascii_of_string (det_imageBase64 plain_text_request))
   -> False)
  /\ (det_debugSleepMs plain_text_request <= 0)%Z
  /\ detect_objects EdgeImage (fun image => image) demo_b64decode demo_open
       demo_sleep plain_text_request 0 "req-1"
     = HTTPException 400
         {| code := "invalid_image_payload";
            message := "invalid image payload: invalid data URL";
            err_requestId := "req-1";
            details := [("stage", JStr "decode_or_open")] |}.
Proof.
  assert (Hz : (det_debugSleepMs plain_text_request <= 0)%Z)
    by (simpl; lia).
  split; [exact plain_text_without_comma|]. split; [exact Hz|].
  exact (detect_objects_rejects_plain_text EdgeImage (fun image => image)
           demo_b64decode demo_open demo_sleep plain_text_request 0 "req-1"
           plain_text_without_comma (or_introl Hz)).
Defined.

Lemma job_with_plain_text_fails_witness :
  (det_debugSleepMs plain_text_request <= 0)%Z
  /\ dict_get "job-1" (_jobs (store (after utc running_run)))
     = Some running_record
  /\ dict_get "job-1"
       (_jobs (_process_job_finish stamp1 "job-1"
                 (executed EdgeImage (fun image => image) demo_b64decode
                    demo_open demo_sleep plain_text_request 10 0 "req-run")
                 (store (after utc running_run))))
     = Some {| jobId := "job-1"; status := failed; task := "detect-objects";
               createdAt := stamp0; startedAt := Some stamp0;
               finishedAt := Some stamp1; error := Some "invalid data URL";
               result := None; idempotencyKey := None |}.
Proof.
  assert (Hz : (det_debugSleepMs plain_text_request <= 0)%Z)
    by (simpl; lia).
  split; [exact Hz|]. split; [reflexivity|].
  exact (job_with_plain_text_fails EdgeImage (fun image => image)
           demo_b64decode demo_open demo_sleep plain_text_request 10 0
           "req-run" stamp1 "job-1" (store (after utc running_run))
           running_record plain_text_without_comma (or_introl Hz) eq_refl
           ltac:(discriminate)).
Defined.

Lemma heuristic_detect_box_witness :
  In demo_object
    (_heuristic_detect EdgeImage (fun image => image) demo_edges
       (to_float (35 # 100)))
  /\ x demo_object + width demo_object <= inject_Z (Z.of_nat 4)
  /\ y demo_object + height demo_object <= inject_Z (Z.of_nat 3).
Proof.
  assert (Hin : In demo_object
                  (_heuristic_detect EdgeImage (fun image => image)
                     demo_edges (to_float (35 # 100))))
    by (vm_compute; left; reflexivity).
  split; [exact Hin|].
  destruct (heuristic_detect_box EdgeImage (fun image => image) demo_edges
              (to_float (35 # 100)) demo_object Hin)
    as [(_ & _ & _ & _ & Hw & Hh) _].
  split; [exact Hw|exact Hh].
Defined.

Lemma heuristic_detect_default_threshold_witness :
  to_float (35 # 100) <= to_float (35 # 100)
  /\ (_heuristic_detect EdgeImage (fun image => image) demo_edges
        (to_float (35 # 100))
      = [] -> False).
Proof.
  assert (Hm : to_float (35 # 100) <= to_float (35 # 100))
    by apply Qle_refl.
  split; [exact Hm|].
  apply (proj2 (heuristic_detect_default_threshold EdgeImage
                  (fun image => image) demo_edges (to_float (35 # 100))
                  Hm)).
  exists 1%nat, 1%nat. unfold threshold. repeat split; simpl; lia.
Defined.
